(** * SUNAT invoice-status worker (app.py): shallow embedding and checked properties

    The worker drains a queue of invoices, validates each one against the
    SUNAT API, records the answer in a history table and a current-state
    snapshot, and mirrors the snapshot into the final business table.

    Layout of this development:
    - [Py]        Python values the code manipulates: exceptions, results,
                  strings, integers printed and parsed, JSON values;
    - [Row]       the columns [fetch_batch] returns for a queue row;
    - [Money]     [Decimal(tot).quantize(Decimal("0.00"), ROUND_HALF_UP)];
    - [Body]      [to_body_postman];
    - [Estado]    [_as_str] and [map_estado];
    - [Http]      [safe_json] and [call_sunat];
    - [Token]     [_token_try] and [get_token];
    - [Config]    [_pick_sql_driver], [_effective_driver], [_require_env],
                  [_server_part] and the connection string of [sql_cnx];
    - [Store]     the four tables, the connection with its open transaction,
                  [fetch_batch], [insert_hist], [upsert_snapshot],
                  [update_final_from_snapshot], [mark_done], [mark_error],
                  [process_batch] and the loop of [main]. *)

From Stdlib Require Import ZArith NArith Lia Bool Ascii String.
From Stdlib Require Import DecimalString DecimalZ DecimalPos.
From stdpp Require Import base option list gmap strings sorting.

Local Open Scope string_scope.
Set Warnings "-register-all".

(** ** Python values *)

Module Py.

(** An exception object, reduced to what the worker looks at: whether an
    [except requests.RequestException] clause catches it, and the texts
    [str(e)] and [repr(e)]. *)
Record exn := Exn {
  is_request_exception : bool;
  exn_str : string;
  exn_repr : string
}.

(** A computation that returns or raises. *)
Inductive res (A : Type) : Type :=
| Ret (a : A)
| Raise (e : exn).
Arguments Ret {A} a.
Arguments Raise {A} e.

#[global] Instance res_ret : MRet res := fun A a => Ret a.
#[global] Instance res_bind : MBind res := fun A B k m =>
  match m with
  | Ret a => k a
  | Raise e => Raise e
  end.

Definition returns {A} (m : res A) : bool :=
  match m with Ret _ => true | Raise _ => false end.

(** [s[:n]] *)
Fixpoint take_str (n : nat) (s : string) : string :=
  match n, s with
  | S n', String c s' => String c (take_str n' s')
  | _, _ => EmptyString
  end.
Arguments take_str : simpl never.

(** Characters removed by [str.strip()] and skipped by [int(str)]: the
    ASCII characters for which [str.isspace] holds (tab, LF, VT, FF, CR,
    the four separators 0x1c-0x1f, and space).  Strings are sequences of
    ASCII characters here. *)
Definition is_space (c : ascii) : bool :=
  let n := nat_of_ascii c in
  ((9 <=? n)%nat && (n <=? 13)%nat) || ((28 <=? n)%nat && (n <=? 32)%nat).

Fixpoint lstrip (s : string) : string :=
  match s with
  | String c s' => if is_space c then lstrip s' else s
  | EmptyString => EmptyString
  end.

Fixpoint rstrip (s : string) : string :=
  match s with
  | String c s' =>
      match rstrip s' with
      | EmptyString => if is_space c then EmptyString else String c EmptyString
      | r => String c r
      end
  | EmptyString => EmptyString
  end.

Definition strip (s : string) : string := rstrip (lstrip s).

(** [str(n)] for an [int]. *)
Definition str_Z (z : Z) : string := NilZero.string_of_int (Z.to_int z).
Definition str_N (n : N) : string := str_Z (Z.of_N n).

(** One decimal digit. *)
Definition digit_char (n : N) : ascii := ascii_of_N (48 + n mod 10).

Definition digit_val (c : ascii) : option Z :=
  let n := Z.of_nat (nat_of_ascii c) in
  if (48 <=? n)%Z && (n <=? 57)%Z then Some (n - 48)%Z else None.

(** The digits of [int(str)]: decimal digits, a single underscore allowed
    between two digits.  [acc] is the value read so far and [after_digit]
    tells whether the previous character was a digit. *)
Fixpoint int_digits (s : string) (acc : Z) (after_digit : bool) : option Z :=
  match s with
  | EmptyString => if after_digit then Some acc else None
  | String c s' =>
      match digit_val c with
      | Some d => int_digits s' (10 * acc + d)%Z true
      | None =>
          if (Ascii.eqb c "_" && after_digit)%bool
          then match s' with
               | String c' _ =>
                   if bool_decide (is_Some (digit_val c'))
                   then int_digits s' acc false
                   else None
               | EmptyString => None
               end
          else None
      end
  end.

(** [int(s)] for a string: surrounding whitespace dropped, an optional
    sign, then the digits; [None] stands for the [ValueError]. *)
Definition int_of_str (s : string) : option Z :=
  match strip s with
  | String "-" d => Z.opp <$> int_digits d 0 false
  | String "+" d => int_digits d 0 false
  | d => int_digits d 0 false
  end.

(** JSON values as [json.loads] / [Response.json()] build them:
    [None], [bool], [int], [str], [list] and [dict] (a dict keeps its
    keys in insertion order).  Floating-point numbers are left out. *)
Inductive json : Type :=
| JNull
| JBool (b : bool)
| JInt (z : Z)
| JStr (s : string)
| JArr (l : list json)
| JObj (kv : list (string * json)).

Definition is_dict (j : json) : bool :=
  match j with JObj _ => true | _ => false end.

(** [d.get(k)] on the key/value list of a dict: [None] when absent. *)
Fixpoint dict_get (k : string) (kv : list (string * json)) : json :=
  match kv with
  | [] => JNull
  | (k', v) :: kv' => if String.eqb k k' then v else dict_get k kv'
  end.

Definition dict_has (k : string) (kv : list (string * json)) : bool :=
  existsb (fun p => String.eqb k (fst p)) kv.

(** [d[k] = v]: an existing key keeps its place. *)
Fixpoint dict_set (k : string) (v : json) (kv : list (string * json))
  : list (string * json) :=
  match kv with
  | [] => [(k, v)]
  | (k', v') :: kv' =>
      if String.eqb k k' then (k, v) :: kv' else (k', v') :: dict_set k v kv'
  end.

(** [{**a, **b}] *)
Definition dict_merge (a b : list (string * json)) : list (string * json) :=
  fold_left (fun acc p => dict_set (fst p) (snd p) acc) b a.

(** Truth value of a JSON value ([if v], [v or w]). *)
Definition truthy (j : json) : bool :=
  match j with
  | JNull => false
  | JBool b => b
  | JInt z => negb (z =? 0)%Z
  | JStr s => negb (String.eqb s "")
  | JArr l => match l with [] => false | _ => true end
  | JObj kv => match kv with [] => false | _ => true end
  end.

Definition py_or (a b : json) : json := if truthy a then a else b.

(** [type(v).__name__] *)
Definition type_name (j : json) : string :=
  match j with
  | JNull => "NoneType"
  | JBool _ => "bool"
  | JInt _ => "int"
  | JStr _ => "str"
  | JArr _ => "list"
  | JObj _ => "dict"
  end.

Definition AttributeError (j : json) (attr : string) : exn :=
  let m := "'" ++ type_name j ++ "' object has no attribute '" ++ attr ++ "'" in
  Exn false m ("AttributeError(" ++ m ++ ")").

(** [js.get(k, d)]: only a dict has the method. *)
Definition py_get (js : json) (k : string) (d : json) : res json :=
  match js with
  | JObj kv => Ret (if dict_has k kv then dict_get k kv else d)
  | j => Raise (AttributeError j "get")
  end.

(** [str] of an integer reads back as that integer, so it is injective. *)
Lemma str_Z_parse (z : Z) :
  option_map Z.of_int (NilZero.int_of_string (str_Z z)) = Some z.
Proof.
  unfold str_Z. rewrite NilZero.isi.
  - cbn. f_equal. apply DecimalZ.of_to.
  - destruct z; cbn; try discriminate.
    intros [= H]. revert H. apply DecimalPos.Unsigned.to_uint_nonnil.
  - destruct z; cbn; try discriminate.
    intros [= H]. revert H. apply DecimalPos.Unsigned.to_uint_nonnil.
Qed.

Lemma str_Z_inj (a b : Z) : str_Z a = str_Z b -> a = b.
Proof.
  intros H. pose proof (str_Z_parse a) as Ha. rewrite H, str_Z_parse in Ha.
  congruence.
Qed.

(** *** [str.strip()] and [int(str)] *)

Definition head_space (s : string) : bool :=
  match s with String c _ => is_space c | EmptyString => false end.

Lemma lstrip_head (s : string) : head_space (lstrip s) = false.
Proof.
  induction s as [|c s IH]; cbn; [reflexivity|].
  destruct (is_space c) eqn:E; [exact IH|]. cbn. exact E.
Qed.

Lemma lstrip_fix (s : string) : head_space s = false -> lstrip s = s.
Proof. destruct s as [|c s]; cbn; [reflexivity|]. now intros ->. Qed.

Lemma rstrip_head (s : string) : head_space s = false -> head_space (rstrip s) = false.
Proof.
  destruct s as [|c s]; cbn; [reflexivity|]. intros H.
  destruct (rstrip s); cbn; rewrite ?H; cbn; auto.
Qed.

Lemma rstrip_idem (s : string) : rstrip (rstrip s) = rstrip s.
Proof.
  induction s as [|c s IH]; cbn; [reflexivity|].
  destruct (rstrip s) as [|c' r] eqn:E.
  - destruct (is_space c) eqn:Ec; cbn; [reflexivity|]. now rewrite Ec.
  - cbn [rstrip] in *. rewrite IH. reflexivity.
Qed.

(** A stripped text has nothing left to strip. *)
Lemma strip_idem (s : string) : strip (strip s) = strip s.
Proof.
  unfold strip.
  rewrite (lstrip_fix (rstrip (lstrip s))).
  - apply rstrip_idem.
  - apply rstrip_head, lstrip_head.
Qed.

(** A text without whitespace characters. *)
Fixpoint no_space (s : string) : bool :=
  match s with
  | String c s' => negb (is_space c) && no_space s'
  | EmptyString => true
  end.

Lemma rstrip_no_space (s : string) : no_space s = true -> rstrip s = s.
Proof.
  induction s as [|c s IH]; cbn; [reflexivity|].
  intros [Hc Hs]%andb_true_iff. rewrite (IH Hs).
  destruct s; [|reflexivity]. now destruct (is_space c).
Qed.

Lemma strip_no_space (s : string) : no_space s = true -> strip s = s.
Proof.
  intros H. unfold strip. rewrite lstrip_fix.
  - now apply rstrip_no_space.
  - destruct s; cbn in *; [reflexivity|]. now destruct (is_space a).
Qed.

(** The value of a sequence of decimal digits read after [acc]. *)
Fixpoint uint_val (d : Decimal.uint) (acc : Z) : Z :=
  match d with
  | Decimal.Nil => acc
  | Decimal.D0 l => uint_val l (10 * acc + 0)
  | Decimal.D1 l => uint_val l (10 * acc + 1)
  | Decimal.D2 l => uint_val l (10 * acc + 2)
  | Decimal.D3 l => uint_val l (10 * acc + 3)
  | Decimal.D4 l => uint_val l (10 * acc + 4)
  | Decimal.D5 l => uint_val l (10 * acc + 5)
  | Decimal.D6 l => uint_val l (10 * acc + 6)
  | Decimal.D7 l => uint_val l (10 * acc + 7)
  | Decimal.D8 l => uint_val l (10 * acc + 8)
  | Decimal.D9 l => uint_val l (10 * acc + 9)
  end%Z.

Lemma int_digits_digit (c : ascii) (s : string) (acc v : Z) (b : bool) :
  digit_val c = Some v -> int_digits (String c s) acc b = int_digits s (10 * acc + v) true.
Proof. intros H. cbn [int_digits]. now rewrite H. Qed.

Lemma int_digits_uint (d : Decimal.uint) (acc : Z) (b : bool) :
  int_digits (NilEmpty.string_of_uint d) acc b
  = match d with
    | Decimal.Nil => if b then Some acc else None
    | _ => Some (uint_val d acc)
    end.
Proof.
  revert acc b. induction d; intros acc b; cbn [NilEmpty.string_of_uint];
    [reflexivity|..];
    erewrite int_digits_digit by (vm_compute; reflexivity);
    rewrite IHd; destruct d; reflexivity.
Qed.

Lemma uint_val_pos (d : Decimal.uint) (acc : positive) :
  uint_val d (Z.pos acc) = Z.pos (Pos.of_uint_acc d acc).
Proof.
  revert acc. induction d; intros acc; cbn [uint_val Pos.of_uint_acc];
    [reflexivity|..];
    match goal with
    | |- uint_val _ ?z = Z.pos (Pos.of_uint_acc _ ?p) =>
        replace z with (Z.pos p) by lia; apply IHd
    end.
Qed.

Lemma uint_val_0 (d : Decimal.uint) : uint_val d 0 = Z.of_N (Pos.of_uint d).
Proof.
  induction d; cbn [uint_val Pos.of_uint]; [reflexivity|exact IHd|..];
    apply (uint_val_pos d).
Qed.

Lemma no_space_uint (d : Decimal.uint) : no_space (NilEmpty.string_of_uint d) = true.
Proof. induction d; cbn; auto. Qed.

Lemma int_digits_to_uint (p : positive) :
  int_digits (NilEmpty.string_of_uint (Pos.to_uint p)) 0 false = Some (Z.pos p).
Proof.
  rewrite int_digits_uint, uint_val_0, DecimalPos.Unsigned.of_to.
  pose proof (DecimalPos.Unsigned.to_uint_nonnil p).
  now destruct (Pos.to_uint p).
Qed.

Lemma no_space_str_Z (z : Z) : no_space (str_Z z) = true.
Proof.
  unfold str_Z. destruct z as [|p|p]; [reflexivity| |];
    cbn [Z.to_int NilZero.string_of_int];
    pose proof (no_space_uint (Pos.to_uint p)) as Hs;
    replace (NilZero.string_of_uint (Pos.to_uint p))
      with (NilEmpty.string_of_uint (Pos.to_uint p))
      by (pose proof (DecimalPos.Unsigned.to_uint_nonnil p);
          now destruct (Pos.to_uint p));
    [exact Hs | cbn; exact Hs].
Qed.

(** [str(z)] has no whitespace to strip, and [int(str(z)) == z]. *)
Lemma strip_str_Z (z : Z) : strip (str_Z z) = str_Z z.
Proof. apply strip_no_space, no_space_str_Z. Qed.

Lemma int_of_str_str_Z (z : Z) : int_of_str (str_Z z) = Some z.
Proof.
  unfold int_of_str. rewrite strip_str_Z. unfold str_Z.
  destruct z as [|p|p]; [reflexivity| |];
    cbn [Z.to_int NilZero.string_of_int];
    pose proof (DecimalPos.Unsigned.to_uint_nonnil p) as Hn;
    pose proof (int_digits_to_uint p) as Hp;
    replace (NilZero.string_of_uint (Pos.to_uint p))
      with (NilEmpty.string_of_uint (Pos.to_uint p))
      by (now destruct (Pos.to_uint p)).
  - destruct (Pos.to_uint p); [contradiction|..]; exact Hp.
  - now rewrite Hp.
Qed.

(** [s[:n]] has at most [n] characters. *)
Lemma length_take_str (n : nat) (s : string) : String.length (take_str n s) <= n.
Proof.
  revert s. induction n as [|n IH]; intros s.
  - replace (take_str 0 s) with "" by (now destruct s). cbn. lia.
  - destruct s as [|c s]; [change (take_str (S n) "") with ""; cbn; lia|].
    change (take_str (S n) (String c s)) with (String c (take_str n s)).
    cbn. specialize (IH s). lia.
Qed.

(** *** Keys of a merged dict *)

Lemma dict_has_set (k k' : string) (v : json) (kv : list (string * json)) :
  dict_has k (dict_set k' v kv) = (String.eqb k k' || dict_has k kv)%bool.
Proof.
  unfold dict_has. induction kv as [|[k0 v0] kv IH]; cbn.
  - now rewrite orb_false_r.
  - destruct (String.eqb_spec k' k0) as [->|Hne]; cbn.
    + now destruct (String.eqb k k0).
    + rewrite IH. destruct (String.eqb k k'), (String.eqb k k0); reflexivity.
Qed.

Lemma dict_get_set_ne (k k' : string) (v : json) (kv : list (string * json)) :
  k <> k' -> dict_get k (dict_set k' v kv) = dict_get k kv.
Proof.
  intros Hne. induction kv as [|[k0 v0] kv IH]; cbn.
  - now destruct (String.eqb_spec k k').
  - destruct (String.eqb_spec k' k0) as [->|Hne0]; cbn.
    + now destruct (String.eqb_spec k k0).
    + rewrite IH. reflexivity.
Qed.

Lemma dict_has_merge (k : string) (a b : list (string * json)) :
  dict_has k (dict_merge a b) = (dict_has k a || dict_has k b)%bool.
Proof.
  unfold dict_merge. revert a.
  induction b as [|[k0 v0] b IH]; intros a; cbn [fold_left fst snd].
  - cbn. now rewrite orb_false_r.
  - rewrite IH, dict_has_set.
    change (dict_has k ((k0, v0) :: b)) with (String.eqb k k0 || dict_has k b)%bool.
    destruct (String.eqb k k0), (dict_has k a); reflexivity.
Qed.

(** A key the second dict does not have keeps the value of the first. *)
Lemma dict_get_merge_absent (k : string) (a b : list (string * json)) :
  dict_has k b = false -> dict_get k (dict_merge a b) = dict_get k a.
Proof.
  unfold dict_merge. revert a.
  induction b as [|[k0 v0] b IH]; intros a; cbn [fold_left fst snd];
    [reflexivity|].
  change (dict_has k ((k0, v0) :: b)) with (String.eqb k k0 || dict_has k b)%bool.
  intros [Hk Hb]%orb_false_iff. rewrite IH by exact Hb.
  apply dict_get_set_ne. intros ->. now rewrite String.eqb_refl in Hk.
Qed.


Lemma str_Z_nonempty (z : Z) : str_Z z <> "".
Proof.
  intros H. pose proof (int_of_str_str_Z z) as Hz. rewrite H in Hz. discriminate.
Qed.

End Py.
Export Py.

(** ** Queue rows as [fetch_batch] returns them *)

Module Row.

(** A [decimal.Decimal] with a finite value: sign, coefficient, exponent;
    its value is [(-1)^d_neg * d_coeff * 10^d_exp].  A [float] or an [int]
    handed to [Decimal(...)] converts exactly to such a triple. *)
Record decimal := Dec { d_neg : bool; d_coeff : N; d_exp : Z }.

Record date := Date { year : Z; month : Z; day : Z }.

(** [FechaEmision] as the driver hands it over: a [date]/[datetime], or any
    other value, which the code reads through [str(femi)]. *)
Inductive fecha :=
| FDate (d : date)
| FText (s : string).

(** The nine columns of the [OUTPUT] clause of [fetch_batch], in order. *)
Record row := Row_ {
  IdQueue : Z;
  IdFactura : Z;
  RUC_Emisor : string;
  RUC_Receptor : string;
  TipoDocumento : string;
  Serie : string;
  Numero : string;
  FechaEmision : option fecha;
  ImporteTotal : option decimal
}.

End Row.
Export Row.

(** ** Money: [str(Decimal(tot).quantize(Decimal("0.00"), rounding=ROUND_HALF_UP))] *)

Module Money.

(** Precision of the default [decimal] context. *)
Definition prec : N := 28.

(** [Decimal._rescale(-2, ROUND_HALF_UP)]: the coefficient at exponent -2.
    With exponent >= -2 zeros are appended; otherwise the last
    [k = -2 - exp] digits are dropped and the result goes up exactly when
    the first dropped digit is 5 or more, that is [2 * r >= 10^k]. *)
Definition rescale_half_up (d : decimal) : N :=
  if (-2 <=? d_exp d)%Z
  then (d_coeff d * 10 ^ Z.to_N (d_exp d + 2))%N
  else
    let p := (10 ^ Z.to_N (-2 - d_exp d))%N in
    let q := (d_coeff d / p)%N in
    let r := (d_coeff d mod p)%N in
    if (p <=? 2 * r)%N then (q + 1)%N else q.

Definition InvalidOperation : exn :=
  Exn false "[<class 'decimal.InvalidOperation'>]"
            "InvalidOperation([<class 'decimal.InvalidOperation'>])".

(** [quantize]: [InvalidOperation] when the result needs more than
    [prec] digits. *)
Definition quantize_cents (d : decimal) : res N :=
  let c := rescale_half_up d in
  if (c <? 10 ^ prec)%N then Ret c else Raise InvalidOperation.

(** [str] of a Decimal of exponent -2 with coefficient [c]: integer part,
    point, two digits; the sign is the one of the operand. *)
Definition str_cents (neg : bool) (c : N) : string :=
  (if neg then "-" else "") ++ str_N (c / 100) ++ "."
  ++ String (digit_char (c / 10)) (String (digit_char c) "").

Definition monto_str (tot : option decimal) : res string :=
  match tot with
  | None => Ret "0.00"
  | Some d => c ← quantize_cents d; Ret (str_cents (d_neg d) c)
  end.





End Money.

(** ** The request body ([to_body_postman]) *)

Module Body.

Record body := Body_ {
  numRuc : string;
  codComp : string;
  numeroSerie : string;
  numero : string;
  fechaEmision : option string;
  monto : string
}.

Section ToBody.

(** [d.strftime("%d/%m/%Y")] and [datetime.strptime(s, "%Y-%m-%d")] (which
    raises on a text of another shape) are the library's. *)
Variable strftime_dmy : date -> string.
Variable strptime_ymd : string -> res date.

Definition fecha_str (femi : option fecha) : res (option string) :=
  match femi with
  | None => Ret None
  | Some (FDate d) => Ret (Some (strftime_dmy d))
  | Some (FText s) => d ← strptime_ymd s; Ret (Some (strftime_dmy d))
  end.

Definition to_body_postman (r : row) : res body :=
  fecha ← fecha_str (FechaEmision r);
  m ← Money.monto_str (ImporteTotal r);
  Ret {| numRuc := RUC_Emisor r; codComp := TipoDocumento r;
         numeroSerie := Serie r; numero := Numero r;
         fechaEmision := fecha; monto := m |}.


End ToBody.



(** Half-way cases go away from zero, and the sign of a negative amount
    that rounds to zero stays. *)
Example monto_ties :
  Money.monto_str (Some (Dec false 2675 (-3))) = Ret "2.68" /\
  Money.monto_str (Some (Dec true 125 (-3))) = Ret "-0.13" /\
  Money.monto_str (Some (Dec false 1505 (-1))) = Ret "150.50" /\
  Money.monto_str (Some (Dec true 1 (-3))) = Ret "-0.00" /\
  Money.monto_str (Some (Dec false 7 0)) = Ret "7.00".
Proof. vm_compute. repeat split. Qed.

(** An amount of 10^26 does not fit the context: [quantize] raises and no
    body is built. *)
Example monto_out_of_context :
  Money.monto_str (Some (Dec false 1 26)) = Raise Money.InvalidOperation.
Proof. vm_compute. reflexivity. Qed.

End Body.

(** ** Status mapping ([_as_str], [map_estado]) *)

Module Estado.

Section MapEstado.

(** [str(v)] of a list or of a dict (Python's [repr] of the container). *)
Variable py_repr : json -> string.

(** [str(v)] *)
Definition py_str (v : json) : string :=
  match v with
  | JNull => "None"
  | JBool true => "True"
  | JBool false => "False"
  | JInt z => str_Z z
  | JStr s => s
  | JArr _ | JObj _ => py_repr v
  end.

(** [int(v)]; [None] stands for the [ValueError] or [TypeError]. *)
Definition py_int (v : json) : option Z :=
  match v with
  | JBool b => Some (if b then 1 else 0)%Z
  | JInt z => Some z
  | JStr s => int_of_str s
  | JNull | JArr _ | JObj _ => None
  end.

Definition _as_str (v : json) : option string :=
  match v with
  | JNull => None
  | _ =>
      match py_int v with
      | Some z => Some (str_Z z)
      | None =>
          let s := strip (py_str v) in
          if String.eqb s "" then None else Some s
      end
  end.

Definition catalogo : list (string * (string * string)) :=
  [ ("0", ("NO EXISTE",     "NO EXISTE (0)"));
    ("1", ("ACEPTADO",      "ACEPTADO (1)"));
    ("2", ("ANULADO",       "ANULADO (2)"));
    ("3", ("AUTORIZADO",    "AUTORIZADO (3)"));
    ("4", ("NO AUTORIZADO", "NO AUTORIZADO (4)")) ].

Fixpoint catalogo_get (k : string) (l : list (string * (string * string)))
  : option (string * string) :=
  match l with
  | [] => None
  | (k', v) :: l' => if String.eqb k k' then Some v else catalogo_get k l'
  end.

(** [js.get("data") if isinstance(js, dict) else None] *)
Definition data_of (js : json) : json :=
  match js with JObj kv => dict_get "data" kv | _ => JNull end.

(** The value handed to [_as_str]: [data.get("estadoCp")] when [data] is
    a dict; otherwise [_as_str] is not called and the code is [None]. *)
Definition estadoCp_of (js : json) : json :=
  match data_of js with JObj kv => dict_get "estadoCp" kv | _ => JNull end.

Definition estado : Type := option string * option string * option string.

Definition map_estado (js : json) : estado :=
  let estado_cp := _as_str (estadoCp_of js) in
  match estado_cp with
  | None => (None, None, None)
  | Some cp =>
      match catalogo_get cp catalogo with
      | Some (nom, desc) => (Some nom, Some desc, Some cp)
      | None => (Some ("CODE_" ++ cp), Some ("NO_MAPEADO (" ++ cp ++ ")"), Some cp)
      end
  end.

(** The catalogue of section 4.4, by integer code. *)
Definition nombre (n : Z) : string :=
  match n with
  | 0 => "NO EXISTE"
  | 1 => "ACEPTADO"
  | 2 => "ANULADO"
  | 3 => "AUTORIZADO"
  | 4 => "NO AUTORIZADO"
  | _ => ""
  end%Z.

Definition mapped (n : Z) : estado :=
  (Some (nombre n), Some (nombre n ++ " (" ++ str_Z n ++ ")"), Some (str_Z n)).

Definition unmapped (cp : string) : estado :=
  (Some ("CODE_" ++ cp), Some ("NO_MAPEADO (" ++ cp ++ ")"), Some cp).

Definition no_code : estado := (None, None, None).


Lemma catalogo_get_other (cp : string) :
  (forall n, (0 <= n <= 4)%Z -> cp <> str_Z n) ->
  catalogo_get cp catalogo = None.
Proof.
  intros H. unfold catalogo, catalogo_get.
  repeat match goal with
         | |- context [String.eqb cp ?k] =>
             destruct (String.eqb_spec cp k) as [->|_];
             [ first [ now elim (H 0%Z) | now elim (H 1%Z) | now elim (H 2%Z)
                     | now elim (H 3%Z) | now elim (H 4%Z) ] | ]
         end.
  reflexivity.
Qed.



(** *** The code as a normal form *)

(** A code is never the empty text and has no whitespace around it. *)
Lemma _as_str_stripped (v : json) (cp : string) :
  _as_str v = Some cp -> cp <> "" /\ strip cp = cp.
Proof.
  assert (H : forall w,
             match py_int w with
             | Some z => Some (str_Z z)
             | None => let s := strip (py_str w) in
                       if String.eqb s "" then None else Some s
             end = Some cp -> cp <> "" /\ strip cp = cp).
  { intros w. destruct (py_int w) as [z|].
    - intros [= <-]. split; [apply str_Z_nonempty|apply strip_str_Z].
    - cbv zeta. destruct (String.eqb_spec (strip (py_str w)) ""); [discriminate|].
      intros [= <-]. split; [assumption|apply strip_idem]. }
  unfold _as_str. destruct v; [discriminate|apply H..].
Qed.

(** Every result of [map_estado] is three nulls, a catalogue triple, or a
    CODE_ triple for a non-empty code outside the catalogue. *)
Lemma map_estado_shape (js : json) :
  map_estado js = no_code \/
  (exists n, (0 <= n <= 4)%Z /\ map_estado js = mapped n) \/
  (exists cp, cp <> "" /\ map_estado js = unmapped cp).
Proof.
  unfold map_estado. destruct (_as_str (estadoCp_of js)) as [cp|] eqn:E; [|now left].
  right. destruct (_as_str_stripped _ _ E) as [Hne _].
  destruct (String.eqb_spec cp "0") as [->|H0]; [left; exists 0%Z; split; [lia|reflexivity]|].
  destruct (String.eqb_spec cp "1") as [->|H1]; [left; exists 1%Z; split; [lia|reflexivity]|].
  destruct (String.eqb_spec cp "2") as [->|H2]; [left; exists 2%Z; split; [lia|reflexivity]|].
  destruct (String.eqb_spec cp "3") as [->|H3]; [left; exists 3%Z; split; [lia|reflexivity]|].
  destruct (String.eqb_spec cp "4") as [->|H4]; [left; exists 4%Z; split; [lia|reflexivity]|].
  right. exists cp. split; [exact Hne|].
  rewrite catalogo_get_other; [reflexivity|].
  intros n Hn.
  assert (n = 0 \/ n = 1 \/ n = 2 \/ n = 3 \/ n = 4)%Z as Hc by lia.
  destruct Hc as [->|[->|[->|[->| ->]]]]; assumption.
Qed.


Lemma map_estado_no_empty_text (js : json) :
  (map_estado js).1.1 <> Some "" /\ (map_estado js).1.2 <> Some "".
Proof.
  destruct (map_estado_shape js) as [->|[(n & Hr & ->)|(cp & Hcp & ->)]].
  - split; discriminate.
  - assert (n = 0 \/ n = 1 \/ n = 2 \/ n = 3 \/ n = 4)%Z as Hn by lia.
    destruct Hn as [->|[->|[->|[->| ->]]]]; split; discriminate.
  - unfold unmapped. simpl. split; discriminate.
Qed.

(** X2.  The status text alone fixes the whole triple: two payloads with
    the same text have the same description and the same code (no catalogue
    name is a CODE_ name, and the names and the CODE_ texts are pairwise
    distinct).  No member of the triple is ever the empty text, and the
    text is null exactly when the code is. *)
Theorem map_estado_text_determines (js js' : json) :
  ((map_estado js).1.1 = (map_estado js').1.1 -> map_estado js = map_estado js') /\
  (map_estado js).1.1 <> Some "" /\ (map_estado js).1.2 <> Some "" /\
  (map_estado js).2 <> Some "" /\
  ((map_estado js).1.1 = None <-> (map_estado js).2 = None).
Proof.
  assert (Hn : forall n, (0 <= n <= 4 -> n = 0 \/ n = 1 \/ n = 2 \/ n = 3 \/ n = 4)%Z)
    by (intros; lia).
  destruct (map_estado_shape js) as [->|[(n & Hr & ->)|(cp & Hcp & ->)]].
  - split; [|repeat split; discriminate].
    destruct (map_estado_shape js') as [->|[(m & _ & ->)|(cp' & _ & ->)]];
      [reflexivity|discriminate..].
  - apply Hn in Hr. split.
    + destruct (map_estado_shape js') as [->|[(m & Hm & ->)|(cp' & _ & ->)]];
        [discriminate| |].
      * apply Hn in Hm.
        destruct Hr as [->|[->|[->|[->| ->]]]];
          destruct Hm as [->|[->|[->|[->| ->]]]]; first [reflexivity|discriminate].
      * destruct Hr as [->|[->|[->|[->| ->]]]]; discriminate.
    + destruct Hr as [->|[->|[->|[->| ->]]]]; repeat split; discriminate.
  - split.
    + destruct (map_estado_shape js') as [->|[(m & Hm & ->)|(cp' & _ & ->)]];
        [discriminate| |].
      * apply Hn in Hm. destruct Hm as [->|[->|[->|[->| ->]]]]; discriminate.
      * unfold unmapped. simpl. intros H. injection H as H.
        change (cp = cp') in H. now subst.
    + unfold unmapped. simpl. repeat split; try discriminate.
      intros [= ->]. now apply Hcp.
Qed.

End MapEstado.

(** The payload [{"data": {"estadoCp": v}}]. *)
Definition payload (v : json) : json := JObj [("data", JObj [("estadoCp", v)])].



(** Codes are read through [int()]: a numeric text or a boolean is the
    integer it converts to. *)
Example map_estado_int_like :
  map_estado (fun _ => "[]") (payload (JStr " 03 ")) = mapped 3 /\
  map_estado (fun _ => "[]") (payload (JBool true)) = mapped 1 /\
  map_estado (fun _ => "[]") (payload (JStr "x")) = unmapped "x".
Proof. repeat split. Qed.


End Estado.

(** ** The validation call ([safe_json], [call_sunat]) *)

Module Http.

(** What the code reads of a [requests.Response]: [status_code], the value
    [json()] returns ([None] here when the body does not decode and
    [json()] raises), and [text]. *)
Record response := Response {
  status_code : Z;
  json_body : option json;
  text : string
}.

(** [requests.post(...)] answers or raises. *)
Inductive reply :=
| Answer (r : response)
| Fails (e : exn).

Record headers := Headers { Authorization : string; Content_Type : string }.

(** The outcome of one call: what it returned or raised, the seconds
    passed to [time.sleep], in order, and the number of requests posted. *)
Record outcome := Outcome {
  result : res (bool * json);
  slept : list Z;
  posts : nat
}.

(** [{**v}] on a value that is not a dict. *)
Definition not_a_mapping (j : json) : exn :=
  let m := "'" ++ type_name j ++ "' object is not a mapping" in
  Exn false m ("TypeError(" ++ m ++ ")").

Definition safe_json (resp : response) : json :=
  match json_body resp with
  | Some js => js
  | None => JObj [("raw", JStr (take_str 1000 (text resp)))]
  end.

Section CallSunat.

(** The exception [Response.json()] raises on a body that does not decode.
    Since requests 2.27 it is [requests.exceptions.JSONDecodeError], a
    [RequestException]; before, a plain [ValueError]. *)
Variable JSONDecodeError : exn.

Variable RETRY_MAX : Z.

(** The network: the reply to the [i]-th [requests.post] of a call with
    these headers and this body. *)
Variable post : headers -> Body.body -> nat -> reply.

(** The body of the [try] for one reply. *)
Definition attempt (rp : reply) : res (bool * json) :=
  match rp with
  | Fails e => Raise e
  | Answer r =>
      if (status_code r =? 200)%Z
      then match json_body r with
           | Some js => Ret (true, js)
           | None => Raise JSONDecodeError
           end
      else match safe_json r with
           | JObj kv =>
               Ret (false, JObj (dict_merge [("http", JInt (status_code r))] kv))
           | j => Raise (not_a_mapping j)
           end
  end.

Definition error_payload (last_exc : option exn) : json :=
  JObj [("error", JStr (match last_exc with
                        | Some e => exn_str e
                        | None => "unknown"
                        end))].

(** [for i in range(RETRY_MAX)]: [range_] holds the values of [i] left. *)
Fixpoint call_loop (h : headers) (b : Body.body) (range_ : list nat)
    (last_exc : option exn) (sl : list Z) (n : nat) : outcome :=
  match range_ with
  | [] => Outcome (Ret (false, error_payload last_exc)) sl n
  | i :: rest =>
      match attempt (post h b i) with
      | Ret v => Outcome (Ret v) sl (S n)
      | Raise e =>
          if is_request_exception e
          then call_loop h b rest (Some e)
                 (sl ++ [(2 * (Z.of_nat i + 1))%Z])%list (S n)
          else Outcome (Raise e) sl (S n)
      end
  end.

Definition call_sunat (h : headers) (b : Body.body) : outcome :=
  call_loop h b (seq 0 (Z.to_nat RETRY_MAX)) None [] 0.

(** Sleeps after [k] failed attempts: 2, 4, ..., 2k seconds. *)
Definition backoff (k : nat) : list Z :=
  map (fun i => 2 * (Z.of_nat i + 1))%Z (seq 0 k).

(** [k] attempts in a row that raise a [RequestException] leave the loop
    with the last of them recorded, one sleep each, [k] more requests. *)
Lemma call_loop_failures (h : headers) (b : Body.body) (exc : nat -> exn)
    (k s : nat) (rest : list nat) (last : option exn) (sl : list Z) (n : nat) :
  (forall j, s <= j < s + k ->
     attempt (post h b j) = Raise (exc j) /\ is_request_exception (exc j) = true) ->
  call_loop h b (seq s k ++ rest) last sl n
  = call_loop h b rest
      (match k with O => last | S k' => Some (exc (s + k')) end)
      (sl ++ map (fun i => 2 * (Z.of_nat i + 1))%Z (seq s k)) (n + k).
Proof.
  revert s last sl n. induction k as [|k IH]; intros s last sl n H.
  - cbn. now rewrite app_nil_r, Nat.add_0_r.
  - cbn [seq app call_loop].
    destruct (H s ltac:(lia)) as [-> ->].
    rewrite IH by (intros j Hj; apply H; lia).
    cbn [map]. rewrite <- app_assoc. cbn [app].
    replace (S n + k) with (n + S k) by lia.
    destruct k as [|k']; [now rewrite Nat.add_0_r|].
    now replace (S s + k') with (s + S k') by lia.
Qed.

Lemma call_loop_success (h : headers) (b : Body.body) (js : json)
    (range_ : list nat) (last : option exn) (sl : list Z) (n : nat) :
  result (call_loop h b range_ last sl n) = Ret (true, js) ->
  exists i r, In i range_ /\ post h b i = Answer r /\
              status_code r = 200%Z /\ json_body r = Some js.
Proof.
  revert last sl n. induction range_ as [|i rest IH]; intros last sl n; cbn.
  - discriminate.
  - destruct (attempt (post h b i)) as [v|e] eqn:Ha.
    + cbn. intros [= ->]. exists i. unfold attempt in Ha.
      destruct (post h b i) as [r|e]; [|discriminate].
      exists r. destruct (Z.eqb_spec (status_code r) 200).
      * destruct (json_body r); [|discriminate].
        injection Ha as ->. auto.
      * destruct (safe_json r); discriminate.
    + destruct (is_request_exception e); [|discriminate].
      intros H. destruct (IH _ _ _ H) as (i' & r & Hi & Hr). eauto.
Qed.

(** An attempt that is retried: it raises a [RequestException], either
    from [requests.post] (a transport failure) or, where the decoding error
    is one, from [r.json()] on a 200 answer whose body does not decode. *)
Definition retried (rp : reply) (e : exn) : Prop :=
  attempt rp = Raise e /\ is_request_exception e = true.

Lemma transport_failure_retried (e : exn) :
  is_request_exception e = true -> retried (Fails e) e.
Proof. intros H. split; [reflexivity|exact H]. Qed.

(** C6 as the code has it.  After [k] retried attempts:
    - an answer with status 200 whose body decodes is returned as success
      with the decoded body;
    - an answer with any other status whose decoded body is a JSON object
      (or whose body does not decode: the raw-text object of [safe_json])
      is returned as failure, the object [{"http": status, **body}], with
      no further request;
    - when all [RETRY_MAX >= 1] attempts failed the call returns the failure
      [{"error": str(last exception)}];
    and the sleeps so far are 2, 4, ..., 2k seconds.  Success is returned
    only for an answer with status 200 and a decoded body. *)
Theorem call_sunat_spec (h : headers) (b : Body.body) (exc : nat -> exn) (k : nat) :
  ((forall j, j < k -> retried (post h b j) (exc j)) ->
   (k < Z.to_nat RETRY_MAX -> forall r, post h b k = Answer r ->
      (status_code r = 200%Z -> forall js, json_body r = Some js ->
         call_sunat h b = Outcome (Ret (true, js)) (backoff k) (S k)) /\
      (status_code r <> 200%Z -> forall kv, safe_json r = JObj kv ->
         call_sunat h b
         = Outcome (Ret (false, JObj (dict_merge [("http", JInt (status_code r))] kv)))
             (backoff k) (S k))) /\
   (k = Z.to_nat RETRY_MAX -> 0 < k ->
      call_sunat h b
      = Outcome (Ret (false, JObj [("error", JStr (exn_str (exc (k - 1))))]))
          (backoff k) k)) /\
  (forall js, result (call_sunat h b) = Ret (true, js) ->
     exists i r, i < Z.to_nat RETRY_MAX /\ post h b i = Answer r /\
                 status_code r = 200%Z /\ json_body r = Some js).
Proof.
  split.
  - intros Hfail.
    assert (Hloop : forall rest,
      call_loop h b (seq 0 k ++ rest) None [] 0
      = call_loop h b rest
          (match k with O => None | S k' => Some (exc k') end) (backoff k) k).
    { intros rest.
      rewrite (call_loop_failures h b exc k 0 rest None [] 0); [reflexivity|].
      intros j Hj. apply (Hfail j). lia. }
    split.
    + intros Hk r Hr. unfold call_sunat.
      replace (Z.to_nat RETRY_MAX) with (k + S (Z.to_nat RETRY_MAX - S k)) by lia.
      rewrite seq_app, Hloop. cbn [seq call_loop Nat.add]. rewrite Hr.
      split.
      * intros Hs js Hjs. unfold attempt. rewrite Hs, Hjs. reflexivity.
      * intros Hs kv Hkv. unfold attempt.
        destruct (Z.eqb_spec (status_code r) 200); [contradiction|].
        rewrite Hkv. reflexivity.
    + intros Hk Hpos. unfold call_sunat. rewrite <- Hk.
      rewrite <- (app_nil_r (seq 0 k)), Hloop. cbn.
      destruct k as [|k']; [lia|]. unfold error_payload.
      now replace (S k' - 1) with k' by lia.
  - intros js H. unfold call_sunat in H.
    destruct (call_loop_success h b js _ _ _ _ H) as (i & r & Hi & Hr).
    exists i, r. split; [|exact Hr]. apply in_seq in Hi. lia.
Qed.

(** *** What every call does, whatever the network answers *)

Lemma call_loop_trace (h : headers) (b : Body.body) (m : nat) :
  forall (s : nat) (last : option exn) (sl : list Z) (n : nat),
  exists k, k <= m /\
    slept (call_loop h b (seq s m) last sl n)
    = (sl ++ map (fun i => 2 * (Z.of_nat i + 1))%Z (seq s k))%list /\
    (posts (call_loop h b (seq s m) last sl n) = n + k \/
     (posts (call_loop h b (seq s m) last sl n) = n + S k /\ k < m)) /\
    (forall e, result (call_loop h b (seq s m) last sl n) = Raise e ->
               is_request_exception e = false).
Proof.
  induction m as [|m IH]; intros s last sl n; cbn [seq call_loop].
  - exists 0. cbn. rewrite app_nil_r.
    split; [lia|]. split; [reflexivity|]. split; [left; lia|discriminate].
  - destruct (attempt (post h b s)) as [v|e] eqn:Ha.
    + exists 0. cbn. rewrite app_nil_r.
      split; [lia|]. split; [reflexivity|]. split; [right; lia|discriminate].
    + destruct (is_request_exception e) eqn:Ee.
      * destruct (IH (S s) (Some e) (sl ++ [(2 * (Z.of_nat s + 1))%Z])%list (S n))
          as (k & Hk & Hsl & Hp & Hr).
        exists (S k). split; [lia|]. split.
        { rewrite Hsl. cbn [seq map]. now rewrite <- app_assoc. }
        split; [|exact Hr].
        destruct Hp as [Hp|[Hp Hlt]]; [left|right]; lia.
      * exists 0. cbn. rewrite app_nil_r.
        split; [lia|]. split; [reflexivity|]. split; [right; lia|].
        intros e' [= <-]. exact Ee.
Qed.

Lemma backoff_sum (k : nat) :
  foldr Z.add 0%Z (backoff k) = (Z.of_nat k * (Z.of_nat k + 1))%Z.
Proof.
  unfold backoff. induction k as [|k IH]; [reflexivity|].
  rewrite seq_S, map_app, foldr_app. cbn [map foldr Nat.add].
  assert (Hshift : forall (l : list Z) (a : Z),
            foldr Z.add a l = (a + foldr Z.add 0 l)%Z).
  { induction l as [|x l IHl]; intros a; cbn; [lia|]. rewrite IHl. lia. }
  rewrite Hshift, IH. lia.
Qed.

(** X3.  Bounds that hold for every call, whatever the service does: at
    most [RETRY_MAX] requests are posted; the sleeps are 2, 4, ..., 2k
    seconds for the [k] attempts that were retried, [k] being the number of
    requests or one less, so the call sleeps at most
    [RETRY_MAX * (RETRY_MAX + 1)] seconds in all; and an exception that
    leaves the call is never a [RequestException]. *)
Theorem call_sunat_bounds (h : headers) (b : Body.body) :
  posts (call_sunat h b) <= Z.to_nat RETRY_MAX /\
  slept (call_sunat h b) = backoff (length (slept (call_sunat h b))) /\
  length (slept (call_sunat h b)) <= posts (call_sunat h b)
    <= S (length (slept (call_sunat h b))) /\
  (foldr Z.add 0 (slept (call_sunat h b)) <= RETRY_MAX * (RETRY_MAX + 1))%Z /\
  (forall e, result (call_sunat h b) = Raise e -> is_request_exception e = false).
Proof.
  unfold call_sunat.
  destruct (call_loop_trace h b (Z.to_nat RETRY_MAX) 0 None [] 0)
    as (k & Hk & Hsl & Hp & Hr).
  cbn [app] in Hsl. fold (backoff k) in Hsl. rewrite Hsl.
  assert (Hlen : length (backoff k) = k)
    by (unfold backoff; now rewrite length_map, length_seq).
  rewrite Hlen, backoff_sum.
  split; [lia|]. split; [reflexivity|]. split; [lia|]. split; [nia|exact Hr].
Qed.

Lemma call_loop_failure (h : headers) (b : Body.body) (js : json)
    (range_ : list nat) (last : option exn) (sl : list Z) (n : nat) :
  result (call_loop h b range_ last sl n) = Ret (false, js) ->
  (exists i r body, In i range_ /\ post h b i = Answer r /\
     status_code r <> 200%Z /\ safe_json r = JObj body /\
     js = JObj (dict_merge [("http", JInt (status_code r))] body)) \/
  (exists msg, js = JObj [("error", JStr msg)]).
Proof.
  revert last sl n. induction range_ as [|i rest IH]; intros last sl n; cbn.
  - intros [= <-]. right. unfold error_payload. eauto.
  - destruct (attempt (post h b i)) as [v|e] eqn:Ha.
    + cbn. intros [= ->]. left. unfold attempt in Ha.
      destruct (post h b i) as [r|e] eqn:Hp; [|discriminate].
      destruct (Z.eqb_spec (status_code r) 200).
      * destruct (json_body r); discriminate.
      * destruct (safe_json r) as [| | | | |body] eqn:Hs; try discriminate.
        injection Ha as <-. exists i, r, body.
        split; [now left|]. auto.
    + destruct (is_request_exception e); [|discriminate].
      intros H. destruct (IH _ _ _ H) as [(i' & r & body & Hi & Hrest)|Herr];
        [left; exists i', r, body; split; [now right|exact Hrest]
        |right; exact Herr].
Qed.

(** X4.  The payload of a failure ([ok = False]) is always a dict, so the
    [js.get] of [insert_hist] and the [json.dumps] of [mark_error] apply to
    it.  It is either [{"error": text}], or the answer's body with the key
    "http" added in front, for an answer with a status other than 200; the
    value of "http" is the status code unless the body has a key "http" of
    its own, which then takes its place. *)
Theorem call_sunat_failure_payload (h : headers) (b : Body.body) (js : json) :
  result (call_sunat h b) = Ret (false, js) ->
  exists kv, js = JObj kv /\
    ((exists msg, kv = [("error", JStr msg)]) \/
     (exists i r body, i < Z.to_nat RETRY_MAX /\ post h b i = Answer r /\
        status_code r <> 200%Z /\ safe_json r = JObj body /\
        kv = dict_merge [("http", JInt (status_code r))] body /\
        dict_has "http" kv = true /\
        (forall k, dict_has k body = true -> dict_has k kv = true) /\
        (dict_has "http" body = false -> dict_get "http" kv = JInt (status_code r)))).
Proof.
  unfold call_sunat. intros H.
  destruct (call_loop_failure _ _ _ _ _ _ _ H)
    as [(i & r & body & Hi & Hr & Hst & Hs & ->)|(msg & ->)].
  - eexists. split; [reflexivity|]. right. exists i, r, body.
    apply in_seq in Hi.
    split; [lia|]. do 4 (split; [first [assumption|reflexivity]|]).
    split; [now rewrite dict_has_merge|]. split.
    + intros k Hk. rewrite dict_has_merge, Hk. apply orb_true_r.
    + intros Hno. now rewrite dict_get_merge_absent.
  - eexists. split; [reflexivity|]. left. eauto.
Qed.

End CallSunat.

(** Concrete pieces for the examples below. *)
Definition decode_error (caught : bool) : exn :=
  Exn caught "Expecting value: line 1 column 1 (char 0)"
      "JSONDecodeError('Expecting value: line 1 column 1 (char 0)')".

Definition timeout_error : exn :=
  Exn true "Read timed out. (read timeout=25)"
      "ReadTimeout('Read timed out. (read timeout=25)')".

Definition hdrs : headers := Headers "Bearer t0" "application/json".

Definition body_150_50 : Body.body :=
  Body.Body_ "20123456789" "01" "F001" "123" (Some "15/01/2024") "150.50".

(** Two timeouts, then HTTP 200 with [{"data": {"estadoCp": 3}}]. *)
Definition post_slow (_ : headers) (_ : Body.body) (i : nat) : reply :=
  if (i <? 2)%nat then Fails timeout_error
  else Answer (Response 200 (Some (Estado.payload (JInt 3))) "").

Lemma call_sunat_spec_witness :
  call_sunat (decode_error true) 3 post_slow hdrs body_150_50
  = Outcome (Ret (true, Estado.payload (JInt 3))) [2; 4]%Z 3.
Proof.
  refine (proj1 (proj1 (proj1
    (call_sunat_spec (decode_error true) 3 post_slow hdrs body_150_50
       (fun _ => timeout_error) 2) _) _ _ eq_refl) eq_refl _ eq_refl).
  - intros j Hj. destruct j as [|[|j]]; [split; reflexivity ..|lia].
  - vm_compute. lia.
Defined.

(** A 200 answer with a body that is not JSON, retried, then the answer
    with estadoCp 3: the second attempt is the success. *)
Example call_sunat_after_garbled :
  call_sunat (decode_error true) 3
    (fun _ _ i => match i with
                  | O => Answer (Response 200 None "<html>OK</html>")
                  | _ => Answer (Response 200 (Some (Estado.payload (JInt 3))) "")
                  end) hdrs body_150_50
  = Outcome (Ret (true, Estado.payload (JInt 3))) [2]%Z 2.
Proof. reflexivity. Qed.

(** HTTP 200 with a body that is not JSON, whatever the class of the
    decoding error. *)
Definition post_html (_ : headers) (_ : Body.body) (_ : nat) : reply :=
  Answer (Response 200 None "<html>OK</html>").

(** HTTP 502 whose body is the JSON list [[]]. *)
Definition post_list (_ : headers) (_ : Body.body) (_ : nat) : reply :=
  Answer (Response 502 (Some (JArr [])) "[]").

(** C6, against the letter of the specification: a 200 answer whose body
    does not decode is not a success (it is retried as a transport failure, or the decoding error
    leaves the call); with [RETRY_MAX = 0] no request is made and the
    payload carries no exception; a failure body that is not an object
    makes the call raise instead of returning a failure payload. *)
Lemma call_sunat_not_always :
  result (call_sunat (decode_error true) 1 post_html hdrs body_150_50)
    = Ret (false, JObj [("error", JStr "Expecting value: line 1 column 1 (char 0)")]) /\
  result (call_sunat (decode_error false) 1 post_html hdrs body_150_50)
    = Raise (decode_error false) /\
  call_sunat (decode_error true) 0 post_slow hdrs body_150_50
    = Outcome (Ret (false, JObj [("error", JStr "unknown")])) [] 0 /\
  result (call_sunat (decode_error true) 3 post_list hdrs body_150_50)
    = Raise (not_a_mapping (JArr [])).
Proof. repeat split. Qed.

(** HTTP 422 whose body is a JSON object. *)
Definition post_rejected (_ : headers) (_ : Body.body) (_ : nat) : reply :=
  Answer (Response 422 (Some (JObj [("cod", JStr "98"); ("msg", JStr "RUC no valido")])) "").

Lemma call_sunat_failure_payload_witness :
  exists kv,
    result (call_sunat (decode_error true) 3 post_rejected hdrs body_150_50)
    = Ret (false, JObj kv) /\
    dict_get "http" kv = JInt 422 /\ dict_get "cod" kv = JStr "98".
Proof.
  destruct (call_sunat_failure_payload (decode_error true) 3 post_rejected hdrs
              body_150_50
              (JObj [("http", JInt 422); ("cod", JStr "98"); ("msg", JStr "RUC no valido")])
              eq_refl) as (kv & Hkv & _).
  exists kv. injection Hkv as <-. repeat split.
Defined.

End Http.

(** ** The OAuth token cache ([_token_try], [get_token]) *)

Module Token.

Import Http.

Inductive auth_mode := basic | body.

(** One point of the search space: endpoint, credential mode, scope. *)
Record combo := Combo {
  ep : string;
  mode : auth_mode;
  sc : option string
}.

(** The module globals [_cached_token] and [_token_exp].  Instants are
    microseconds since 0001-01-01T00:00:00 UTC, the resolution and the
    origin of [datetime]. *)
Record token_state := TokenState {
  _cached_token : json;
  _token_exp : Z
}.

(** [_token_exp] at import time is [now]; [_cached_token] is [None]. *)
Definition initial_state (now : Z) : token_state := TokenState JNull now.

(** What one call did: its result, the globals afterwards, and the
    combinations requested, in order. *)
Record token_out := TokenOut {
  tk_result : res (json * Z);
  tk_state : token_state;
  tk_requests : list combo
}.

Definition second : Z := 1000000.

(** Largest [datetime]: 9999-12-31T23:59:59.999999. *)
Definition datetime_max : Z := 3652059 * 86400 * second - 1.

Definition OverflowError : exn :=
  Exn false "date value out of range" "OverflowError('date value out of range')".

(** [now + timedelta(seconds=s)] *)
Definition add_seconds (now s : Z) : res Z :=
  let t := (now + s * second)%Z in
  if ((0 <=? t) && (t <=? datetime_max))%Z then Ret t else Raise OverflowError.

Definition KeyError (k : string) : exn :=
  Exn false ("'" ++ k ++ "'") ("KeyError('" ++ k ++ "')").

Definition not_subscriptable (j : json) : exn :=
  let m := "'" ++ type_name j ++ "' object is not subscriptable" in
  Exn false m ("TypeError(" ++ m ++ ")").

(** [js[k]] *)
Definition subscript (js : json) (k : string) : res json :=
  match js with
  | JObj kv => if dict_has k kv then Ret (dict_get k kv) else Raise (KeyError k)
  | j => Raise (not_subscriptable j)
  end.

Definition int_error (j : json) : exn :=
  let m := "int() argument must be a string, a bytes-like object or a real number, not '"
           ++ type_name j ++ "'" in
  match j with
  | JStr s =>
      Exn false ("invalid literal for int() with base 10: '" ++ s ++ "'")
          ("ValueError(invalid literal for int() with base 10)")
  | _ => Exn false m ("TypeError(" ++ m ++ ")")
  end.

(** [int(js.get("expires_in", 0)) or 0] *)
Definition expires_in (js : json) : res Z :=
  v ← py_get js "expires_in" (JInt 0);
  match Estado.py_int v with
  | Some z => Ret z
  | None => Raise (int_error v)
  end.

Definition mode_str (m : auth_mode) : string :=
  match m with basic => "basic" | body => "body" end.

Definition scope_str (s : option string) : string :=
  match s with Some s => s | None => "None" end.

(** [f"[{ep} | auth={auth_mode} | scope={sc}]"] *)
Definition combo_tag (c : combo) : string :=
  "[" ++ ep c ++ " | auth=" ++ mode_str (mode c) ++ " | scope=" ++ scope_str (sc c) ++ "]".

Definition http_error (c : combo) (r : response) : string :=
  combo_tag c ++ " -> HTTP " ++ str_Z (status_code r) ++ " - " ++ take_str 800 (text r).

Definition exception_error (c : combo) (e : exn) : string :=
  combo_tag c ++ " -> excepción: " ++ exn_repr e.

Definition no_token (last_err : option string) : exn :=
  let m := "No se pudo obtener token SUNAT. Último error: "
           ++ match last_err with Some s => s | None => "None" end in
  Exn false m ("RuntimeError(" ++ m ++ ")").

Definition missing_credentials : exn :=
  let m := "Faltan SUNAT_CLIENT_ID o SUNAT_CLIENT_SECRET en el .env" in
  Exn false m ("RuntimeError(" ++ m ++ ")").

Definition endpoints (cid : string) : list string :=
  [ "https://api-seguridad.sunat.gob.pe/v1/clientessol/" ++ cid ++ "/oauth2/token/";
    "https://api-seguridad.sunat.gob.pe/v1/clientesextranet/" ++ cid ++ "/oauth2/token/" ].

Definition scopes : list (option string) :=
  [ Some "https://api.sunat.gob.pe/v1/contribuyente/contribuyentes";
    Some "https://api.sunat.gob.pe/v1/contribuyente/*";
    None ].

Definition auth_modes : list auth_mode := [basic; body].

(** The three nested [for] loops, outermost first. *)
Definition search_space (cid : string) : list combo :=
  e ← endpoints cid; m ← auth_modes; s ← scopes; [Combo e m s].

(** What [_token_try] hands to [requests.post]: the URL, the form fields
    ([data=]) in insertion order, and the credentials of HTTP Basic
    authentication ([auth=]). *)
Record token_request := TokenRequest {
  tr_url : string;
  tr_data : list (string * string);
  tr_auth : option (string * string)
}.

Definition _token_try (c : combo) (cid sec : string) : token_request :=
  let payload :=
    ("grant_type", "client_credentials")
    :: match sc c with
       | Some s => if String.eqb s "" then [] else [("scope", s)]
       | None => []
       end in
  match mode c with
  | basic => TokenRequest (ep c) payload (Some (cid, sec))
  | body =>
      TokenRequest (ep c) (payload ++ [("client_id", cid); ("client_secret", sec)])%list None
  end.

Fixpoint form_get (k : string) (l : list (string * string)) : option string :=
  match l with
  | [] => None
  | (k', v) :: l' => if String.eqb k k' then Some v else form_get k l'
  end.

(** What tells two requests of the search space apart: the character of
    the URL where the two endpoints first differ, whether credentials are
    sent as Basic authentication, and the length of the scope. *)
Definition request_key (rq : token_request) : option ascii * bool * option nat :=
  (String.get 46 (tr_url rq),
   match tr_auth rq with Some _ => true | None => false end,
   String.length <$> form_get "scope" (tr_data rq)).

(** X7.  The requests of the search space, for any client id and secret:
    the twelve requests are pairwise different (no request is sent twice in
    one search), each asks for the grant "client_credentials" with the
    scope of its combination, and each carries the credentials in exactly
    one place: as Basic authentication with no credential among the form
    fields, or as the form fields [client_id] and [client_secret] with no
    authentication header. *)
Theorem token_requests_distinct (cid sec : string) :
  NoDup ((fun c => _token_try c cid sec) <$> search_space cid) /\
  Forall (fun c =>
            let rq := _token_try c cid sec in
            tr_url rq = ep c /\
            form_get "grant_type" (tr_data rq) = Some "client_credentials" /\
            form_get "scope" (tr_data rq) = sc c /\
            match mode c with
            | basic => tr_auth rq = Some (cid, sec) /\
                       form_get "client_id" (tr_data rq) = None /\
                       form_get "client_secret" (tr_data rq) = None
            | body => tr_auth rq = None /\
                      form_get "client_id" (tr_data rq) = Some cid /\
                      form_get "client_secret" (tr_data rq) = Some sec
            end) (search_space cid).
Proof.
  split.
  - apply (NoDup_fmap_1 request_key).
    match goal with |- ?G => apply (bool_decide_unpack G) end.
    vm_compute. exact I.
  - cbn. repeat (apply Forall_cons; split; [repeat split|]). apply Forall_nil_2.
Qed.

Section GetToken.

(** As in [Http]: the exception of [Response.json()]. *)
Variable JSONDecodeError : exn.

Variables CLIENT_ID CLIENT_SECRET : option string.

(** The token service: the reply to [_token_try] for a combination. *)
Variable token_post : combo -> reply.

(** [datetime.now(timezone.utc)], by the number of requests made so far. *)
Variable clock : nat -> Z.

(** Lines 153-159: the body of [if r.status_code == 200], which assigns
    [_cached_token] before it computes [_token_exp]. *)
Definition renew (r : response) (now : Z) (st : token_state)
  : res (json * Z) * token_state :=
  match json_body r with
  | None => (Raise JSONDecodeError, st)
  | Some js =>
      match subscript js "access_token" with
      | Raise e => (Raise e, st)
      | Ret tok =>
          let st1 := TokenState tok (_token_exp st) in
          match s ← expires_in js; add_seconds now s with
          | Raise e => (Raise e, st1)
          | Ret t => (Ret (tok, t), TokenState tok t)
          end
      end
  end.

(** The body of the [try] for one combination: a result, or a new
    [last_err] to go on with. *)
Definition try_combo (c : combo) (now : Z) (st : token_state)
  : (res (json * Z) * token_state) + string :=
  match token_post c with
  | Fails e => inl (Raise e, st)
  | Answer r =>
      if (status_code r =? 200)%Z then inl (renew r now st)
      else inr (http_error c r)
  end.

Fixpoint token_loop (cs : list combo) (last_err : option string)
    (st : token_state) (reqs : list combo) : token_out :=
  match cs with
  | [] => TokenOut (Raise (no_token last_err)) st reqs
  | c :: rest =>
      let reqs' := (reqs ++ [c])%list in
      match try_combo c (clock (length reqs')) st with
      | inr err => token_loop rest (Some err) st reqs'
      | inl (Ret v, st') => TokenOut (Ret v) st' reqs'
      | inl (Raise e, st') =>
          if is_request_exception e
          then token_loop rest (Some (exception_error c e)) st' reqs'
          else TokenOut (Raise e) st' reqs'
      end
  end.

Definition credential (v : option string) : string :=
  strip (match v with Some s => s | None => "" end).

(** [_cached_token and (_token_exp - now).total_seconds() > 60] *)
Definition cache_valid (st : token_state) (now : Z) : bool :=
  truthy (_cached_token st) && (60 * second <? _token_exp st - now)%Z.

Definition get_token (st : token_state) : token_out :=
  let cid := credential CLIENT_ID in
  let sec := credential CLIENT_SECRET in
  if (String.eqb cid "" || String.eqb sec "")%bool
  then TokenOut (Raise missing_credentials) st []
  else if cache_valid st (clock 0)
  then TokenOut (Ret (_cached_token st, _token_exp st)) st []
  else token_loop (search_space cid) None st [].

(** A combination fails when its request raises a [RequestException], when
    it is answered with a status other than 200, or when it is answered
    with 200 and a body that does not decode, the decoding error being a
    [RequestException]; it leaves this [last_err]. *)
Definition failed (c : combo) : option string :=
  match token_post c with
  | Fails e => if is_request_exception e then Some (exception_error c e) else None
  | Answer r =>
      if (status_code r =? 200)%Z
      then match json_body r with
           | None =>
               if is_request_exception JSONDecodeError
               then Some (exception_error c JSONDecodeError) else None
           | Some _ => None
           end
      else Some (http_error c r)
  end.

Definition last_error (cs : list combo) (last_err : option string) : option string :=
  match last cs with
  | Some c => failed c
  | None => last_err
  end.

Lemma token_loop_failures (pre rest : list combo) (last_err : option string)
    (st : token_state) (reqs : list combo) :
  Forall (fun c => is_Some (failed c)) pre ->
  token_loop (pre ++ rest)%list last_err st reqs
  = token_loop rest (last_error pre last_err) st (reqs ++ pre)%list.
Proof.
  revert last_err reqs. induction pre as [|c pre IH]; intros last_err reqs H.
  - cbn. now rewrite app_nil_r.
  - inversion H as [|? ? Hc Hpre]; subst.
    cbn [app token_loop]. unfold try_combo.
    assert (Hlast : last_error (c :: pre) last_err
                    = last_error pre (failed c)).
    { unfold last_error. destruct pre as [|c' pre']; [reflexivity|].
      rewrite last_cons_cons.
      destruct (last (c' :: pre')) eqn:E; [reflexivity|].
      apply last_None in E. discriminate. }
    rewrite Hlast. destruct Hc as [err Hc]. rewrite Hc.
    unfold failed in Hc. destruct (token_post c) as [r|e].
    + destruct (status_code r =? 200)%Z.
      * unfold renew. destruct (json_body r); [discriminate|].
        destruct (is_request_exception JSONDecodeError); [|discriminate].
        injection Hc as <-. rewrite IH by assumption.
        now rewrite <- app_assoc.
      * injection Hc as <-. rewrite IH by assumption.
        now rewrite <- app_assoc.
    + destruct (is_request_exception e); [|discriminate].
      injection Hc as <-. rewrite IH by assumption.
      now rewrite <- app_assoc.
Qed.

(** Once the body of a 200 answer has decoded, nothing [renew] raises is a
    [RequestException]. *)
Lemma renew_raises (r : response) (now : Z) (st st' : token_state) (e : exn) :
  json_body r <> None -> renew r now st = (Raise e, st') ->
  is_request_exception e = false.
Proof.
  unfold renew. destruct (json_body r) as [js|]; [intros _|congruence].
  unfold subscript.
  destruct js as [| | | | |kv]; try (intros [= <- _]; reflexivity).
  destruct (dict_has "access_token" kv); [|intros [= <- _]; reflexivity].
  unfold expires_in, py_get. cbn.
  destruct (Estado.py_int _) as [z|]; cbn.
  - unfold add_seconds. destruct (_ && _)%bool; [discriminate|].
    intros [= <- _]. reflexivity.
  - intros [= <- _]. unfold int_error.
    destruct (if dict_has "expires_in" kv then _ else _); reflexivity.
Qed.

(** A token body [{"access_token": tok, "expires_in": s, ...}] renews the
    cache to [tok], valid until [now + s] seconds. *)
Lemma renew_token_body (r : response) (now : Z) (st : token_state)
    (kv : list (string * json)) (s : Z) :
  json_body r = Some (JObj kv) -> dict_has "access_token" kv = true ->
  expires_in (JObj kv) = Ret s ->
  (0 <= now + s * second <= datetime_max)%Z ->
  renew r now st
  = (Ret (dict_get "access_token" kv, now + s * second)%Z,
     TokenState (dict_get "access_token" kv) (now + s * second)%Z).
Proof.
  intros Hjs Hk Hs Hrange. unfold renew, subscript.
  rewrite Hjs, Hk, Hs. cbn. unfold add_seconds.
  destruct (Z.leb_spec 0 (now + s * second));
    destruct (Z.leb_spec (now + s * second) datetime_max); try lia.
  reflexivity.
Qed.

(** C7 as the code has it, with the credentials configured.
    - While the cached token is set and valid for more than 60 seconds the
      call returns the cached pair, leaves the cache as it is and makes no
      request.
    - Otherwise the combinations are requested in the fixed order endpoint,
      credential mode, scope.  At the first 200 answer whose body decodes
      the search stops: the call ends with what [renew] gives on that
      answer, and no later combination is requested.
    - When every combination fails the call raises the error that carries
      the [last_err] of the last combination, all of them requested. *)
Theorem get_token_spec (st : token_state) :
  credential CLIENT_ID <> "" -> credential CLIENT_SECRET <> "" ->
  (cache_valid st (clock 0) = true ->
     get_token st = TokenOut (Ret (_cached_token st, _token_exp st)) st []) /\
  (cache_valid st (clock 0) = false ->
     (forall (pre : list combo) c post r js,
        search_space (credential CLIENT_ID) = (pre ++ c :: post)%list ->
        Forall (fun c' => is_Some (failed c')) pre ->
        token_post c = Answer r -> status_code r = 200%Z ->
        json_body r = Some js ->
        tk_requests (get_token st) = (pre ++ [c])%list /\
        (tk_result (get_token st), tk_state (get_token st))
        = renew r (clock (S (length pre))) st) /\
     (Forall (fun c => is_Some (failed c)) (search_space (credential CLIENT_ID)) ->
      get_token st
      = TokenOut (Raise (no_token (last_error (search_space (credential CLIENT_ID)) None)))
          st (search_space (credential CLIENT_ID)))).
Proof.
  intros Hcid Hsec. unfold get_token.
  destruct (String.eqb_spec (credential CLIENT_ID) ""); [contradiction|].
  destruct (String.eqb_spec (credential CLIENT_SECRET) ""); [contradiction|].
  cbn [orb]. split; intros Hc; rewrite Hc; [reflexivity|]. split.
  - intros pre c post r js Hsp Hpre Hr Hst Hjs. rewrite Hsp.
    rewrite token_loop_failures by assumption.
    cbn [token_loop app]. unfold try_combo. rewrite Hr, Hst. cbn [Z.eqb Pos.eqb].
    rewrite length_app. cbn [length]. rewrite Nat.add_1_r.
    destruct (renew r (clock (S (length pre))) st) as [[v|e] st'] eqn:Hren.
    + split; reflexivity.
    + rewrite (renew_raises r _ st st' e) by (congruence || exact Hren).
      split; reflexivity.
  - intros Hall.
    rewrite <- (app_nil_r (search_space (credential CLIENT_ID))) at 1.
    rewrite token_loop_failures by assumption. reflexivity.
Qed.

(** *** What every call does, whatever the token service answers *)

(** One combination: a returned pair is the pair left in the cache; the
    cache is touched only on a 200 answer whose body decoded; and an
    exception that the loop catches leaves the cache as it was. *)
Lemma try_combo_cases (c : combo) (now : Z) (st : token_state) :
  (forall tok exp st', try_combo c now st = inl (Ret (tok, exp), st') ->
     st' = TokenState tok exp) /\
  (forall x st', try_combo c now st = inl (x, st') -> st' <> st ->
     exists r js, token_post c = Answer r /\ status_code r = 200%Z /\
                  json_body r = Some js) /\
  (forall e st', try_combo c now st = inl (Raise e, st') ->
     is_request_exception e = true -> st' = st).
Proof.
  unfold try_combo.
  destruct (token_post c) as [r|e0].
  - destruct (Z.eqb_spec (status_code r) 200) as [Hst|Hst];
      [|repeat split; discriminate].
    destruct (json_body r) as [js|] eqn:Hjs.
    + split; [|split].
      * unfold renew. rewrite Hjs. intros tok exp st'.
        destruct (subscript js "access_token"); [|discriminate].
        destruct (_ ← expires_in js; _); [|discriminate].
        now intros [= <- <- <-].
      * intros x st' _ _. eauto.
      * intros e st' [= H] He.
        rewrite (renew_raises r now st st' e) in He; [discriminate|congruence|exact H].
    + unfold renew. rewrite Hjs. split; [discriminate|].
      split; [now intros x st' [= _ <-] |now intros e st' [= _ <-]].
  - split; [discriminate|].
    split; [now intros x st' [= _ <-] |now intros e st' [= _ <-]].
Qed.

Lemma token_loop_trace (cs : list combo) :
  forall (last_err : option string) (st : token_state) (reqs : list combo),
  (exists k, (cs <> [] -> 0 < k) /\
     tk_requests (token_loop cs last_err st reqs) = (reqs ++ take k cs)%list) /\
  (forall tok exp, tk_result (token_loop cs last_err st reqs) = Ret (tok, exp) ->
     tk_state (token_loop cs last_err st reqs) = TokenState tok exp) /\
  (tk_state (token_loop cs last_err st reqs) <> st ->
   exists c r js, c ∈ cs /\ token_post c = Answer r /\
                  status_code r = 200%Z /\ json_body r = Some js).
Proof.
  induction cs as [|c cs IH]; intros last_err st reqs; cbn [token_loop].
  - split; [exists 0; split; [congruence|cbn; now rewrite app_nil_r]|].
    split; [discriminate|]. cbn. congruence.
  - assert (Hone : (reqs ++ [c] = reqs ++ take 1 (c :: cs))%list)
      by (cbn; now rewrite take_0).
    assert (Hmore : forall o : token_out,
              (exists k, (cs <> [] -> 0 < k) /\
                 tk_requests o = ((reqs ++ [c]) ++ take k cs)%list) ->
              exists k, (c :: cs <> [] -> 0 < k) /\
                 tk_requests o = (reqs ++ take k (c :: cs))%list).
    { intros o (k & _ & Hk). exists (S k). split; [lia|].
      rewrite Hk. now rewrite <- app_assoc. }
    assert (Hin : forall (P : combo -> Prop),
              (exists c0, c0 ∈ cs /\ P c0) -> exists c0, c0 ∈ c :: cs /\ P c0).
    { intros P (c0 & H0 & HP). exists c0. split; [now right|exact HP]. }
    destruct (try_combo_cases c (clock (length (reqs ++ [c])%list)) st)
      as (Hret & Hch & Hexc).
    destruct (try_combo c (clock (length (reqs ++ [c])%list)) st)
      as [[[[tok exp]|e] st']|err].
    + cbn. split; [exists 1; split; [lia|exact Hone]|].
      split.
      * intros tok' exp' [= <- <-]. now apply Hret.
      * intros Hne. destruct (Hch _ _ eq_refl Hne) as (r & js & H).
        exists c, r, js. split; [left|exact H].
    + destruct (is_request_exception e) eqn:He.
      * rewrite (Hexc e st' eq_refl He).
        destruct (IH (Some (exception_error c e)) st (reqs ++ [c])%list)
          as (Hk & Hr & Hs).
        split; [now apply Hmore|]. split; [exact Hr|].
        intros Hne. destruct (Hs Hne) as (c0 & r & js & H0 & H).
        exists c0, r, js. split; [now right|exact H].
      * cbn. split; [exists 1; split; [lia|exact Hone]|].
        split; [discriminate|].
        intros Hne. destruct (Hch _ _ eq_refl Hne) as (r & js & H).
        exists c, r, js. split; [left|exact H].
    + destruct (IH (Some err) st (reqs ++ [c])%list) as (Hk & Hr & Hs).
      split; [now apply Hmore|]. split; [exact Hr|].
      intros Hne. destruct (Hs Hne) as (c0 & r & js & H0 & H).
      exists c0, r, js. split; [now right|exact H].
Qed.

(** The pair a call returns is the pair the cache holds afterwards. *)
Lemma get_token_result_cached (st : token_state) (tok : json) (exp : Z) :
  tk_result (get_token st) = Ret (tok, exp) ->
  tk_state (get_token st) = TokenState tok exp /\
  credential CLIENT_ID <> "" /\ credential CLIENT_SECRET <> "".
Proof.
  unfold get_token.
  destruct (String.eqb_spec (credential CLIENT_ID) ""); [discriminate|].
  destruct (String.eqb_spec (credential CLIENT_SECRET) ""); [discriminate|].
  cbn [orb]. destruct (cache_valid st (clock 0)).
  - cbn. intros [= <- <-]. now destruct st.
  - intros H. split; [|split; assumption].
    now apply (token_loop_trace (search_space (credential CLIENT_ID)) None st []).
Qed.

(** X5.  For every state of the cache and every behaviour of the token
    service: the combinations requested are an initial part of the search
    space, in its order, so at most twelve requests are made; a returned
    pair (token, expiry) is exactly what the cache holds afterwards; and
    the cache is left untouched unless one of the requested combinations
    was answered with HTTP 200 and a body that decoded (failed attempts
    never clobber a cached token). *)
Theorem get_token_trace (st : token_state) :
  tk_requests (get_token st) `prefix_of` search_space (credential CLIENT_ID) /\
  length (tk_requests (get_token st)) <= 12 /\
  (forall tok exp, tk_result (get_token st) = Ret (tok, exp) ->
     tk_state (get_token st) = TokenState tok exp) /\
  (tk_state (get_token st) <> st ->
   exists c r js, c ∈ search_space (credential CLIENT_ID) /\
                  token_post c = Answer r /\
                  status_code r = 200%Z /\ json_body r = Some js).
Proof.
  assert (Hpre : tk_requests (get_token st) `prefix_of` search_space (credential CLIENT_ID)).
  { unfold get_token.
    destruct (_ || _)%bool; [apply prefix_nil|].
    destruct (cache_valid st (clock 0)); [apply prefix_nil|].
    destruct (token_loop_trace (search_space (credential CLIENT_ID)) None st [])
      as ((k & _ & ->) & _). cbn [app]. apply prefix_take. }
  split; [exact Hpre|]. split.
  { apply prefix_length in Hpre. exact Hpre. }
  split.
  { intros tok exp H. now apply get_token_result_cached. }
  unfold get_token.
  destruct (_ || _)%bool; [cbn; congruence|].
  destruct (cache_valid st (clock 0)); [cbn; congruence|].
  apply (token_loop_trace (search_space (credential CLIENT_ID)) None st []).
Qed.

End GetToken.

(** Concrete pieces for the examples below. *)
Definition token_body (tok : string) (s : Z) : json :=
  JObj [("access_token", JStr tok); ("expires_in", JInt s)].

Definition unauthorized : reply :=
  Answer (Response 401 None "invalid_client").

Definition is_first (c : combo) : bool :=
  String.eqb (ep c) "https://api-seguridad.sunat.gob.pe/v1/clientessol/cid/oauth2/token/"
  && match mode c with basic => true | body => false end
  && String.eqb (scope_str (sc c))
       "https://api.sunat.gob.pe/v1/contribuyente/contribuyentes".

(** The second combination answers 200 with a token; all others 401. *)
Definition second_grants (c : combo) : reply :=
  if String.eqb (scope_str (sc c)) "https://api.sunat.gob.pe/v1/contribuyente/*"
  then Answer (Response 200 (Some (token_body "t1" 3600)) "")
  else unauthorized.

(** 2024-01-15T00:00:00 UTC. *)
Definition t0 : Z := 738899 * 86400 * second.

Lemma get_token_spec_witness :
  get_token (decode_error true) (Some "cid") (Some "secret") second_grants
    (fun _ => t0) (TokenState (JStr "t0") (t0 + 61 * second))
  = TokenOut (Ret (JStr "t0", (t0 + 61 * second)%Z))
      (TokenState (JStr "t0") (t0 + 61 * second)) [].
Proof.
  refine (proj1 (get_token_spec (decode_error true) (Some "cid") (Some "secret")
                   second_grants (fun _ => t0)
                   (TokenState (JStr "t0") (t0 + 61 * second)) _ _) eq_refl);
    vm_compute; discriminate.
Defined.

(** With exactly 60 seconds left the cache is not used: the search runs and
    stops at the second combination. *)
Example get_token_renews :
  let out := get_token (decode_error true) (Some "cid") (Some "secret") second_grants
               (fun _ => t0) (TokenState (JStr "t0") (t0 + 60 * second)) in
  tk_result out = Ret (JStr "t1", (t0 + 3600 * second)%Z) /\
  tk_state out = TokenState (JStr "t1") (t0 + 3600 * second) /\
  length (tk_requests out) = 2.
Proof. vm_compute. repeat split. Qed.

(** The first combination answers 200 with a body that is not JSON; the
    others answer 401. *)
Definition first_garbled (c : combo) : reply :=
  if is_first c then Answer (Response 200 None "<html>OK</html>") else unauthorized.

(** C7, against the letter of the specification: with the decoding error of
    requests 2.27 and later (a [RequestException]) the search does not stop at that first
    200 answer: all twelve combinations are requested and the call raises. *)
Lemma get_token_past_200 :
  let out := get_token (decode_error true) (Some "cid") (Some "secret") first_garbled
               (fun _ => t0) (initial_state t0) in
  (exists c r, hd_error (search_space "cid") = Some c /\
               first_garbled c = Answer r /\ status_code r = 200%Z) /\
  length (tk_requests out) = 12 /\
  returns (tk_result out) = false.
Proof.
  cbv zeta. split; [|split; vm_compute; reflexivity].
  eexists _, _. split; [reflexivity|]. split; reflexivity.
Qed.

(** X6.  The cache across two calls.  When a call has returned a pair
    (token, expiry), the next call, whatever the token service would answer
    and whatever the time, returns that same pair without any request as
    long as the token is a non-empty value and more than 60 seconds of
    validity are left; with 60 seconds or less left, or with an empty
    token, it does not use the cache and requests a new one. *)
Theorem get_token_cached_next (JSONDecodeError : exn)
    (CLIENT_ID CLIENT_SECRET : option string)
    (post1 post2 : combo -> reply) (clock1 clock2 : nat -> Z)
    (st : token_state) (tok : json) (exp : Z) :
  tk_result (get_token JSONDecodeError CLIENT_ID CLIENT_SECRET post1 clock1 st)
  = Ret (tok, exp) ->
  let st1 := tk_state (get_token JSONDecodeError CLIENT_ID CLIENT_SECRET post1 clock1 st) in
  (truthy tok = true -> (60 * second < exp - clock2 O)%Z ->
   get_token JSONDecodeError CLIENT_ID CLIENT_SECRET post2 clock2 st1
   = TokenOut (Ret (tok, exp)) st1 []) /\
  (truthy tok = false \/ (exp - clock2 O <= 60 * second)%Z ->
   tk_requests (get_token JSONDecodeError CLIENT_ID CLIENT_SECRET post2 clock2 st1) <> []).
Proof.
  intros H st1.
  destruct (get_token_result_cached _ _ _ _ _ _ _ _ H) as (Hst & Hcid & Hsec).
  subst st1. rewrite Hst. unfold get_token.
  destruct (String.eqb_spec (credential CLIENT_ID) ""); [contradiction|].
  destruct (String.eqb_spec (credential CLIENT_SECRET) ""); [contradiction|].
  cbn [orb]. unfold cache_valid. cbn [_cached_token _token_exp]. split.
  - intros -> Hlt.
    destruct (Z.ltb_spec (60 * second) (exp - clock2 O)); [reflexivity|lia].
  - intros Hno.
    assert ((truthy tok && (60 * second <? exp - clock2 O)%Z)%bool = false) as ->.
    { destruct Hno as [-> |Hle]; [reflexivity|].
      destruct (Z.ltb_spec (60 * second) (exp - clock2 O)); [lia|apply andb_false_r]. }
    destruct (token_loop_trace JSONDecodeError post2 clock2
                (search_space (credential CLIENT_ID)) None (TokenState tok exp) [])
      as ((k & Hk & ->) & _).
    cbn [app]. specialize (Hk ltac:(discriminate)).
    destruct k; [lia|]. discriminate.
Qed.

(** A token granted at [t0] for an hour is returned again 1000 seconds
    later, with a token service that would refuse. *)
Lemma get_token_cached_next_witness :
  get_token (decode_error true) (Some "cid") (Some "secret") (fun _ => unauthorized)
    (fun _ => t0 + 1000 * second)%Z
    (tk_state (get_token (decode_error true) (Some "cid") (Some "secret") second_grants
                 (fun _ => t0) (initial_state t0)))
  = TokenOut (Ret (JStr "t1", (t0 + 3600 * second)%Z))
      (tk_state (get_token (decode_error true) (Some "cid") (Some "secret") second_grants
                   (fun _ => t0) (initial_state t0))) [].
Proof.
  refine (proj1 (get_token_cached_next (decode_error true) (Some "cid") (Some "secret")
                   second_grants (fun _ => unauthorized) (fun _ => t0)
                   (fun _ => t0 + 1000 * second)%Z (initial_state t0)
                   (JStr "t1") (t0 + 3600 * second)%Z _) eq_refl _).
  - vm_compute. reflexivity.
  - vm_compute. reflexivity.
Defined.

End Token.

(** ** Configuration: the ODBC driver, required variables, the connection string *)

Module Config.

(** [os.getenv(name)]: the environment of the process, after [load_dotenv]. *)
Definition environ : Type := string -> option string.

Definition RuntimeError (m : string) : exn := Exn false m ("RuntimeError('" ++ m ++ "')").

Definition prefs : list string :=
  ["ODBC Driver 18 for SQL Server"; "ODBC Driver 17 for SQL Server"].

Section Drivers.

(** [pyodbc.drivers()] (the two functions each call it; the list is the
    same), and the text of a list of names in an f-string (the library's
    [repr]). *)
Variable drivers : list string.
Variable repr_list : list string -> string.

(** [[d.strip() for d in pyodbc.drivers()]] *)
Definition installed : list string := strip <$> drivers.

Definition no_driver : exn :=
  RuntimeError ("No se encontró un driver ODBC 17/18. Detectados: " ++ repr_list installed).

(** [for p in prefs: if p in installed: return p] *)
Fixpoint first_installed (ps : list string) : option string :=
  match ps with
  | [] => None
  | p :: ps' => if bool_decide (p ∈ installed) then Some p else first_installed ps'
  end.

Definition _pick_sql_driver : res string :=
  match first_installed prefs with
  | Some p => Ret p
  | None => Raise no_driver
  end.

(** [wanted] is [os.getenv("SQL_DRIVER")]; the warning logged when it is
    set and not installed is left out. *)
Definition _effective_driver (wanted : option string) : res string :=
  match wanted with
  | Some w =>
      if negb (String.eqb w "") && bool_decide (w ∈ installed)
      then Ret w else _pick_sql_driver
  | None => _pick_sql_driver
  end.

(** The configured driver can be used: it is set, not empty, and installed
    under exactly that name. *)
Definition usable (wanted : option string) : Prop :=
  exists w, wanted = Some w /\ w <> "" /\ w ∈ installed.

(** X22.  The ODBC driver used for the connection.  Whatever
    [_effective_driver] returns is a driver that is installed (by its
    stripped name): the configured [SQL_DRIVER] when it is set, not empty
    and installed under exactly that name, whatever driver it is;
    otherwise ODBC Driver 18 when installed, else ODBC Driver 17 when
    installed; and when neither is installed the call raises. *)
Theorem effective_driver_spec (wanted : option string) :
  (forall d, _effective_driver wanted = Ret d ->
     d ∈ installed /\ (wanted = Some d \/ (~ usable wanted /\ d ∈ prefs))) /\
  (forall w, wanted = Some w -> w <> "" -> w ∈ installed ->
     _effective_driver wanted = Ret w) /\
  (~ usable wanted ->
     ("ODBC Driver 18 for SQL Server" ∈ installed ->
      _effective_driver wanted = Ret "ODBC Driver 18 for SQL Server") /\
     ("ODBC Driver 18 for SQL Server" ∉ installed ->
      "ODBC Driver 17 for SQL Server" ∈ installed ->
      _effective_driver wanted = Ret "ODBC Driver 17 for SQL Server") /\
     ("ODBC Driver 18 for SQL Server" ∉ installed ->
      "ODBC Driver 17 for SQL Server" ∉ installed ->
      _effective_driver wanted = Raise no_driver)).
Proof.
  assert (Hpick : forall d, _pick_sql_driver = Ret d -> d ∈ installed /\ d ∈ prefs).
  { unfold _pick_sql_driver, prefs. cbn [first_installed]. intros d.
    destruct (bool_decide_reflect ("ODBC Driver 18 for SQL Server" ∈ installed));
      [intros [= <-]; split; [assumption|left]|].
    destruct (bool_decide_reflect ("ODBC Driver 17 for SQL Server" ∈ installed));
      [intros [= <-]; split; [assumption|right; left]|].
    discriminate. }
  assert (Hun : ~ usable wanted -> _effective_driver wanted = _pick_sql_driver).
  { intros Hno. unfold _effective_driver. destruct wanted as [w|]; [|reflexivity].
    destruct (String.eqb_spec w ""); [reflexivity|]. cbn.
    destruct (bool_decide_reflect (w ∈ installed)); [|reflexivity].
    elim Hno. exists w. auto. }
  assert (Huse : forall w, wanted = Some w -> w <> "" -> w ∈ installed ->
                 _effective_driver wanted = Ret w).
  { intros w -> Hw Hin. unfold _effective_driver.
    destruct (String.eqb_spec w ""); [contradiction|]. cbn.
    now rewrite bool_decide_eq_true_2. }
  split; [|split; [exact Huse|]].
  - intros d Hd. unfold _effective_driver in Hd.
    destruct wanted as [w|].
    + destruct (String.eqb_spec w "") as [->|Hne]; cbn in Hd.
      * destruct (Hpick d Hd). split; [assumption|]. right. split; [|assumption].
        intros (w & [= <-] & Hw & _). contradiction.
      * destruct (bool_decide_reflect (w ∈ installed)) as [Hin|Hnin].
        -- injection Hd as <-. auto.
        -- destruct (Hpick d Hd). split; [assumption|]. right. split; [|assumption].
           intros (w' & [= <-] & _ & Hin). contradiction.
    + destruct (Hpick d Hd). split; [assumption|]. right. split; [|assumption].
      intros (w & [=] & _).
  - intros Hno. rewrite (Hun Hno). unfold _pick_sql_driver, prefs.
    cbn [first_installed]. split; [|split].
    + intros H18. now rewrite bool_decide_eq_true_2.
    + intros H18 H17. rewrite bool_decide_eq_false_2 by assumption.
      now rewrite bool_decide_eq_true_2.
    + intros H18 H17. now rewrite !bool_decide_eq_false_2.
Qed.

End Drivers.

(** [os.getenv(name, default)] *)
Definition getenv (env : environ) (name : string) (default : option string)
  : option string :=
  match env name with
  | Some v => Some v
  | None => default
  end.

Definition missing_variable (name : string) : exn :=
  RuntimeError ("Falta variable de entorno requerida: " ++ name).

Definition _require_env (env : environ) (name : string) (default : option string)
  : res string :=
  match getenv env name default with
  | None => Raise (missing_variable name)
  | Some val =>
      if String.eqb (strip val) "" then Raise (missing_variable name)
      else Ret (strip val)
  end.


(** ["\\" in host] *)
Definition backslash : ascii := ascii_of_nat 92.

Fixpoint contains (c : ascii) (s : string) : bool :=
  match s with
  | String c' s' => Ascii.eqb c c' || contains c s'
  | EmptyString => false
  end.

Definition _server_part (host port : string) : string :=
  if contains backslash host then host
  else if String.eqb port "" then host else host ++ "," ++ port.

Section SqlCnx.

Variable drivers : list string.
Variable repr_list : list string -> string.

(** [sql_cnx] up to the connection string [cs] it hands to
    [pyodbc.connect]; the DNS diagnosis in between only logs. *)
Definition connection_string (env : environ) : res string :=
  driver ← _effective_driver drivers repr_list (env "SQL_DRIVER");
  host ← _require_env env "SQL_SERVER" None;
  let port := strip (match env "SQL_PORT" with Some p => p | None => "1433" end) in
  db ← _require_env env "SQL_DB" None;
  user ← _require_env env "SQL_USER" None;
  pwd ← _require_env env "SQL_PASSWORD" None;
  let server := _server_part host port in
  Ret ("DRIVER={" ++ driver ++ "};SERVER=" ++ server ++ ";DATABASE=" ++ db
       ++ ";UID=" ++ user ++ ";PWD=" ++ pwd
       ++ ";Encrypt=Yes;TrustServerCertificate=Yes;Connection Timeout=15;").




End SqlCnx.

(** A host with the default port, and a named instance, which takes no
    port. *)
Example connection_string_server :
  let env port host : environ := fun name =>
    if String.eqb name "SQL_SERVER" then Some host
    else if String.eqb name "SQL_PORT" then port
    else if String.eqb name "SQL_DRIVER" then None
    else Some " x " in
  connection_string ["ODBC Driver 17 for SQL Server "] (fun _ => "[]") (env None "db01")
  = Ret ("DRIVER={ODBC Driver 17 for SQL Server};SERVER=db01,1433;DATABASE=x;UID=x;PWD=x;"
         ++ "Encrypt=Yes;TrustServerCertificate=Yes;Connection Timeout=15;") /\
  _server_part "db01" "" = "db01" /\
  _server_part (String backslash "SQLEXPRESS") "1433" = String backslash "SQLEXPRESS".
Proof. vm_compute. repeat split. Qed.

End Config.

(** ** The tables and the statements run on them *)

Module Store.

(** INH.API_SUNAT_QUEUE, keyed by [IdQueue]. *)
Record qrow := QRow {
  q_IdFactura : Z;
  q_RUC_Emisor : string;
  q_RUC_Receptor : string;
  q_TipoDocumento : string;
  q_Serie : string;
  q_Numero : string;
  q_FechaEmision : option fecha;
  q_ImporteTotal : option decimal;
  Status : string;
  Attempts : Z;
  LastError : option string;
  EnqueuedAt : Z
}.

(** INH.SUNAT_VALIDACION: rows are only ever appended. *)
Record hrow := HRow {
  h_IdFactura : Z;
  h_RUC_Emisor : string;
  h_RUC_Receptor : string;
  h_TipoDocumento : string;
  h_Serie : string;
  h_Numero : string;
  h_FechaEmision : option fecha;
  h_ImporteTotal : option decimal;
  Estado_SUNAT : option string;
  h_Codigo_Respuesta : option string;
  h_Mensaje : option string;
  Token_Expira_UTC : Z;
  Raw_JSON : string
}.

(** INH.SUNAT_ESTADO_ACTUAL, one row per [IdFactura] (the key here). *)
Record srow := SRow {
  s_RUC_Emisor : string;
  s_RUC_Receptor : string;
  s_TipoDocumento : string;
  s_Serie : string;
  s_Numero : string;
  s_ImporteTotal : option decimal;
  Estado_Actual : option string;
  Estado_Descripcion : option string;
  s_Codigo_Respuesta : option string;
  s_Mensaje : option string;
  Fecha_Primera_Consulta : option Z;
  Fecha_Ultima_Consulta : option Z;
  Fecha_Ultimo_Cambio : option Z;
  Cambio_Estado : option Z
}.

(** DATA.FACTURA_COMPRA_BACKUS_CABECERA, keyed by [IdFactura]: the SUNAT_*
    columns, and [f_otros] for every other column of the row. *)
Record frow := FRow {
  f_otros : string;
  Estado_SUNAT_ULT : option string;
  Estado_SUNAT_Descripcion : option string;
  SUNAT_Codigo_Respuesta : option string;
  SUNAT_Mensaje : option string;
  SUNAT_Cambio_Estado : option Z;
  SUNAT_Fecha_Primera : option Z;
  SUNAT_Fecha_Ultima : option Z;
  SUNAT_Fecha_Cambio : option Z
}.

Record db := Db {
  queue : gmap Z qrow;
  hist : list hrow;
  snapshot : gmap Z srow;
  final : gmap Z frow
}.

(** A connection with [autocommit = False]: [committed] is what the last
    commit left, [work] what the statements run since then have made;
    every statement reads and writes [work]. *)
Record cnx := Cnx {
  committed : db;
  work : db
}.

Definition connect (d : db) : cnx := Cnx d d.

(** A statement that the server or the driver refuses raises this error
    and changes nothing. *)
Definition fault := option exn.

Definition guard (f : fault) : res unit :=
  match f with
  | Some e => Raise e
  | None => Ret tt
  end.

Definition commit (c : cnx) (f : fault) : res cnx :=
  _ ← guard f; Ret (Cnx (work c) (work c)).

Definition rollback (c : cnx) (f : fault) : res cnx :=
  _ ← guard f; Ret (Cnx (committed c) (committed c)).

Definition set_queue (d : db) (q : gmap Z qrow) : db :=
  Db q (hist d) (snapshot d) (final d).
Definition set_hist (d : db) (h : list hrow) : db :=
  Db (queue d) h (snapshot d) (final d).
Definition set_snapshot (d : db) (s : gmap Z srow) : db :=
  Db (queue d) (hist d) s (final d).
Definition set_final (d : db) (f : gmap Z frow) : db :=
  Db (queue d) (hist d) (snapshot d) f.
Definition set_work (c : cnx) (d : db) : cnx := Cnx (committed c) d.

(** *** [fetch_batch] *)

(** [ORDER BY EnqueuedAt]; rows enqueued at the same instant are taken in
    the order of their keys. *)
Definition older (a b : Z * qrow) : Prop :=
  (EnqueuedAt a.2 < EnqueuedAt b.2
   \/ (EnqueuedAt a.2 = EnqueuedAt b.2 /\ a.1 <= b.1))%Z.

#[global] Instance older_dec (a b : Z * qrow) : Decision (older a b).
Proof. unfold older. apply _. Defined.

(** The subquery: [SELECT TOP (n) IdQueue ... WHERE Status='queued'
    ORDER BY EnqueuedAt]. *)
Definition top_queued (n : Z) (q : gmap Z qrow) : list (Z * qrow) :=
  take (Z.to_nat n)
    (merge_sort older
       (filter (fun kr => Status kr.2 = "queued") (map_to_list q))).

Definition claim (r : qrow) : qrow :=
  QRow (q_IdFactura r) (q_RUC_Emisor r) (q_RUC_Receptor r) (q_TipoDocumento r)
       (q_Serie r) (q_Numero r) (q_FechaEmision r) (q_ImporteTotal r)
       "processing" (Attempts r + 1) (LastError r) (EnqueuedAt r).

(** The [OUTPUT inserted....] columns of one row. *)
Definition output_row (kr : Z * qrow) : row :=
  Row_ kr.1 (q_IdFactura kr.2) (q_RUC_Emisor kr.2) (q_RUC_Receptor kr.2)
       (q_TipoDocumento kr.2) (q_Serie kr.2) (q_Numero kr.2)
       (q_FechaEmision kr.2) (q_ImporteTotal kr.2).

Definition invalid_top : exn :=
  Exn false "A TOP or FETCH clause contains an invalid value."
      "ProgrammingError('A TOP or FETCH clause contains an invalid value.')".

(** One [UPDATE ... OUTPUT ... WHERE IdQueue IN (...)] statement; it is not
    followed by a commit. *)
Definition fetch_batch (c : cnx) (n : Z) (f : fault) : res (cnx * list row) :=
  _ ← guard f;
  if (n <? 0)%Z then Raise invalid_top
  else
    let sel := top_queued n (queue (work c)) in
    let q' := foldr (fun kr q => alter claim kr.1 q) (queue (work c)) sel in
    Ret (set_work c (set_queue (work c) q'), output_row <$> sel).

Lemma top_queued_NoDup (n : Z) (q : gmap Z qrow) : NoDup (top_queued n q).*1.
Proof.
  unfold top_queued.
  eapply sublist_NoDup; [|apply fmap_sublist, sublist_take].
  rewrite merge_sort_Permutation.
  eapply sublist_NoDup; [|apply fmap_sublist, sublist_filter; apply _].
  apply NoDup_fst_map_to_list.
Qed.

Lemma top_queued_lookup (n : Z) (q : gmap Z qrow) (k : Z) (r : qrow) :
  (k, r) ∈ top_queued n q -> q !! k = Some r /\ Status r = "queued".
Proof.
  unfold top_queued. intros H.
  apply (fun H => elem_of_sublist _ _ _ H (sublist_take _ _)) in H.
  rewrite merge_sort_Permutation in H.
  apply list_elem_of_filter in H as [Hs H].
  apply elem_of_map_to_list in H. auto.
Qed.

(** Claiming the selected rows: each of them, once; no other row. *)
Lemma claim_lookup (sel : list (Z * qrow)) (q : gmap Z qrow) (k : Z) :
  NoDup sel.*1 ->
  foldr (fun kr q => alter claim kr.1 q) q sel !! k
  = if decide (k ∈ sel.*1) then claim <$> q !! k else q !! k.
Proof.
  induction sel as [|[k' r'] sel IH]; intros Hnd; cbn.
  - destruct (decide (k ∈ [])) as [H|_]; [inversion H|reflexivity].
  - apply NoDup_cons in Hnd as [Hk' Hnd]. specialize (IH Hnd).
    destruct (decide (k' = k)) as [->|Hne].
    + rewrite lookup_alter_eq, IH.
      destruct (decide (k ∈ sel.*1)); [contradiction|].
      destruct (decide (k ∈ k :: sel.*1)) as [_|H]; [reflexivity|].
      elim H. left.
    + rewrite lookup_alter_ne by exact Hne. rewrite IH.
      destruct (decide (k ∈ sel.*1)) as [Hin|Hnin];
        destruct (decide (k ∈ k' :: sel.*1)) as [Hin'|Hnin']; try reflexivity.
      * elim Hnin'. now right.
      * apply elem_of_cons in Hin' as [->|?]; contradiction.
Qed.

(** What [fetch_batch] hands over: rows of the queue, no row twice, each
    one [queued] before and [processing] with one more attempt after; the
    claim is in the open transaction, nothing is committed. *)
Lemma fetch_batch_spec (c c1 : cnx) (n : Z) (f : fault) (rows : list row) :
  fetch_batch c n f = Ret (c1, rows) ->
  committed c1 = committed c /\
  hist (work c1) = hist (work c) /\ snapshot (work c1) = snapshot (work c) /\
  final (work c1) = final (work c) /\
  NoDup (IdQueue <$> rows) /\
  (forall k, is_Some (queue (work c1) !! k) <-> is_Some (queue (work c) !! k)) /\
  (forall r, r ∈ rows ->
     exists q, queue (work c) !! IdQueue r = Some q /\ Status q = "queued" /\
               r = output_row (IdQueue r, q) /\
               queue (work c1) !! IdQueue r = Some (claim q)) /\
  (forall k, k ∉ IdQueue <$> rows -> queue (work c1) !! k = queue (work c) !! k).
Proof.
  unfold fetch_batch. destruct f; cbn; [discriminate|].
  destruct (n <? 0)%Z; [discriminate|]. intros [= <- <-]. cbn.
  pose proof (top_queued_NoDup n (queue (work c))) as Hnd.
  assert (Hids : IdQueue <$> (output_row <$> top_queued n (queue (work c)))
                 = (top_queued n (queue (work c))).*1).
  { rewrite <- list_fmap_compose. apply list_fmap_ext. now intros i [k r] _. }
  rewrite Hids. repeat split; try assumption.
  - rewrite claim_lookup by assumption.
    destruct (decide _); [|auto]. now rewrite fmap_is_Some.
  - rewrite claim_lookup by assumption.
    destruct (decide _); [|auto]. now rewrite fmap_is_Some.
  - intros r Hr. apply list_elem_of_fmap in Hr as ([k q] & Heq & Hr). subst r.
    destruct (top_queued_lookup _ _ _ _ Hr) as [Hq Hst].
    exists q. cbn. repeat split; try assumption.
    rewrite claim_lookup by assumption.
    destruct (decide _) as [_|Hn]; [now rewrite Hq|].
    elim Hn. apply list_elem_of_fmap. exists (k, q). auto.
  - intros k Hk. rewrite claim_lookup by assumption.
    destruct (decide _); [contradiction|reflexivity].
Qed.

(** X10.  Two claims run one after the other on a connection hand over no
    row twice: the rows of the first are [processing] when the second
    selects. *)
Lemma fetch_batch_twice_disjoint (c c1 c2 : cnx) (n m : Z) (f g : fault)
    (rows1 rows2 : list row) :
  fetch_batch c n f = Ret (c1, rows1) ->
  fetch_batch c1 m g = Ret (c2, rows2) ->
  forall r1 r2, r1 ∈ rows1 -> r2 ∈ rows2 -> IdQueue r1 <> IdQueue r2.
Proof.
  intros H1 H2 r1 r2 Hr1 Hr2 Heq.
  destruct (fetch_batch_spec _ _ _ _ _ H1) as (_ & _ & _ & _ & _ & _ & Hc1 & _).
  destruct (fetch_batch_spec _ _ _ _ _ H2) as (_ & _ & _ & _ & _ & _ & Hc2 & _).
  destruct (Hc1 r1 Hr1) as (q1 & _ & _ & _ & Hq1).
  destruct (Hc2 r2 Hr2) as (q2 & Hq2 & Hst & _).
  rewrite Heq, Hq2 in Hq1. injection Hq1 as ->. discriminate Hst.
Qed.

(** *** Which rows a claim takes *)

#[global] Instance older_total : Total older.
Proof. intros a b. unfold older. lia. Qed.

#[global] Instance older_trans : Transitive older.
Proof. intros a b c. unfold older. lia. Qed.

(** The rows with [Status = 'queued']. *)
Definition queued (q : gmap Z qrow) : list (Z * qrow) :=
  filter (fun kr => Status kr.2 = "queued") (map_to_list q).

Lemma top_queued_split (n : Z) (q : gmap Z qrow) :
  exists rest,
    StronglySorted older (top_queued n q ++ rest)%list /\
    (top_queued n q ++ rest)%list ≡ₚ queued q /\
    length (top_queued n q) = min (Z.to_nat n) (length (queued q)).
Proof.
  unfold top_queued. fold (queued q).
  exists (drop (Z.to_nat n) (merge_sort older (queued q))).
  rewrite take_drop. split; [apply StronglySorted_merge_sort; apply _|].
  split; [apply merge_sort_Permutation|].
  rewrite length_take. now rewrite merge_sort_Permutation.
Qed.


(** X9.  What a claim does to the tables: every row handed over was
    [queued] and is now [processing] with [Attempts] one higher, its other
    columns as they were, and the tuple handed over shows the row's
    columns; no row is handed over twice; rows that are not handed over,
    and the history, snapshot and final tables, are untouched; and nothing
    is committed: the claim stays in the open transaction. *)
Theorem fetch_batch_claims (c c1 : cnx) (n : Z) (f : fault) (rows : list row) :
  fetch_batch c n f = Ret (c1, rows) ->
  committed c1 = committed c /\
  hist (work c1) = hist (work c) /\ snapshot (work c1) = snapshot (work c) /\
  final (work c1) = final (work c) /\
  NoDup (IdQueue <$> rows) /\
  (forall r, r ∈ rows ->
     exists q q', queue (work c) !! IdQueue r = Some q /\ Status q = "queued" /\
       queue (work c1) !! IdQueue r = Some q' /\
       Status q' = "processing" /\ Attempts q' = (Attempts q + 1)%Z /\
       LastError q' = LastError q /\ EnqueuedAt q' = EnqueuedAt q /\
       r = output_row (IdQueue r, q) /\ r = output_row (IdQueue r, q')) /\
  (forall k, k ∉ IdQueue <$> rows -> queue (work c1) !! k = queue (work c) !! k).
Proof.
  intros H.
  destruct (fetch_batch_spec _ _ _ _ _ H)
    as (Hcm & Hh & Hs & Hf & Hnd & _ & Hclaimed & Hother).
  do 5 (split; [assumption|]). split; [|exact Hother].
  intros r Hr. destruct (Hclaimed r Hr) as (q & Hq & Hst & Hrow & Hq').
  exists q, (claim q). repeat split; assumption.
Qed.

(** *** [mark_done], [mark_error] *)

Definition set_status (st : string) (err : option string) (r : qrow) : qrow :=
  QRow (q_IdFactura r) (q_RUC_Emisor r) (q_RUC_Receptor r) (q_TipoDocumento r)
       (q_Serie r) (q_Numero r) (q_FechaEmision r) (q_ImporteTotal r)
       st (Attempts r) err (EnqueuedAt r).

Definition mark_done (d : db) (idq : Z) (f : fault) : res db :=
  _ ← guard f;
  Ret (set_queue d (alter (set_status "done" None) idq (queue d))).

(** *** Binding a Python value to a text column *)

Definition invalid_parameter (j : json) : exn :=
  let m := "Invalid parameter type. param-type=" ++ type_name j in
  Exn false m ("ProgrammingError('" ++ m ++ "')").

(** The text a column holds after the driver bound [j] to it: NULL for
    [None], the text itself, the decimal text of an integer, 1 or 0 for a
    boolean; a list or a dict cannot be bound. *)
Definition sql_text (j : json) : res (option string) :=
  match j with
  | JNull => Ret None
  | JStr s => Ret (Some s)
  | JInt z => Ret (Some (str_Z z))
  | JBool b => Ret (Some (if b then "1" else "0"))
  | JArr _ | JObj _ => Raise (invalid_parameter j)
  end.

(** [x or ""] and [if x] on a text that may be [None]. *)
Definition or_empty (x : option string) : string :=
  match x with Some s => s | None => "" end.

Definition text_truthy (x : option string) : bool :=
  negb (String.eqb (or_empty x) "").

(** *** [upsert_snapshot] *)

(** The row of the INSERT branch. *)
Definition first_snapshot (r : row) (estado_txt estado_desc codigo mensaje : option string)
    (ahora : Z) : srow :=
  SRow (RUC_Emisor r) (RUC_Receptor r) (TipoDocumento r) (Serie r) (Numero r)
       (ImporteTotal r)
       estado_txt estado_desc codigo mensaje
       (Some ahora) (Some ahora) (Some ahora)
       (Some (if text_truthy estado_txt then 1 else 0)%Z).

(** [cambio] of line 294. *)
Definition cambio (prev : srow) (estado_txt estado_desc : option string) : bool :=
  negb (String.eqb (or_empty (Estado_Actual prev)) (or_empty estado_txt))
  || negb (String.eqb (or_empty (Estado_Descripcion prev)) (or_empty estado_desc)).

(** The first UPDATE (the state changed). *)
Definition update_changed (p : srow) (estado_txt estado_desc codigo mensaje : option string)
    (ahora : Z) : srow :=
  SRow (s_RUC_Emisor p) (s_RUC_Receptor p) (s_TipoDocumento p) (s_Serie p)
       (s_Numero p) (s_ImporteTotal p)
       estado_txt estado_desc codigo mensaje
       (Fecha_Primera_Consulta p) (Some ahora) (Some ahora) (Some 1%Z).

(** The second UPDATE (same state). *)
Definition update_same (p : srow) (codigo mensaje : option string) (ahora : Z) : srow :=
  SRow (s_RUC_Emisor p) (s_RUC_Receptor p) (s_TipoDocumento p) (s_Serie p)
       (s_Numero p) (s_ImporteTotal p)
       (Estado_Actual p) (Estado_Descripcion p) codigo mensaje
       (Fecha_Primera_Consulta p) (Some ahora) (Fecha_Ultimo_Cambio p) (Some 0%Z).

(** The three statements on the table, [ahora] being the clock reading of
    line 277. *)
Definition upsert (snap : gmap Z srow) (r : row)
    (estado_txt estado_desc codigo mensaje : option string) (ahora : Z) : gmap Z srow :=
  match snap !! IdFactura r with
  | None =>
      <[IdFactura r := first_snapshot r estado_txt estado_desc codigo mensaje ahora]> snap
  | Some prev =>
      if cambio prev estado_txt estado_desc
      then <[IdFactura r := update_changed prev estado_txt estado_desc codigo mensaje ahora]> snap
      else <[IdFactura r := update_same prev codigo mensaje ahora]> snap
  end.

Definition upsert_snapshot (d : db) (r : row) (estado_txt estado_desc codigo : option string)
    (mensaje : json) (ahora : Z) (f : fault) : res db :=
  _ ← guard f;
  m ← sql_text mensaje;
  Ret (set_snapshot d (upsert (snapshot d) r estado_txt estado_desc codigo m ahora)).

(** The stored pair and the new pair, with null read as the empty text. *)
Definition same_state (prev : srow) (estado_txt estado_desc : option string) : Prop :=
  or_empty (Estado_Actual prev) = or_empty estado_txt /\
  or_empty (Estado_Descripcion prev) = or_empty estado_desc.

Lemma cambio_spec (prev : srow) (estado_txt estado_desc : option string) :
  cambio prev estado_txt estado_desc = false <-> same_state prev estado_txt estado_desc.
Proof.
  unfold cambio, same_state.
  destruct (String.eqb_spec (or_empty (Estado_Actual prev)) (or_empty estado_txt));
    destruct (String.eqb_spec (or_empty (Estado_Descripcion prev)) (or_empty estado_desc));
    cbn; intuition congruence.
Qed.

(** C2.  A reconciliation of an invoice that has a snapshot row, when its
    statements go through: if the pair (status text, status description)
    differs from the stored pair (texts compared exactly, null read as the
    empty text) the row takes the new status fields, code and message,
    last-query and last-change become [ahora] and the change flag 1; if the
    pair is the same only code, message and last-query are written and the
    flag becomes 0.  So the flag is 1 exactly when the pair differs.  The
    first-query instant, the identity columns and every other row stay. *)
Theorem upsert_snapshot_change (d : db) (r : row) (prev : srow)
    (estado_txt estado_desc codigo m : option string) (mensaje : json) (ahora : Z) :
  snapshot d !! IdFactura r = Some prev ->
  sql_text mensaje = Ret m ->
  exists d' now_,
    upsert_snapshot d r estado_txt estado_desc codigo mensaje ahora None = Ret d' /\
    snapshot d' !! IdFactura r = Some now_ /\
    (~ same_state prev estado_txt estado_desc ->
       now_ = update_changed prev estado_txt estado_desc codigo m ahora /\
       Cambio_Estado now_ = Some 1%Z /\
       Fecha_Ultima_Consulta now_ = Some ahora /\
       Fecha_Ultimo_Cambio now_ = Some ahora /\
       Estado_Actual now_ = estado_txt /\ Estado_Descripcion now_ = estado_desc /\
       s_Codigo_Respuesta now_ = codigo /\ s_Mensaje now_ = m) /\
    (same_state prev estado_txt estado_desc ->
       now_ = update_same prev codigo m ahora /\
       Cambio_Estado now_ = Some 0%Z /\
       Fecha_Ultima_Consulta now_ = Some ahora /\
       Fecha_Ultimo_Cambio now_ = Fecha_Ultimo_Cambio prev /\
       Estado_Actual now_ = Estado_Actual prev /\
       Estado_Descripcion now_ = Estado_Descripcion prev /\
       s_Codigo_Respuesta now_ = codigo /\ s_Mensaje now_ = m) /\
    (Cambio_Estado now_ = Some 1%Z <-> ~ same_state prev estado_txt estado_desc) /\
    Fecha_Primera_Consulta now_ = Fecha_Primera_Consulta prev /\
    (forall k, k <> IdFactura r -> snapshot d' !! k = snapshot d !! k) /\
    queue d' = queue d /\ hist d' = hist d /\ final d' = final d.
Proof.
  intros Hprev Hm. unfold upsert_snapshot. cbn. rewrite Hm. cbn.
  unfold upsert. rewrite Hprev.
  pose proof (cambio_spec prev estado_txt estado_desc) as Hc.
  destruct (cambio prev estado_txt estado_desc) eqn:E.
  - eexists _, _. split; [reflexivity|]. cbn. rewrite lookup_insert_eq.
    split; [reflexivity|].
    assert (~ same_state prev estado_txt estado_desc) as Hne
      by (intros H; apply Hc in H; discriminate).
    assert (forall k, k <> IdFactura r ->
              <[IdFactura r:=update_changed prev estado_txt estado_desc codigo m ahora]>
                (snapshot d) !! k = snapshot d !! k) as Hother
      by (intros k Hk; now rewrite lookup_insert_ne).
    cbn. intuition congruence.
  - eexists _, _. split; [reflexivity|]. cbn. rewrite lookup_insert_eq.
    split; [reflexivity|].
    assert (same_state prev estado_txt estado_desc) as Heq by now apply Hc.
    assert (forall k, k <> IdFactura r ->
              <[IdFactura r:=update_same prev codigo m ahora]> (snapshot d) !! k
              = snapshot d !! k) as Hother
      by (intros k Hk; now rewrite lookup_insert_ne).
    cbn. intuition congruence.
Qed.

(** A reconciliation, as [process_batch] asks for one. *)
Record reconciliation := Reconciliation {
  rc_row : row;
  rc_estado_txt : option string;
  rc_estado_desc : option string;
  rc_codigo : option string;
  rc_mensaje : json;
  rc_ahora : Z;
  rc_fault : fault
}.

(** One reconciliation on the tables; one that raises leaves them alone
    (its transaction is rolled back). *)
Definition reconcile (d : db) (x : reconciliation) : db :=
  match upsert_snapshot d (rc_row x) (rc_estado_txt x) (rc_estado_desc x)
          (rc_codigo x) (rc_mensaje x) (rc_ahora x) (rc_fault x) with
  | Ret d' => d'
  | Raise _ => d
  end.

Lemma upsert_keeps_first (snap : gmap Z srow) (r : row)
    (estado_txt estado_desc codigo m : option string) (ahora : Z) (k : Z) (p : srow) :
  snap !! k = Some p ->
  exists p', upsert snap r estado_txt estado_desc codigo m ahora !! k = Some p' /\
             Fecha_Primera_Consulta p' = Fecha_Primera_Consulta p.
Proof.
  intros Hk. unfold upsert.
  destruct (decide (k = IdFactura r)) as [->|Hne].
  - rewrite Hk. destruct (cambio p estado_txt estado_desc);
      rewrite lookup_insert_eq; eauto.
  - destruct (snap !! IdFactura r) as [prev|];
      [destruct (cambio prev estado_txt estado_desc)|];
      rewrite lookup_insert_ne by congruence; eauto.
Qed.

Lemma reconcile_keeps_first (d : db) (x : reconciliation) (k : Z) (p : srow) :
  snapshot d !! k = Some p ->
  exists p', snapshot (reconcile d x) !! k = Some p' /\
             Fecha_Primera_Consulta p' = Fecha_Primera_Consulta p.
Proof.
  intros Hk. unfold reconcile, upsert_snapshot.
  destruct (rc_fault x); cbn; [eauto|].
  destruct (sql_text (rc_mensaje x)); cbn; [|eauto].
  now apply upsert_keeps_first.
Qed.

(** C3.  The reconciliation that finds no row for the invoice inserts one
    whose first-query instant is its own [ahora]; after any further
    reconciliations, of this invoice or of others, succeeding or not, the
    row is there with that same first-query instant. *)
Theorem first_query_written_once (d : db) (x : reconciliation) (m : option string)
    (later : list reconciliation) :
  snapshot d !! IdFactura (rc_row x) = None ->
  rc_fault x = None -> sql_text (rc_mensaje x) = Ret m ->
  (exists p, snapshot (reconcile d x) !! IdFactura (rc_row x) = Some p /\
             Fecha_Primera_Consulta p = Some (rc_ahora x)) /\
  (exists p, snapshot (foldl reconcile (reconcile d x) later) !! IdFactura (rc_row x)
             = Some p /\
             Fecha_Primera_Consulta p = Some (rc_ahora x)).
Proof.
  intros Hnone Hf Hm.
  assert (H0 : exists p, snapshot (reconcile d x) !! IdFactura (rc_row x) = Some p /\
                         Fecha_Primera_Consulta p = Some (rc_ahora x)).
  { unfold reconcile, upsert_snapshot. rewrite Hf, Hm. cbn.
    unfold upsert. rewrite Hnone, lookup_insert_eq. eauto. }
  split; [exact H0|].
  revert H0. generalize (reconcile d x) as d1.
  induction later as [|y later IH]; intros d1 H0; cbn; [exact H0|].
  apply IH. destruct H0 as (p & Hp & Hfirst).
  destruct (reconcile_keeps_first d1 y _ p Hp) as (p' & Hp' & Heq).
  exists p'. split; [exact Hp'|congruence].
Qed.

(** *** Reconciling the same answer again *)

(** X11.  Reconciling the same status twice.  Whatever the table held
    before, once an invoice has been reconciled with a status pair, a second
    reconciliation with the same pair is not a change: the flag becomes 0,
    the last-change and first-query instants and the status fields stay,
    and only code, message and last-query are written. *)
Theorem upsert_same_answer_twice (snap : gmap Z srow) (r : row)
    (txt desc c1 m1 c2 m2 : option string) (t1 t2 : Z) :
  exists p1 p2,
    upsert snap r txt desc c1 m1 t1 !! IdFactura r = Some p1 /\
    upsert (upsert snap r txt desc c1 m1 t1) r txt desc c2 m2 t2 !! IdFactura r = Some p2 /\
    p2 = update_same p1 c2 m2 t2 /\
    Cambio_Estado p2 = Some 0%Z /\
    Fecha_Ultimo_Cambio p2 = Fecha_Ultimo_Cambio p1 /\
    Fecha_Primera_Consulta p2 = Fecha_Primera_Consulta p1 /\
    Fecha_Ultima_Consulta p2 = Some t2 /\
    Estado_Actual p2 = Estado_Actual p1 /\ Estado_Descripcion p2 = Estado_Descripcion p1 /\
    s_Codigo_Respuesta p2 = c2 /\ s_Mensaje p2 = m2.
Proof.
  assert (Hstep : forall p1, upsert snap r txt desc c1 m1 t1 !! IdFactura r = Some p1 ->
            cambio p1 txt desc = false ->
            exists p2, upsert (upsert snap r txt desc c1 m1 t1) r txt desc c2 m2 t2
                       !! IdFactura r = Some p2 /\ p2 = update_same p1 c2 m2 t2).
  { intros p1 Hp1 Hc. unfold upsert at 1. rewrite Hp1, Hc, lookup_insert_eq. eauto. }
  assert (Hrefl : forall a b, cambio (first_snapshot r a b c1 m1 t1) a b = false).
  { intros a b. unfold cambio. cbn. now rewrite !String.eqb_refl. }
  assert (exists p1, upsert snap r txt desc c1 m1 t1 !! IdFactura r = Some p1 /\
                     cambio p1 txt desc = false) as (p1 & Hp1 & Hc).
  { unfold upsert. destruct (snap !! IdFactura r) as [prev|].
    - destruct (cambio prev txt desc) eqn:E; rewrite lookup_insert_eq; eexists;
        (split; [reflexivity|]).
      + unfold cambio. cbn. now rewrite !String.eqb_refl.
      + exact E.
    - rewrite lookup_insert_eq. eexists. split; [reflexivity|apply Hrefl]. }
  destruct (Hstep p1 Hp1 Hc) as (p2 & Hp2 & ->).
  exists p1, (update_same p1 c2 m2 t2). repeat split; assumption.
Qed.

(** *** [update_final_from_snapshot] *)

(** SQL truth values: [None] is UNKNOWN. *)
Definition sql_and (a b : option bool) : option bool :=
  match a, b with
  | Some false, _ | _, Some false => Some false
  | Some true, Some true => Some true
  | _, _ => None
  end.

Definition sql_or (a b : option bool) : option bool :=
  match a, b with
  | Some true, _ | _, Some true => Some true
  | Some false, Some false => Some false
  | _, _ => None
  end.

(** [a <> b] and [a = b] on nullable integers and instants. *)
Definition sql_ne (a b : option Z) : option bool :=
  match a, b with
  | Some x, Some y => Some (negb (x =? y)%Z)
  | _, _ => None
  end.

Definition sql_eq (a b : option Z) : option bool :=
  match a, b with
  | Some x, Some y => Some (x =? y)%Z
  | _, _ => None
  end.

Definition is_null {A} (a : option A) : option bool :=
  Some (match a with None => true | Some _ => false end).

Definition is_not_null {A} (a : option A) : option bool :=
  Some (match a with None => false | Some _ => true end).

(** [ISNULL(a,'') <> ISNULL(b,'')], texts compared character by character. *)
Definition text_ne (a b : option string) : option bool :=
  Some (negb (String.eqb (or_empty a) (or_empty b))).

Definition isnull (d : Z) (a : option Z) : option Z :=
  Some (match a with Some x => x | None => d end).

(** A date column of the final row against the snapshot's: lines 343-345
    and 346-348. *)
Definition date_differs (fd sd : option Z) : option bool :=
  sql_or (sql_and (is_null fd) (is_not_null sd))
    (sql_or (sql_and (is_not_null fd) (is_null sd))
       (sql_and (is_not_null fd) (sql_and (is_not_null sd) (sql_ne fd sd)))).

(** The WHERE clause of the diagnostic SELECT (lines 338-349). *)
Definition differs (d : frow) (s : srow) : option bool :=
  sql_or (text_ne (Estado_SUNAT_ULT d) (Estado_Actual s))
 (sql_or (text_ne (Estado_SUNAT_Descripcion d) (Estado_Descripcion s))
 (sql_or (sql_ne (isnull (-1) (SUNAT_Cambio_Estado d)) (isnull 0 (Cambio_Estado s)))
 (sql_or (text_ne (SUNAT_Codigo_Respuesta d) (s_Codigo_Respuesta s))
 (sql_or (text_ne (SUNAT_Mensaje d) (s_Mensaje s))
 (sql_or (date_differs (SUNAT_Fecha_Primera d) (Fecha_Primera_Consulta s))
 (sql_or (date_differs (SUNAT_Fecha_Ultima d) (Fecha_Ultima_Consulta s))
         (sql_and (sql_eq (Cambio_Estado s) (Some 1%Z))
            (sql_or (is_null (SUNAT_Fecha_Cambio d))
               (sql_ne (SUNAT_Fecha_Cambio d) (Fecha_Ultimo_Cambio s)))))))))).

(** A row is selected when the clause is TRUE. *)
Definition selected (b : option bool) : bool :=
  match b with Some true => true | _ => false end.

(** The SET list of the UPDATE (lines 376-386). *)
Definition mirror (d : frow) (s : srow) : frow :=
  let changed := selected (sql_eq (Cambio_Estado s) (Some 1%Z)) in
  FRow (f_otros d)
       (Estado_Actual s) (Estado_Descripcion s) (s_Codigo_Respuesta s) (s_Mensaje s)
       (Some (if changed then 1 else 0)%Z)
       (match SUNAT_Fecha_Primera d with
        | Some t => Some t
        | None => Fecha_Primera_Consulta s
        end)
       (Fecha_Ultima_Consulta s)
       (if changed then Fecha_Ultimo_Cambio s else SUNAT_Fecha_Cambio d).

(** [FROM final d JOIN SRC s ON s.IdFactura = d.IdFactura] *)
Definition joined (fin : gmap Z frow) (snap : gmap Z srow) : list (Z * frow * srow) :=
  omap (fun kd => s ← snap !! kd.1; Some (kd, s)) (map_to_list fin).

(** The diagnostic SELECT COUNT. *)
Definition to_fix (fin : gmap Z frow) (snap : gmap Z srow) : nat :=
  length (List.filter (fun x => selected (differs x.1.2 x.2)) (joined fin snap)).

(** The UPDATE: it has no WHERE clause, every joined row is written and
    its key goes to [#upd]. *)
Definition update_final (fin : gmap Z frow) (snap : gmap Z srow) : gmap Z frow :=
  map_imap (fun k d => Some (match snap !! k with
                             | Some s => mirror d s
                             | None => d
                             end)) fin.

(** [SELECT COUNT( * ) FROM #upd] *)
Definition upd_count (fin : gmap Z frow) (snap : gmap Z srow) : nat :=
  length (joined fin snap).

Lemma mirror_idem (d : frow) (s : srow) : mirror (mirror d s) s = mirror d s.
Proof.
  unfold mirror. cbn.
  destruct (selected (sql_eq (Cambio_Estado s) (Some 1%Z)));
    destruct (SUNAT_Fecha_Primera d); try reflexivity;
    destruct (Fecha_Primera_Consulta s); reflexivity.
Qed.

Lemma update_final_lookup (fin : gmap Z frow) (snap : gmap Z srow) (k : Z) :
  update_final fin snap !! k
  = (fun d => match snap !! k with Some s => mirror d s | None => d end) <$> fin !! k.
Proof.
  unfold update_final. rewrite map_lookup_imap. now destruct (fin !! k).
Qed.

(** Running the UPDATE again changes nothing. *)
Lemma update_final_idem (fin : gmap Z frow) (snap : gmap Z srow) :
  update_final (update_final fin snap) snap = update_final fin snap.
Proof.
  apply map_eq. intros k. rewrite !update_final_lookup.
  destruct (fin !! k) as [d|]; [|reflexivity]. cbn.
  destruct (snap !! k); [|reflexivity]. now rewrite mirror_idem.
Qed.

Lemma joined_insert (fin : gmap Z frow) (snap : gmap Z srow) (k : Z) (d : frow) :
  fin !! k = None ->
  length (joined (<[k:=d]> fin) snap)
  = (match snap !! k with Some _ => 1 | None => 0 end) + length (joined fin snap).
Proof.
  intros Hk. unfold joined.
  rewrite (Permutation_length
             (omap_Permutation _ _ _ (map_to_list_insert fin k d Hk))).
  cbn. now destruct (snap !! k).
Qed.

(** The UPDATE writes the same rows each time: one per final row that has
    a snapshot row. *)
Lemma upd_count_update_final (fin : gmap Z frow) (snap : gmap Z srow) :
  upd_count (update_final fin snap) snap = upd_count fin snap.
Proof.
  unfold upd_count.
  induction fin as [|k d fin Hk _ IH] using map_first_key_ind.
  - unfold update_final. now rewrite map_imap_empty.
  - unfold update_final in *.
    erewrite map_imap_insert_Some by reflexivity.
    rewrite !joined_insert; [now rewrite IH| exact Hk |].
    rewrite map_lookup_imap, Hk. reflexivity.
Qed.

(** *** The final table after a sync *)

(** A snapshot row as [upsert_snapshot] writes it: the change flag is 0 or
    1 (or null), and with the flag 1 the last-change instant is set. *)
Definition snapshot_ok (s : srow) : Prop :=
  match Cambio_Estado s with
  | Some 1%Z => is_Some (Fecha_Ultimo_Cambio s)
  | Some 0%Z | None => True
  | _ => False
  end.

(** The final row has no first-query instant yet, or the snapshot's. *)
Definition first_agrees (d : frow) (s : srow) : Prop :=
  SUNAT_Fecha_Primera d = None \/ SUNAT_Fecha_Primera d = Fecha_Primera_Consulta s.

Lemma text_ne_refl (a : option string) : text_ne a a = Some false.
Proof. unfold text_ne. now rewrite String.eqb_refl. Qed.

Lemma date_differs_refl (a : option Z) : date_differs a a = Some false.
Proof. destruct a as [t|]; cbn; [|reflexivity]. now rewrite Z.eqb_refl. Qed.

Lemma differs_mirror (d : frow) (s : srow) :
  snapshot_ok s -> first_agrees d s -> selected (differs (mirror d s) s) = false.
Proof.
  unfold snapshot_ok, first_agrees, differs, mirror.
  cbn -[text_ne date_differs sql_ne sql_eq sql_or sql_and isnull is_null selected].
  rewrite !text_ne_refl, date_differs_refl. intros Hok Hfirst.
  assert (Hd : date_differs
                 match SUNAT_Fecha_Primera d with
                 | Some t => Some t
                 | None => Fecha_Primera_Consulta s
                 end (Fecha_Primera_Consulta s) = Some false).
  { destruct Hfirst as [-> | ->]; [apply date_differs_refl|].
    destruct (Fecha_Primera_Consulta s); apply date_differs_refl. }
  rewrite Hd.
  destruct (Cambio_Estado s) as [[|[p|p|]|p]|]; try contradiction; try reflexivity.
  - destruct Hok as [t Ht]. rewrite Ht. cbn. now rewrite Z.eqb_refl.
  - cbn. destruct (SUNAT_Fecha_Cambio d) as [a|], (Fecha_Ultimo_Cambio s) as [b|];
      cbn; try reflexivity. now destruct (a =? b)%Z.
Qed.

Lemma differs_mirror_conflict (d : frow) (s : srow) (t : Z) :
  SUNAT_Fecha_Primera d = Some t -> Fecha_Primera_Consulta s <> Some t ->
  selected (differs (mirror d s) s) = true.
Proof.
  intros Hd Hs. unfold differs, mirror.
  cbn -[text_ne date_differs sql_ne sql_eq sql_or sql_and isnull is_null selected].
  rewrite Hd.
  assert (date_differs (Some t) (Fecha_Primera_Consulta s) = Some true) as ->.
  { destruct (Fecha_Primera_Consulta s) as [t'|]; cbn; [|reflexivity].
    destruct (Z.eqb_spec t t'); [congruence|reflexivity]. }
  rewrite !text_ne_refl.
  destruct (sql_ne _ _) as [[|]|]; reflexivity.
Qed.

Lemma joined_elem (fin : gmap Z frow) (snap : gmap Z srow) (k : Z) (d : frow) (s : srow) :
  (k, d, s) ∈ joined fin snap <-> fin !! k = Some d /\ snap !! k = Some s.
Proof.
  unfold joined. rewrite list_elem_of_omap. split.
  - intros ([k' d'] & Hin & Heq). apply elem_of_map_to_list in Hin. cbn in Heq.
    destruct (snap !! k') as [s'|] eqn:E; [|discriminate].
    cbn in Heq. injection Heq as -> -> ->. auto.
  - intros [Hd Hs]. exists (k, d). split; [now apply elem_of_map_to_list|].
    cbn. now rewrite Hs.
Qed.

Lemma filter_none {A} (f : A -> bool) (l : list A) :
  (forall x, x ∈ l -> f x = false) -> List.filter f l = [].
Proof.
  induction l as [|x l IH]; intros H; cbn; [reflexivity|].
  rewrite (H x) by left. apply IH. intros y Hy. apply H. now right.
Qed.

Lemma filter_some {A} (f : A -> bool) (l : list A) (x : A) :
  x ∈ l -> f x = true -> 0 < length (List.filter f l).
Proof.
  induction l as [|y l IH]; intros Hin Hx; [inversion Hin|].
  cbn. apply elem_of_cons in Hin as [<-|Hin].
  - rewrite Hx. cbn. lia.
  - destruct (f y); cbn; [lia|]. now apply IH.
Qed.

(** X12.  The diagnostic count after a sync.  When every snapshot row is
    as the worker writes it and no final row holds a first-query instant
    other than its snapshot's, a sync leaves nothing to fix: the diagnostic
    SELECT of the next call counts 0.  But a final row whose first-query
    instant is set to something else than the snapshot's is never brought
    in line (the UPDATE keeps it, by COALESCE): it is counted as a
    difference after the sync, and again after every further sync. *)
Theorem to_fix_after_sync (fin : gmap Z frow) (snap : gmap Z srow) :
  ((forall k d s, fin !! k = Some d -> snap !! k = Some s ->
      snapshot_ok s /\ first_agrees d s) ->
   to_fix (update_final fin snap) snap = 0) /\
  (forall k d s t, fin !! k = Some d -> snap !! k = Some s ->
     SUNAT_Fecha_Primera d = Some t -> Fecha_Primera_Consulta s <> Some t ->
     0 < to_fix (update_final fin snap) snap /\
     0 < to_fix (update_final (update_final fin snap) snap) snap).
Proof.
  split.
  - intros Hall. unfold to_fix. rewrite filter_none; [reflexivity|].
    intros [[k d'] s] Hin. apply joined_elem in Hin as [Hd Hs].
    rewrite update_final_lookup, Hs in Hd.
    destruct (fin !! k) as [d|] eqn:E; [|discriminate].
    cbn in Hd. injection Hd as <-. cbn.
    destruct (Hall k d s E Hs). now apply differs_mirror.
  - intros k d s t Hd Hs Ht Hne.
    rewrite update_final_idem. split; unfold to_fix;
      apply (filter_some _ _ (k, mirror d s, s));
      try (cbn; now apply (differs_mirror_conflict d s t));
      apply joined_elem; rewrite update_final_lookup, Hd, Hs; auto.
Qed.

(** X13.  Across any number of syncs, whatever the snapshot table holds at
    each of them: the final table keeps its rows (none added, none
    removed), the columns of a row that are not SUNAT_* columns keep their
    values, a first-query instant that is set is never overwritten, and a
    row whose invoice never has a snapshot row is not touched at all. *)
Theorem final_sync_preserves (fin : gmap Z frow) (snaps : list (gmap Z srow)) (k : Z) :
  (fin !! k = None -> foldl update_final fin snaps !! k = None) /\
  (forall d, fin !! k = Some d ->
     exists d', foldl update_final fin snaps !! k = Some d' /\
       f_otros d' = f_otros d /\
       (forall t, SUNAT_Fecha_Primera d = Some t -> SUNAT_Fecha_Primera d' = Some t) /\
       (Forall (fun snap => snap !! k = None) snaps -> d' = d)).
Proof.
  revert fin. induction snaps as [|snap snaps IH]; intros fin; cbn.
  - split; [auto|]. intros d Hd. exists d. auto.
  - destruct (IH (update_final fin snap)) as [IHn IHs]. split.
    + intros Hk. apply IHn. now rewrite update_final_lookup, Hk.
    + intros d Hd.
      destruct (IHs (match snap !! k with Some s => mirror d s | None => d end))
        as (d' & Hd' & Ho & Ht & Hsame).
      { now rewrite update_final_lookup, Hd. }
      exists d'. split; [exact Hd'|]. split; [|split].
      * rewrite Ho. now destruct (snap !! k).
      * intros t Hf. apply Ht. destruct (snap !! k); [|exact Hf].
        cbn. now rewrite Hf.
      * intros Hall. inversion Hall as [|? ? Hk Hrest]; subst.
        rewrite Hk in Hsame. now apply Hsame.
Qed.

Lemma or_empty_inj (a b : option string) :
  a <> Some "" -> b <> Some "" -> or_empty a = or_empty b -> a = b.
Proof. destruct a, b; cbn; intros Ha Hb H; congruence. Qed.

(** X21.  The snapshot holds the mapping of the last answer.  When the
    status columns of an invoice's snapshot row are not empty texts (they
    are null or a text, as the worker writes them), after reconciling the
    invoice with the triple [map_estado] gives for a payload, whichever of
    the three statements ran, the row holds exactly that triple: status
    text, description and code; also where the pair compared equal and the
    status columns were not written.  The row again has no empty status
    text, so this holds along any sequence of reconciliations, and it is a
    row the final sync brings fully in line. *)
Theorem snapshot_holds_last_mapping (py_repr : json -> string) (snap : gmap Z srow)
    (r : row) (js : json) (m : option string) (ahora : Z) :
  (forall prev, snap !! IdFactura r = Some prev ->
     Estado_Actual prev <> Some "" /\ Estado_Descripcion prev <> Some "") ->
  exists p,
    upsert snap r (Estado.map_estado py_repr js).1.1 (Estado.map_estado py_repr js).1.2
      (Estado.map_estado py_repr js).2 m ahora !! IdFactura r = Some p /\
    (Estado_Actual p, Estado_Descripcion p, s_Codigo_Respuesta p)
    = Estado.map_estado py_repr js /\
    s_Mensaje p = m /\ Fecha_Ultima_Consulta p = Some ahora /\
    Estado_Actual p <> Some "" /\ Estado_Descripcion p <> Some "" /\
    snapshot_ok p.
Proof.
  intros Hprev.
  destruct (Estado.map_estado_no_empty_text py_repr js) as [Ht Hd].
  destruct (Estado.map_estado py_repr js) as [[t d] cd]. cbn [fst snd] in *.
  unfold upsert. destruct (snap !! IdFactura r) as [prev|] eqn:E.
  - destruct (Hprev prev eq_refl) as [Hpt Hpd].
    destruct (cambio prev t d) eqn:Ec; rewrite lookup_insert_eq; eexists;
      (split; [reflexivity|]); cbn.
    + repeat split; try assumption. unfold snapshot_ok. cbn. eauto.
    + apply cambio_spec in Ec as [E1 E2].
      apply or_empty_inj in E1; [|assumption..].
      apply or_empty_inj in E2; [|assumption..].
      rewrite E1, E2. repeat split; assumption.
  - rewrite lookup_insert_eq. eexists. split; [reflexivity|]. cbn.
    repeat split; try assumption. unfold snapshot_ok. cbn.
    destruct (text_truthy t); cbn; eauto.
Qed.

(** *** The worker *)

(** What [mark_error] is handed: a payload or an exception. *)
Inductive err_value :=
| ErrJson (js : json)
| ErrExc (e : exn).

(** Injected failures of the statements run for one item: in the [try]
    (history insert, snapshot upsert, status update, commit) and in the
    [except] handler (rollback, status update, commit). *)
Record item_faults := ItemFaults {
  hist_fails : fault;
  snapshot_fails : fault;
  mark_fails : fault;
  commit_fails : fault;
  rollback_fails : fault;
  mark_error_fails : fault;
  commit_error_fails : fault
}.

Definition no_faults : item_faults :=
  ItemFaults None None None None None None None.

(** Everything outside the process during one cycle. *)
Record cycle := Cycle {
  (** the token service and the clock [get_token] reads *)
  token_post : Token.combo -> Http.reply;
  token_clock : nat -> Z;
  (** the validation service, per queue row *)
  net : Z -> Http.headers -> Body.body -> nat -> Http.reply;
  (** when the call for a queue row completes ([as_completed] yields the
      futures in this order) *)
  finished_at : Z -> Z;
  (** the clock [upsert_snapshot] reads for a queue row *)
  ahora_of : Z -> Z;
  fetch_fails : fault;
  item_fails : Z -> item_faults;
  final_fails : fault;
  final_commit_fails : fault
}.

(** What a run of [process_batch] leaves: the tuple it returns or the
    exception that leaves it, the connection, the token globals, and what
    [update_final_from_snapshot] logged ([to_fix], [affected]) when it
    ran to its end. *)
Record batch_out := BatchOut {
  pb_result : res (nat * nat * nat);
  pb_cnx : cnx;
  pb_token : Token.token_state;
  pb_final_log : option (nat * nat)
}.

Section Worker.

(** Library functions and configuration the worker is linked with. *)
Variable py_repr : json -> string.
Variable json_dumps : json -> string.
Variable strftime_dmy : date -> string.
Variable strptime_ymd : string -> res date.
Variable JSONDecodeError : exn.
Variables CLIENT_ID CLIENT_SECRET : option string.
Variables WORKER_BATCH RETRY_MAX : Z.

(** Whether the cursor stands on the result set of the final SELECT after
    the batch of line 355 ([cur.description]). *)
Variable has_description : bool.

Definition mark_error (d : db) (idq : Z) (err : err_value) (f : fault) : res db :=
  let text :=
    match err with
    | ErrJson (JObj kv) => take_str 3900 (json_dumps (JObj kv))
    | ErrJson js => Estado.py_str py_repr js
    | ErrExc e => exn_str e
    end in
  _ ← guard f;
  Ret (set_queue d (alter (set_status "error" (Some (take_str 3900 text))) idq (queue d))).

(** [js.get("message") or js.get("mensaje") or js.get("observacion")] *)
Definition mensaje_of (js : json) : res json :=
  a ← py_get js "message" JNull;
  if truthy a then Ret a
  else b ← py_get js "mensaje" JNull;
       if truthy b then Ret b
       else py_get js "observacion" JNull.

Definition insert_hist (d : db) (r : row) (token_expira_utc : Z) (js : json) (f : fault)
  : res (db * (option string * option string * option string * json)) :=
  let '(estado_txt, estado_desc, estado_cp) := Estado.map_estado py_repr js in
  let codigo_respuesta := estado_cp in
  mensaje ← mensaje_of js;
  _ ← guard f;
  m ← sql_text mensaje;
  let h := HRow (IdFactura r) (RUC_Emisor r) (RUC_Receptor r) (TipoDocumento r)
                (Serie r) (Numero r) (FechaEmision r) (ImporteTotal r)
                estado_txt codigo_respuesta m token_expira_utc (json_dumps js) in
  Ret (set_hist d (hist d ++ [h])%list, (estado_txt, estado_desc, codigo_respuesta, mensaje)).

(** The body of the [try] of lines 424-428 for one completed future. *)
Definition settle (c : cnx) (token_exp : Z) (r : row) (fut : res (bool * json))
    (ahora : Z) (f : item_faults) : res (cnx * bool) :=
  '(ok, js) ← fut;
  '(d1, (estado_txt, estado_desc, codigo_respuesta, mensaje)) ←
     insert_hist (work c) r token_exp js (hist_fails f);
  d2 ← upsert_snapshot d1 r estado_txt estado_desc codigo_respuesta mensaje ahora
         (snapshot_fails f);
  d3 ← (if ok : bool then mark_done d2 (IdQueue r) (mark_fails f)
        else mark_error d2 (IdQueue r) (ErrJson js) (mark_fails f));
  c' ← commit (set_work c d3) (commit_fails f);
  Ret (c', ok).

(** The [except Exception] handler of lines 432-434. *)
Definition recover (c : cnx) (idq : Z) (e : exn) (f : item_faults) : res cnx :=
  c1 ← rollback c (rollback_fails f);
  d ← mark_error (work c1) idq (ErrExc e) (mark_error_fails f);
  commit (set_work c1 d) (commit_error_fails f).

(** One turn of the loop over [as_completed]: the connection and the
    counters [(ok_cnt, err_cnt)] afterwards, or the exception that leaves
    the loop when the handler itself fails. *)
Definition process_item (c : cnx) (token_exp : Z) (r : row) (fut : res (bool * json))
    (ahora : Z) (f : item_faults) (cnt : nat * nat) : res (cnx * (nat * nat)) :=
  match settle c token_exp r fut ahora f with
  | Ret (c', ok) =>
      Ret (c', (cnt.1 + (if ok then 1 else 0), cnt.2 + (if ok then 0 else 1)))
  | Raise e =>
      c' ← recover c (IdQueue r) e f;
      Ret (c', (cnt.1, cnt.2 + 1))
  end.

(** [update_final_from_snapshot] *)
Definition update_final_from_snapshot (c : cnx) (f fc : fault)
  : res (nat * nat) * cnx :=
  match guard f with
  | Raise e => (Raise e, c)
  | Ret _ =>
      let d := work c in
      let fix_ := to_fix (final d) (snapshot d) in
      let affected := if has_description then upd_count (final d) (snapshot d) else 0 in
      let c1 := set_work c (set_final d (update_final (final d) (snapshot d))) in
      match commit c1 fc with
      | Raise e => (Raise e, c1)
      | Ret c2 => (Ret (fix_, affected), c2)
      end
  end.

(** C1 as the code has it.  Two calls in a row, with no change of the
    snapshot in between and no statement failing: both run to their end;
    the second leaves the final table exactly as the first left it; every
    final row that has a snapshot row is written on each call (the UPDATE
    carries no difference filter), a row without one stays as it was; and
    the affected count is the same on both calls: the number of final rows
    that have a snapshot row when the cursor stands on the result set of
    the last SELECT, and 0 when it does not. *)
Theorem final_sync_twice (c : cnx) :
  let n := if has_description
           then upd_count (final (work c)) (snapshot (work c)) else 0 in
  exists fix1 fix2 c1 c2,
    update_final_from_snapshot c None None = (Ret (fix1, n), c1) /\
    update_final_from_snapshot c1 None None = (Ret (fix2, n), c2) /\
    work c2 = work c1 /\ committed c1 = work c1 /\ committed c2 = work c2 /\
    snapshot (work c1) = snapshot (work c) /\
    queue (work c1) = queue (work c) /\ hist (work c1) = hist (work c) /\
    (forall k, final (work c1) !! k
               = (fun d => match snapshot (work c) !! k with
                           | Some s => mirror d s
                           | None => d
                           end) <$> final (work c) !! k).
Proof.
  unfold update_final_from_snapshot. cbn.
  eexists _, _, _, _. split; [reflexivity|]. cbn.
  rewrite update_final_idem, upd_count_update_final.
  split; [reflexivity|]. cbn.
  repeat split; try reflexivity. intros k. apply update_final_lookup.
Qed.

(** The dict comprehension of line 419: the body of each row is built and
    its call submitted, in the order of [rows]; the future of a row holds
    what [call_sunat] returns or raises. *)
Definition submit_all (cy : cycle) (h : Http.headers) (rows : list row)
  : res (list (row * res (bool * json))) :=
  mapM (fun r =>
          b ← Body.to_body_postman strftime_dmy strptime_ymd r;
          Ret (r, Http.result
                    (Http.call_sunat JSONDecodeError RETRY_MAX (net cy (IdQueue r)) h b)))
       rows.

Definition finishes_before (cy : cycle) (a b : row * res (bool * json)) : Prop :=
  (finished_at cy (IdQueue a.1) <= finished_at cy (IdQueue b.1))%Z.

#[global] Instance finishes_before_dec cy a b : Decision (finishes_before cy a b).
Proof. unfold finishes_before. apply _. Defined.

(** [as_completed(futures)] *)
Definition as_completed (cy : cycle) (futs : list (row * res (bool * json)))
  : list (row * res (bool * json)) :=
  merge_sort (finishes_before cy) futs.

(** The [for fut in as_completed(futures)] loop: the counters, or the
    exception that leaves it, and the connection (when an item's handler
    fails, as that item found it: nothing was committed since). *)
Fixpoint settle_all (cy : cycle) (c : cnx) (token_exp : Z)
    (futs : list (row * res (bool * json))) (cnt : nat * nat)
  : res (nat * nat) * cnx :=
  match futs with
  | [] => (Ret cnt, c)
  | (r, fut) :: rest =>
      match process_item c token_exp r fut (ahora_of cy (IdQueue r))
              (item_fails cy (IdQueue r)) cnt with
      | Ret (c', cnt') => settle_all cy c' token_exp rest cnt'
      | Raise e => (Raise e, c)
      end
  end.

(** [{"Authorization": f"Bearer {token}", "Content-Type": "application/json"}] *)
Definition bearer (token : json) : Http.headers :=
  Http.Headers ("Bearer " ++ Estado.py_str py_repr token) "application/json".

(** When an exception leaves [process_batch], [main] closes the connection:
    the tables are left as last committed. *)
Definition closed (c : cnx) : cnx := connect (committed c).

Definition process_batch (cy : cycle) (tk : Token.token_state) (c : cnx) : batch_out :=
  let t := Token.get_token JSONDecodeError CLIENT_ID CLIENT_SECRET
             (token_post cy) (token_clock cy) tk in
  let tk' := Token.tk_state t in
  match Token.tk_result t with
  | Raise e => BatchOut (Raise e) (closed c) tk' None
  | Ret (token, token_exp) =>
      let h := bearer token in
      match fetch_batch c WORKER_BATCH (fetch_fails cy) with
      | Raise e => BatchOut (Raise e) (closed c) tk' None
      | Ret (c1, []) => BatchOut (Ret (0, 0, 0)) c1 tk' None
      | Ret (c1, rows) =>
          match submit_all cy h rows with
          | Raise e => BatchOut (Raise e) (closed c1) tk' None
          | Ret futs =>
              match settle_all cy c1 token_exp (as_completed cy futs) (0, 0) with
              | (Raise e, c2) => BatchOut (Raise e) (closed c2) tk' None
              | (Ret (ok_cnt, err_cnt), c2) =>
                  match update_final_from_snapshot c2 (final_fails cy)
                          (final_commit_fails cy) with
                  | (Ret log, c3) =>
                      BatchOut (Ret (length rows, ok_cnt, err_cnt)) c3 tk' (Some log)
                  | (Raise _, c3) =>
                      BatchOut (Ret (length rows, ok_cnt, err_cnt)) c3 tk' None
                  end
              end
          end
      end
  end.

(** *** What one turn of the loop does to the queue *)

(** The statements of the [try] go through for payload [js]: the message
    can be read and bound, and no statement or commit fails. *)
Definition writes_ok (js : json) (f : item_faults) : bool :=
  match mensaje_of js with
  | Ret m => returns (sql_text m)
  | Raise _ => false
  end
  && bool_decide (hist_fails f = None) && bool_decide (snapshot_fails f = None)
  && bool_decide (mark_fails f = None) && bool_decide (commit_fails f = None).

(** The item ends [done]: its call returned success and its writes were
    committed. *)
Definition settles_done (fut : res (bool * json)) (f : item_faults) : bool :=
  match fut with
  | Ret (true, js) => writes_ok js f
  | _ => false
  end.

Definition final_status (fut : res (bool * json)) (f : item_faults) : string :=
  if settles_done fut f then "done" else "error".

Lemma settle_Ret (c c' : cnx) (token_exp : Z) (r : row) (fut : res (bool * json))
    (ahora : Z) (f : item_faults) (ok : bool) :
  settle c token_exp r fut ahora f = Ret (c', ok) ->
  exists js err,
    fut = Ret (ok, js) /\ writes_ok js f = true /\
    committed c' = work c' /\
    queue (work c')
    = alter (set_status (if ok then "done" else "error") err) (IdQueue r) (queue (work c)).
Proof.
  unfold settle, writes_ok, insert_hist, upsert_snapshot, mark_done, mark_error, commit.
  destruct fut as [[ok' js]|e]; cbn; [|discriminate].
  destruct (Estado.map_estado py_repr js) as [[etxt edesc] ecp].
  destruct (mensaje_of js) as [m|e] eqn:Hmj; cbn; [|discriminate].
  destruct (hist_fails f); cbn; [discriminate|].
  destruct (sql_text m) as [mt|e] eqn:Hm; cbn; [|discriminate].
  destruct (snapshot_fails f); cbn; [discriminate|]. rewrite Hm. cbn.
  destruct ok'; destruct (mark_fails f); cbn; try discriminate;
    destruct (commit_fails f); cbn; try discriminate;
    intros [= <- <-]; eexists _, _;
    (split; [reflexivity|]); (split; [rewrite Hmj, Hm; reflexivity|]);
    split; reflexivity.
Qed.

Lemma settle_Raise (c : cnx) (token_exp : Z) (r : row) (fut : res (bool * json))
    (ahora : Z) (f : item_faults) (e : exn) :
  settle c token_exp r fut ahora f = Raise e -> settles_done fut f = false.
Proof.
  unfold settle, settles_done, writes_ok, insert_hist, upsert_snapshot,
    mark_done, mark_error, commit.
  destruct fut as [[ok js]|e']; cbn; [|reflexivity].
  destruct ok; [|reflexivity].
  destruct (Estado.map_estado py_repr js) as [[etxt edesc] ecp].
  destruct (mensaje_of js) as [m|e']; cbn; [|reflexivity].
  destruct (hist_fails f); cbn; [now rewrite ?andb_false_r|].
  destruct (sql_text m) as [mt|e'] eqn:Hm; cbn; [|reflexivity].
  destruct (snapshot_fails f); cbn; [reflexivity|]. rewrite Hm. cbn.
  destruct (mark_fails f); cbn; [reflexivity|].
  destruct (commit_fails f); cbn; [reflexivity|discriminate].
Qed.

Lemma recover_Ret (c c' : cnx) (idq : Z) (e : exn) (f : item_faults) :
  recover c idq e f = Ret c' ->
  committed c' = work c' /\
  work c' = set_queue (committed c)
              (alter (set_status "error" (Some (take_str 3900 (exn_str e)))) idq
                 (queue (committed c))).
Proof.
  unfold recover, rollback, mark_error, commit.
  destruct (rollback_fails f); cbn; [discriminate|].
  destruct (mark_error_fails f); cbn; [discriminate|].
  destruct (commit_error_fails f); cbn; [discriminate|].
  intros [= <-]. split; reflexivity.
Qed.

(** After a turn that does not leave the loop, nothing is uncommitted, the
    item's row carries its final status, set on the row as the turn or the
    rollback found it, and every other row is as the turn or the rollback
    found it. *)
Lemma process_item_queue (c c' : cnx) (token_exp : Z) (r : row)
    (fut : res (bool * json)) (ahora : Z) (f : item_faults) (cnt cnt' : nat * nat) :
  process_item c token_exp r fut ahora f cnt = Ret (c', cnt') ->
  committed c' = work c' /\
  exists base err,
    (base = queue (work c) \/ base = queue (committed c)) /\
    queue (work c') = alter (set_status (final_status fut f) err) (IdQueue r) base.
Proof.
  unfold process_item, final_status.
  destruct (settle c token_exp r fut ahora f) as [[c1 ok]|e] eqn:Hs.
  - intros [= <- <-].
    destruct (settle_Ret _ _ _ _ _ _ _ _ Hs) as (js & err & -> & Hw & Hc & Hq).
    split; [exact Hc|]. exists (queue (work c)), err. split; [now left|].
    rewrite Hq. unfold settles_done. rewrite Hw. now destruct ok.
  - rewrite (settle_Raise _ _ _ _ _ _ _ Hs).
    destruct (recover c (IdQueue r) e f) as [c1|e'] eqn:Hr; cbn; [|discriminate].
    intros [= <- <-]. destruct (recover_Ret _ _ _ _ _ Hr) as [Hc Hw].
    split; [exact Hc|]. eexists _, _. split; [now right|]. now rewrite Hw.
Qed.

(** X26.  When the [try] of an item fails and the handler goes through, the
    tables are those of the last commit, with the item marked [error] and
    the text of the exception, cut at 3900 characters, as [LastError]:
    everything that was not committed is gone, whichever statement wrote
    it. *)
Lemma failure_rolls_back_to_last_commit (c c' : cnx) (token_exp : Z) (r : row)
    (fut : res (bool * json)) (ahora : Z) (f : item_faults) (cnt cnt' : nat * nat)
    (e : exn) :
  settle c token_exp r fut ahora f = Raise e ->
  process_item c token_exp r fut ahora f cnt = Ret (c', cnt') ->
  cnt' = (cnt.1, cnt.2 + 1)%nat /\
  committed c' = work c' /\
  hist (work c') = hist (committed c) /\
  snapshot (work c') = snapshot (committed c) /\
  final (work c') = final (committed c) /\
  queue (work c')
  = alter (set_status "error" (Some (take_str 3900 (exn_str e)))) (IdQueue r)
      (queue (committed c)).
Proof.
  intros Hs. unfold process_item. rewrite Hs.
  destruct (recover c (IdQueue r) e f) as [c1|e'] eqn:Hr; cbn; [|discriminate].
  intros [= <- <-]. destruct (recover_Ret _ _ _ _ _ Hr) as [Hc Hw].
  split; [reflexivity|]. split; [exact Hc|]. rewrite Hw. repeat split.
Qed.

(** *** The loop *)

Definition ids (futs : list (row * res (bool * json))) : list Z :=
  (fun x => IdQueue x.1) <$> futs.

(** A row that no future of the list is for, and on which the connection
    has nothing uncommitted, is not touched by the loop. *)
Lemma settle_all_frame (cy : cycle) (token_exp : Z)
    (futs : list (row * res (bool * json))) (k : Z) :
  forall (c c' : cnx) (cnt cnt' : nat * nat),
    k ∉ ids futs ->
    queue (work c) !! k = queue (committed c) !! k ->
    settle_all cy c token_exp futs cnt = (Ret cnt', c') ->
    queue (work c') !! k = queue (work c) !! k /\
    queue (committed c') !! k = queue (work c) !! k.
Proof.
  induction futs as [|[r fut] futs IH]; intros c c' cnt cnt' Hk Hagree; cbn.
  - intros [= _ <-]. auto.
  - destruct (process_item _ _ _ _ _ _ _) as [[c1 cnt1]|e] eqn:Hp; [|discriminate].
    intros Hrest.
    apply not_elem_of_cons in Hk as [Hne Hk].
    destruct (process_item_queue _ _ _ _ _ _ _ _ _ Hp)
      as (Hc1 & base & err & Hbase & Hq).
    assert (H1 : queue (work c1) !! k = queue (work c) !! k).
    { rewrite Hq, lookup_alter_ne by (cbn in Hne; congruence).
      destruct Hbase as [->| ->]; congruence. }
    destruct (IH c1 c' cnt1 cnt' Hk ltac:(now rewrite Hc1) Hrest) as [Hw Hcm].
    split; congruence.
Qed.

(** When the loop ends without an exception, the row of every future is
    there, committed, with the item's final status. *)
Lemma settle_all_status (cy : cycle) (token_exp : Z)
    (futs : list (row * res (bool * json))) :
  forall (c c' : cnx) (cnt cnt' : nat * nat),
    NoDup (ids futs) ->
    (forall k, k ∈ ids futs ->
       is_Some (queue (work c) !! k) /\ is_Some (queue (committed c) !! k)) ->
    settle_all cy c token_exp futs cnt = (Ret cnt', c') ->
    forall r fut, (r, fut) ∈ futs ->
      exists q, queue (work c') !! IdQueue r = Some q /\
                queue (committed c') !! IdQueue r = Some q /\
                Status q = final_status fut (item_fails cy (IdQueue r)).
Proof.
  induction futs as [|[r0 fut0] futs IH]; intros c c' cnt cnt' Hnd Hdom; cbn.
  - intros _ r fut Hin. inversion Hin.
  - destruct (process_item _ _ _ _ _ _ _) as [[c1 cnt1]|e] eqn:Hp; [|discriminate].
    intros Hrest r fut Hin.
    cbn in Hnd. apply NoDup_cons in Hnd as [Hfresh Hnd].
    destruct (process_item_queue _ _ _ _ _ _ _ _ _ Hp)
      as (Hc1 & base & err & Hbase & Hq).
    apply elem_of_cons in Hin as [[= -> ->]|Hin].
    + destruct (Hdom (IdQueue r0) ltac:(left)) as [[qw Hqw] [qc Hqc]].
      assert (exists q0, base !! IdQueue r0 = Some q0) as [q0 Hq0]
        by (destruct Hbase as [->| ->]; eauto).
      destruct (settle_all_frame cy token_exp futs (IdQueue r0) c1 c' cnt1 cnt'
                  Hfresh ltac:(now rewrite Hc1) Hrest) as [Hw Hcm].
      exists (set_status (final_status fut0 (item_fails cy (IdQueue r0))) err q0).
      rewrite Hw, Hcm, Hq, lookup_alter_eq, Hq0. auto.
    + apply (IH c1 c' cnt1 cnt' Hnd); [|exact Hrest|exact Hin].
      intros k Hk.
      assert (k <> IdQueue r0) as Hne by (intros ->; contradiction).
      rewrite Hc1, Hq, lookup_alter_ne by congruence.
      destruct (Hdom k ltac:(now right)) as [Hw Hcm].
      destruct Hbase as [->| ->]; auto.
Qed.

(** The futures are those of the rows, in their order. *)
Lemma submit_all_rows (cy : cycle) (h : Http.headers) (rows : list row)
    (futs : list (row * res (bool * json))) :
  submit_all cy h rows = Ret futs -> futs.*1 = rows.
Proof.
  unfold submit_all. revert futs.
  induction rows as [|r rows IH]; intros futs; cbn.
  - now intros [= <-].
  - destruct (Body.to_body_postman strftime_dmy strptime_ymd r) as [b|e]; cbn;
      [|discriminate].
    destruct (mapM _ rows) as [futs'|e]; cbn; [|discriminate].
    intros [= <-]. cbn. f_equal. now apply IH.
Qed.

Lemma update_final_from_snapshot_queue (c c3 : cnx) (f fc : fault)
    (r : res (nat * nat)) :
  update_final_from_snapshot c f fc = (r, c3) ->
  queue (work c3) = queue (work c) /\
  (queue (committed c3) = queue (committed c) \/
   queue (committed c3) = queue (work c)).
Proof.
  unfold update_final_from_snapshot, commit.
  destruct f; cbn; [intros [= _ <-]; auto|].
  destruct fc; cbn; intros [= _ <-]; cbn; auto.
Qed.

(** C9 as the code has it.  When [process_batch] returns, on a connection
    with nothing uncommitted in the queue: every row that [fetch_batch]
    claimed (it was [processing] in the open transaction) is in the
    committed queue with status [done] or [error], [done] exactly when its
    validation call
    returned success and its history, snapshot and status writes were
    committed, [error] otherwise, that is when the call failed or raised,
    or when one of the item's statements failed and the handler marked it. *)
Theorem process_batch_terminal (cy : cycle) (tk : Token.token_state) (c : cnx)
    (counts : nat * nat * nat) :
  queue (work c) = queue (committed c) ->
  pb_result (process_batch cy tk c) = Ret counts ->
  exists token token_exp c1 rows futs,
    Token.tk_result (Token.get_token JSONDecodeError CLIENT_ID CLIENT_SECRET
                       (token_post cy) (token_clock cy) tk)
    = Ret (token, token_exp) /\
    fetch_batch c WORKER_BATCH (fetch_fails cy) = Ret (c1, rows) /\
    submit_all cy (bearer token) rows = Ret futs /\ futs.*1 = rows /\
    forall r fut, (r, fut) ∈ futs ->
      (exists q0, queue (work c1) !! IdQueue r = Some q0 /\ Status q0 = "processing") /\
      exists q,
        queue (committed (pb_cnx (process_batch cy tk c))) !! IdQueue r = Some q /\
        queue (work (pb_cnx (process_batch cy tk c))) !! IdQueue r = Some q /\
        Status q = final_status fut (item_fails cy (IdQueue r)) /\
        (Status q = "done" \/ Status q = "error").
Proof.
  intros Hclean. unfold process_batch.
  destruct (Token.tk_result _) as [[token token_exp]|e]; [|discriminate].
  destruct (fetch_batch c WORKER_BATCH (fetch_fails cy)) as [[c1 rows]|e] eqn:Hf;
    [|discriminate].
  destruct rows as [|r0 rows'].
  { intros _. exists token, token_exp, c1, [], [].
    do 4 (split; [reflexivity|]). intros r fut Hin. inversion Hin. }
  set (rows := r0 :: rows') in *.
  destruct (submit_all cy (bearer token) rows) as [futs|e] eqn:Hsub; [|discriminate].
  destruct (settle_all cy c1 token_exp (as_completed cy futs) (0, 0))
    as [[[ok_cnt err_cnt]|e] c2] eqn:Hloop; [|discriminate].
  destruct (update_final_from_snapshot c2 _ _) as [log c3] eqn:Hfin.
  intros Hret.
  assert (Hc3 : pb_cnx (match log with
                        | Ret l => BatchOut (Ret (length rows, ok_cnt, err_cnt)) c3
                                     (Token.tk_state
                                        (Token.get_token JSONDecodeError CLIENT_ID
                                           CLIENT_SECRET (token_post cy)
                                           (token_clock cy) tk)) (Some l)
                        | Raise _ => BatchOut (Ret (length rows, ok_cnt, err_cnt)) c3
                                       (Token.tk_state
                                          (Token.get_token JSONDecodeError CLIENT_ID
                                             CLIENT_SECRET (token_post cy)
                                             (token_clock cy) tk)) None
                        end) = c3) by now destruct log.
  rewrite Hc3. clear Hc3 Hret.
  pose proof (submit_all_rows _ _ _ _ Hsub) as Hrows.
  destruct (fetch_batch_spec _ _ _ _ _ Hf)
    as (Hcm & _ & _ & _ & Hnd & Hdom & Hclaimed & _).
  destruct (update_final_from_snapshot_queue _ _ _ _ _ Hfin) as [Hw3 Hcm3].
  exists token, token_exp, c1, rows, futs.
  do 4 (split; [first [assumption|reflexivity]|]).
  intros r fut Hin.
  assert (Hr : r ∈ rows).
  { rewrite <- Hrows. apply list_elem_of_fmap. exists (r, fut). auto. }
  split.
  - destruct (Hclaimed r Hr) as (q & _ & _ & _ & Hq). exists (claim q). auto.
  - assert (Hperm : as_completed cy futs ≡ₚ futs) by apply merge_sort_Permutation.
    assert (Hids : ids (as_completed cy futs) ≡ₚ IdQueue <$> rows).
    { unfold ids. rewrite Hperm, <- Hrows, <- list_fmap_compose. reflexivity. }
    destruct (settle_all_status cy token_exp (as_completed cy futs) c1 c2 (0, 0)
                (ok_cnt, err_cnt)) with (r := r) (fut := fut)
      as (q & Hqw & Hqc & Hst).
    + now rewrite Hids.
    + intros k Hk. rewrite Hids in Hk.
      apply list_elem_of_fmap in Hk as (r' & -> & Hr').
      destruct (Hclaimed r' Hr') as (q & Hq & _).
      rewrite Hdom, Hcm, <- Hclean, Hq. split; eauto.
    + exact Hloop.
    + now rewrite Hperm.
    + exists q. rewrite Hw3. split; [|split; [exact Hqw|split; [exact Hst|]]].
      * destruct Hcm3 as [-> | ->]; assumption.
      * rewrite Hst. unfold final_status. destruct (settles_done _ _); auto.
Qed.

(** *** The status updates and the history insert *)

(** X14.  [mark_error] with no database fault returns, for a payload or an
    exception alike.  It writes one row at most, the one with the given
    key: its status becomes [error] and its [LastError] a text of at most
    3900 characters (for an exception, the first 3900 characters of
    [str(e)]), its other columns stay; a key that is not in the queue
    changes nothing and is no error; the other rows and the other tables
    are untouched. *)
Theorem mark_error_bounded (d : db) (idq : Z) (err : err_value) :
  exists d' t,
    mark_error d idq err None = Ret d' /\
    String.length t <= 3900 /\
    (forall e, err = ErrExc e -> t = take_str 3900 (exn_str e)) /\
    hist d' = hist d /\ snapshot d' = snapshot d /\ final d' = final d /\
    (forall k, k <> idq -> queue d' !! k = queue d !! k) /\
    (queue d !! idq = None -> queue d' = queue d) /\
    (forall q, queue d !! idq = Some q ->
       exists q', queue d' !! idq = Some q' /\
         Status q' = "error" /\ LastError q' = Some t /\
         Attempts q' = Attempts q /\ EnqueuedAt q' = EnqueuedAt q /\
         output_row (idq, q') = output_row (idq, q)).
Proof.
  unfold mark_error. cbn.
  match goal with
  | |- context [alter (set_status "error" (Some ?t)) idq (queue d)] =>
      exists (set_queue d (alter (set_status "error" (Some t)) idq (queue d))), t
  end.
  split; [reflexivity|]. cbn.
  split; [apply length_take_str|].
  split; [now intros e ->|].
  do 3 (split; [reflexivity|]).
  split; [intros k Hk; now rewrite lookup_alter_ne|].
  split.
  - intros Hnone. apply map_eq. intros k.
    destruct (decide (k = idq)) as [->|Hne].
    + now rewrite lookup_alter_eq, Hnone.
    + now rewrite lookup_alter_ne.
  - intros q Hq. rewrite lookup_alter_eq, Hq. cbn.
    eexists. split; [reflexivity|]. repeat split.
Qed.

(** X15.  [insert_hist].  A payload that is not a dict makes it raise
    [AttributeError] (from [js.get]) before the database is touched.  When
    it returns, the payload is a dict, the history has exactly one row
    more, at its end, the rows before it are as they were, and so are the
    other tables; the new row carries the invoice of the queue row, the
    status text and the code that [map_estado] gives for the payload, the
    expiry of the token and the JSON text of the payload; and the tuple
    returned is [map_estado]'s triple with the message, which is the
    first of [message], [mensaje], [observacion] that is truthy, or else
    the value of [observacion]. *)
Theorem insert_hist_appends (d : db) (r : row) (token_expira_utc : Z) (js : json)
    (f : fault) :
  (is_dict js = false ->
   insert_hist d r token_expira_utc js f = Raise (AttributeError js "get")) /\
  (forall d' out, insert_hist d r token_expira_utc js f = Ret (d', out) ->
     f = None /\
     (exists kv, js = JObj kv /\
        out.2 = py_or (py_or (dict_get "message" kv) (dict_get "mensaje" kv))
                  (dict_get "observacion" kv)) /\
     out.1 = Estado.map_estado py_repr js /\
     queue d' = queue d /\ snapshot d' = snapshot d /\ final d' = final d /\
     exists h, hist d' = (hist d ++ [h])%list /\
       h_IdFactura h = IdFactura r /\
       Estado_SUNAT h = (Estado.map_estado py_repr js).1.1 /\
       h_Codigo_Respuesta h = (Estado.map_estado py_repr js).2 /\
       sql_text out.2 = Ret (h_Mensaje h) /\
       Token_Expira_UTC h = token_expira_utc /\ Raw_JSON h = json_dumps js).
Proof.
  unfold insert_hist.
  destruct (Estado.map_estado py_repr js) as [[etxt edesc] ecp].
  split.
  - intros Hd. destruct js; try discriminate; reflexivity.
  - intros d' out.
    destruct js as [| | | | |kv]; try discriminate.
    assert (Hm : mensaje_of (JObj kv)
                 = Ret (py_or (py_or (dict_get "message" kv) (dict_get "mensaje" kv))
                          (dict_get "observacion" kv))).
    { unfold mensaje_of, py_get, py_or.
      assert (Hget : forall k, (if dict_has k kv then dict_get k kv else JNull)
                               = dict_get k kv).
      { intros k. unfold dict_has. induction kv as [|[k0 v0] kv IH]; [reflexivity|].
        cbn. destruct (String.eqb k k0); [reflexivity|exact IH]. }
      rewrite !Hget. cbn.
      destruct (truthy (dict_get "message" kv)) eqn:Ea; cbn; rewrite ?Ea;
        [reflexivity|].
      destruct (truthy (dict_get "mensaje" kv)) eqn:Eb; cbn; rewrite ?Eb;
        reflexivity. }
    rewrite Hm. cbn. destruct f; cbn; [discriminate|].
    destruct (sql_text _) as [m|e] eqn:Hsql; cbn; [|discriminate].
    intros [= <- <-]. cbn.
    split; [reflexivity|]. split; [eexists; split; reflexivity|].
    do 4 (split; [reflexivity|]).
    eexists. split; [reflexivity|]. cbn. repeat split. exact Hsql.
Qed.

(** *** A whole cycle *)

Lemma settle_hist (c c' : cnx) (token_exp : Z) (r : row) (fut : res (bool * json))
    (ahora : Z) (f : item_faults) (ok : bool) :
  settle c token_exp r fut ahora f = Ret (c', ok) ->
  exists h, hist (work c') = (hist (work c) ++ [h])%list /\ h_IdFactura h = IdFactura r.
Proof.
  unfold settle, insert_hist, upsert_snapshot, mark_done, mark_error, commit.
  destruct fut as [[ok' js]|e]; cbn; [|discriminate].
  destruct (Estado.map_estado py_repr js) as [[etxt edesc] ecp].
  destruct (mensaje_of js) as [m|e]; cbn; [|discriminate].
  destruct (hist_fails f); cbn; [discriminate|].
  destruct (sql_text m) as [mt|e] eqn:Hm; cbn; [|discriminate].
  destruct (snapshot_fails f); cbn; [discriminate|]. rewrite Hm. cbn.
  destruct ok'; destruct (mark_fails f); cbn; try discriminate;
    destruct (commit_fails f); cbn; try discriminate;
    intros [= <- <-]; eexists; split; reflexivity.
Qed.

(** One turn of the loop, for the counters and the history. *)
Lemma process_item_effect (c c' : cnx) (token_exp : Z) (r : row)
    (fut : res (bool * json)) (ahora : Z) (f : item_faults) (cnt cnt' : nat * nat) :
  process_item c token_exp r fut ahora f cnt = Ret (c', cnt') ->
  committed c' = work c' /\
  cnt' = (if settles_done fut f then (cnt.1 + 1, cnt.2) else (cnt.1, cnt.2 + 1)) /\
  ((exists h, hist (work c') = (hist (work c) ++ [h])%list /\
              h_IdFactura h = IdFactura r) \/
   hist (work c') = hist (committed c)).
Proof.
  unfold process_item.
  destruct (settle c token_exp r fut ahora f) as [[c1 ok]|e] eqn:Hs.
  - intros [= <- <-].
    destruct (settle_Ret _ _ _ _ _ _ _ _ Hs) as (js & err & -> & Hw & Hc & _).
    split; [exact Hc|]. split.
    + unfold settles_done. destruct ok; [rewrite Hw|];
        f_equal; lia.
    + left. exact (settle_hist _ _ _ _ _ _ _ _ Hs).
  - rewrite (settle_Raise _ _ _ _ _ _ _ Hs).
    destruct (recover c (IdQueue r) e f) as [c1|e'] eqn:Hr; cbn; [|discriminate].
    intros [= <- <-]. destruct (recover_Ret _ _ _ _ _ Hr) as [Hc Hw].
    split; [exact Hc|]. split; [reflexivity|]. right. now rewrite Hw.
Qed.

(** The number of futures that end [done]. *)
Definition done_count (cy : cycle) (futs : list (row * res (bool * json))) : nat :=
  length (filter (fun x => settles_done x.2 (item_fails cy (IdQueue x.1)) = true) futs).

Lemma settle_all_counts (cy : cycle) (token_exp : Z)
    (futs : list (row * res (bool * json))) :
  forall (c c' : cnx) (cnt cnt' : nat * nat),
    settle_all cy c token_exp futs cnt = (Ret cnt', c') ->
    cnt'.1 = cnt.1 + done_count cy futs /\
    cnt'.2 + done_count cy futs = cnt.2 + length futs /\
    (futs <> [] -> committed c' = work c').
Proof.
  unfold done_count.
  induction futs as [|[r fut] futs IH]; intros c c' cnt cnt'; cbn [settle_all].
  - intros [= <- <-]. cbn. split; [lia|]. split; [lia|congruence].
  - destruct (process_item _ _ _ _ _ _ _) as [[c1 cnt1]|e] eqn:Hp; [|discriminate].
    intros Hrest.
    destruct (process_item_effect _ _ _ _ _ _ _ _ _ Hp) as (Hc1 & Hcnt & _).
    destruct (IH _ _ _ _ Hrest) as (H1 & H2 & H3).
    assert (Hc' : committed c' = work c').
    { destruct futs as [|x futs']; [|apply H3; discriminate].
      cbn in Hrest. now injection Hrest as _ <-. }
    rewrite filter_cons. cbn [fst snd].
    destruct (settles_done fut (item_fails cy (IdQueue r))) eqn:Hd.
    + rewrite decide_True by reflexivity. subst cnt1. cbn in *.
      split; [lia|]. split; [lia|auto].
    + rewrite decide_False by discriminate. subst cnt1. cbn in *.
      split; [lia|]. split; [lia|auto].
Qed.

(** The history through the loop, however the loop ends: rows are only
    added, at the end, at most one per future. *)
Lemma settle_all_hist (cy : cycle) (token_exp : Z)
    (futs : list (row * res (bool * json))) :
  forall (c c' : cnx) (cnt : nat * nat) (res_ : res (nat * nat)),
    hist (work c) = hist (committed c) ->
    settle_all cy c token_exp futs cnt = (res_, c') ->
    hist (work c') = hist (committed c') /\
    exists new, hist (committed c') = (hist (committed c) ++ new)%list /\
      length new <= length futs /\
      Forall (fun h => exists x, x ∈ futs /\ h_IdFactura h = IdFactura x.1) new.
Proof.
  induction futs as [|[r fut] futs IH]; intros c c' cnt res_ Hinv; cbn [settle_all].
  - intros [= _ <-]. split; [exact Hinv|]. exists []. rewrite app_nil_r.
    split; [reflexivity|]. split; [cbn; lia|constructor].
  - destruct (process_item _ _ _ _ _ _ _) as [[c1 cnt1]|e] eqn:Hp.
    + intros Hrest.
      destruct (process_item_effect _ _ _ _ _ _ _ _ _ Hp) as (Hc1 & _ & Hh).
      destruct (IH c1 c' cnt1 res_ ltac:(now rewrite Hc1) Hrest)
        as (Hinv' & new & Hnew & Hlen & Hall).
      split; [exact Hinv'|].
      assert (Hmono : Forall (fun h => exists x, x ∈ (r, fut) :: futs /\
                                       h_IdFactura h = IdFactura x.1) new).
      { eapply Forall_impl; [exact Hall|]. intros h (x & Hx & Hid).
        exists x. split; [now right|exact Hid]. }
      rewrite Hc1 in Hnew.
      destruct Hh as [(h & Hh & Hid)|Hh].
      * exists (h :: new). rewrite Hnew, Hh, Hinv, <- app_assoc.
        split; [reflexivity|]. split; [cbn; lia|].
        constructor; [|exact Hmono]. exists (r, fut). split; [left|exact Hid].
      * exists new. rewrite Hnew, Hh.
        split; [reflexivity|]. split; [cbn; lia|exact Hmono].
    + intros [= _ <-]. split; [exact Hinv|]. exists []. rewrite app_nil_r.
      split; [reflexivity|]. split; [cbn; lia|constructor].
Qed.

(** A row that no future of the list is for is not touched by the loop,
    however the loop ends. *)
Lemma settle_all_frame_any (cy : cycle) (token_exp : Z)
    (futs : list (row * res (bool * json))) (k : Z) :
  forall (c c' : cnx) (cnt : nat * nat) (res_ : res (nat * nat)),
    k ∉ ids futs ->
    queue (work c) !! k = queue (committed c) !! k ->
    settle_all cy c token_exp futs cnt = (res_, c') ->
    queue (work c') !! k = queue (work c) !! k /\
    queue (committed c') !! k = queue (work c) !! k.
Proof.
  induction futs as [|[r fut] futs IH]; intros c c' cnt res_ Hk Hagree; cbn.
  - intros [= _ <-]. auto.
  - destruct (process_item _ _ _ _ _ _ _) as [[c1 cnt1]|e] eqn:Hp;
      [|intros [= _ <-]; auto].
    intros Hrest.
    apply not_elem_of_cons in Hk as [Hne Hk].
    destruct (process_item_queue _ _ _ _ _ _ _ _ _ Hp)
      as (Hc1 & base & err & Hbase & Hq).
    assert (H1 : queue (work c1) !! k = queue (work c) !! k).
    { rewrite Hq, lookup_alter_ne by (cbn in Hne; congruence).
      destruct Hbase as [->| ->]; congruence. }
    destruct (IH c1 c' cnt1 res_ Hk ltac:(now rewrite Hc1) Hrest) as [Hw Hcm].
    split; congruence.
Qed.

Lemma fetch_batch_length (c c1 : cnx) (n : Z) (f : fault) (rows : list row) :
  fetch_batch c n f = Ret (c1, rows) -> length rows <= Z.to_nat n.
Proof.
  unfold fetch_batch. destruct f; cbn; [discriminate|].
  destruct (n <? 0)%Z; [discriminate|]. intros [= _ <-].
  rewrite length_fmap.
  destruct (top_queued_split n (queue (work c))) as (_ & _ & _ & ->). lia.
Qed.

(** The token [process_batch] starts with. *)
Definition the_token (cy : cycle) (tk : Token.token_state) : Token.token_out :=
  Token.get_token JSONDecodeError CLIENT_ID CLIENT_SECRET
    (token_post cy) (token_clock cy) tk.

(** The ways through [process_batch]. *)
Inductive batch_path (cy : cycle) (tk : Token.token_state) (c : cnx) : batch_out -> Prop :=
| path_no_token e :
    Token.tk_result (the_token cy tk) = Raise e ->
    batch_path cy tk c (BatchOut (Raise e) (closed c) (Token.tk_state (the_token cy tk)) None)
| path_no_fetch token token_exp e :
    Token.tk_result (the_token cy tk) = Ret (token, token_exp) ->
    fetch_batch c WORKER_BATCH (fetch_fails cy) = Raise e ->
    batch_path cy tk c (BatchOut (Raise e) (closed c) (Token.tk_state (the_token cy tk)) None)
| path_idle token token_exp c1 :
    Token.tk_result (the_token cy tk) = Ret (token, token_exp) ->
    fetch_batch c WORKER_BATCH (fetch_fails cy) = Ret (c1, []) ->
    batch_path cy tk c (BatchOut (Ret (0, 0, 0)) c1 (Token.tk_state (the_token cy tk)) None)
| path_no_body token token_exp c1 rows e :
    Token.tk_result (the_token cy tk) = Ret (token, token_exp) ->
    fetch_batch c WORKER_BATCH (fetch_fails cy) = Ret (c1, rows) -> rows <> [] ->
    submit_all cy (bearer token) rows = Raise e ->
    batch_path cy tk c (BatchOut (Raise e) (closed c1) (Token.tk_state (the_token cy tk)) None)
| path_handler_fails token token_exp c1 rows futs e c2 :
    Token.tk_result (the_token cy tk) = Ret (token, token_exp) ->
    fetch_batch c WORKER_BATCH (fetch_fails cy) = Ret (c1, rows) -> rows <> [] ->
    submit_all cy (bearer token) rows = Ret futs ->
    settle_all cy c1 token_exp (as_completed cy futs) (0, 0) = (Raise e, c2) ->
    batch_path cy tk c (BatchOut (Raise e) (closed c2) (Token.tk_state (the_token cy tk)) None)
| path_through token token_exp c1 rows futs ok_cnt err_cnt c2 log c3 :
    Token.tk_result (the_token cy tk) = Ret (token, token_exp) ->
    fetch_batch c WORKER_BATCH (fetch_fails cy) = Ret (c1, rows) -> rows <> [] ->
    submit_all cy (bearer token) rows = Ret futs ->
    settle_all cy c1 token_exp (as_completed cy futs) (0, 0) = (Ret (ok_cnt, err_cnt), c2) ->
    update_final_from_snapshot c2 (final_fails cy) (final_commit_fails cy) = (log, c3) ->
    batch_path cy tk c
      (BatchOut (Ret (length rows, ok_cnt, err_cnt)) c3 (Token.tk_state (the_token cy tk))
         (match log with Ret l => Some l | Raise _ => None end)).

Lemma process_batch_path (cy : cycle) (tk : Token.token_state) (c : cnx) :
  batch_path cy tk c (process_batch cy tk c).
Proof.
  unfold process_batch. fold (the_token cy tk).
  destruct (Token.tk_result (the_token cy tk)) as [[token token_exp]|e] eqn:Htk;
    [|now apply path_no_token].
  destruct (fetch_batch c WORKER_BATCH (fetch_fails cy)) as [[c1 rows]|e] eqn:Hf;
    [|now apply (path_no_fetch _ _ _ token token_exp)].
  destruct rows as [|r0 rows']; [now apply (path_idle _ _ _ token token_exp)|].
  destruct (submit_all cy (bearer token) (r0 :: rows')) as [futs|e] eqn:Hsub;
    [|now apply (path_no_body _ _ _ token token_exp c1 (r0 :: rows'))].
  destruct (settle_all cy c1 token_exp (as_completed cy futs) (0, 0))
    as [[[ok_cnt err_cnt]|e] c2] eqn:Hloop;
    [|now apply (path_handler_fails _ _ _ token token_exp c1 (r0 :: rows') futs)].
  destruct (update_final_from_snapshot c2 _ _) as [log c3] eqn:Hfin.
  pose proof (path_through cy tk c token token_exp c1 (r0 :: rows') futs ok_cnt err_cnt
                c2 log c3 Htk Hf ltac:(discriminate) Hsub Hloop Hfin) as H.
  now destruct log.
Qed.

(** The futures of a batch, as the loop takes them: those of the rows. *)
Lemma as_completed_ids (cy : cycle) (h : Http.headers) (rows : list row)
    (futs : list (row * res (bool * json))) :
  submit_all cy h rows = Ret futs ->
  as_completed cy futs ≡ₚ futs /\ ids (as_completed cy futs) ≡ₚ IdQueue <$> rows /\
  length (as_completed cy futs) = length rows.
Proof.
  intros Hsub. pose proof (submit_all_rows _ _ _ _ Hsub) as Hrows.
  assert (Hperm : as_completed cy futs ≡ₚ futs) by apply merge_sort_Permutation.
  split; [exact Hperm|]. split.
  - unfold ids. rewrite Hperm, <- Hrows, <- list_fmap_compose. reflexivity.
  - rewrite Hperm, <- Hrows. now rewrite length_fmap.
Qed.

(** A cycle, however it ends, leaves alone every row that is not [queued]
    when it starts, and leaves nothing uncommitted in the queue. *)
Lemma process_batch_keeps (cy : cycle) (tk : Token.token_state) (c : cnx) :
  queue (work c) = queue (committed c) ->
  queue (work (pb_cnx (process_batch cy tk c)))
  = queue (committed (pb_cnx (process_batch cy tk c))) /\
  forall k, (forall q, queue (committed c) !! k = Some q -> Status q <> "queued") ->
    queue (committed (pb_cnx (process_batch cy tk c))) !! k = queue (committed c) !! k.
Proof.
  intros Hclean.
  assert (Hunclaimed : forall c1 rows k,
            fetch_batch c WORKER_BATCH (fetch_fails cy) = Ret (c1, rows) ->
            (forall q, queue (committed c) !! k = Some q -> Status q <> "queued") ->
            (k ∉ IdQueue <$> rows) /\ queue (work c1) !! k = queue (committed c1) !! k /\
            queue (committed c1) !! k = queue (committed c) !! k).
  { intros c1 rows k Hf Hk.
    destruct (fetch_batch_spec _ _ _ _ _ Hf) as (Hcm & _ & _ & _ & _ & _ & Hcl & Hoth).
    assert (Hnot : k ∉ IdQueue <$> rows).
    { intros Hin. apply list_elem_of_fmap in Hin as (r & -> & Hr).
      destruct (Hcl r Hr) as (q & Hq & Hst & _).
      rewrite Hclean in Hq. now apply (Hk q). }
    split; [exact Hnot|]. rewrite (Hoth k Hnot), Hcm, Hclean. auto. }
  destruct (process_batch_path cy tk c)
    as [e Htk|token token_exp e Htk Hf|token token_exp c1 Htk Hf
        |token token_exp c1 rows e Htk Hf Hne Hsub
        |token token_exp c1 rows futs e c2 Htk Hf Hne Hsub Hloop
        |token token_exp c1 rows futs ok_cnt err_cnt c2 log c3 Htk Hf Hne Hsub Hloop Hfin];
    cbn [pb_cnx closed connect work committed].
  - auto.
  - auto.
  - destruct (fetch_batch_spec _ _ _ _ _ Hf) as (Hcm & _ & _ & _ & _ & _ & _ & Hoth).
    rewrite Hcm. split; [|auto].
    rewrite <- Hclean. apply map_eq. intros k. apply Hoth. cbn. apply not_elem_of_nil.
  - split; [reflexivity|]. intros k Hk.
    now destruct (Hunclaimed c1 rows k Hf Hk) as (_ & _ & ->).
  - split; [reflexivity|]. intros k Hk.
    destruct (Hunclaimed c1 rows k Hf Hk) as (Hnot & Hag & Hcm).
    destruct (as_completed_ids _ _ _ _ Hsub) as (_ & Hids & _).
    destruct (settle_all_frame_any cy token_exp (as_completed cy futs) k c1 c2 (0, 0)
                (Raise e)) as [_ Hc2]; [now rewrite Hids|exact Hag|exact Hloop|].
    now rewrite Hc2, Hag, Hcm.
  - destruct (as_completed_ids _ _ _ _ Hsub) as (_ & Hids & Hlen).
    destruct (update_final_from_snapshot_queue _ _ _ _ _ Hfin) as [Hw3 Hcm3].
    destruct (settle_all_counts cy token_exp _ _ _ _ _ Hloop) as (_ & _ & Hc2).
    assert (Hc2' : committed c2 = work c2).
    { apply Hc2. intros Hnil. rewrite Hnil in Hlen. destruct rows; [congruence|discriminate]. }
    assert (Hq3 : queue (committed c3) = queue (work c2))
      by (destruct Hcm3 as [-> | ->]; [now rewrite Hc2'|reflexivity]).
    split; [now rewrite Hw3, Hq3|].
    intros k Hk.
    destruct (Hunclaimed c1 rows k Hf Hk) as (Hnot & Hag & Hcm).
    destruct (settle_all_frame_any cy token_exp (as_completed cy futs) k c1 c2 (0, 0)
                (Ret (ok_cnt, err_cnt))) as [Hw2 _];
      [now rewrite Hids|exact Hag|exact Hloop|].
    now rewrite Hq3, Hw2, Hag, Hcm.
Qed.

Lemma count_split {A} (b : A -> bool) (l : list A) :
  length (filter (fun x => b x = true) l) + length (filter (fun x => b x = false) l)
  = length l.
Proof.
  induction l as [|x l IH]; [reflexivity|].
  rewrite !filter_cons. destruct (b x) eqn:E.
  - rewrite decide_True, decide_False by congruence. cbn. lia.
  - rewrite decide_False, decide_True by congruence. cbn. lia.
Qed.

Lemma count_fmap {A B} (P : A -> Prop) (Q : B -> Prop)
    `{!forall x, Decision (P x)} `{!forall y, Decision (Q y)} (f : A -> B) (l : list A) :
  (forall x, x ∈ l -> P x <-> Q (f x)) ->
  length (filter P l) = length (filter Q (f <$> l)).
Proof.
  induction l as [|x l IH]; intros Hiff; [reflexivity|].
  rewrite fmap_cons, !filter_cons.
  specialize (IH (fun y Hy => Hiff y (list_elem_of_further _ _ _ Hy))).
  pose proof (Hiff x (list_elem_of_here _ _)) as Hx.
  destruct (decide (P x)) as [HP|HP], (decide (Q (f x))) as [HQ|HQ]; cbn;
    try tauto; now rewrite IH.
Qed.

Lemma update_final_from_snapshot_hist (c c3 : cnx) (f fc : fault)
    (r : res (nat * nat)) :
  update_final_from_snapshot c f fc = (r, c3) ->
  hist (work c3) = hist (work c) /\
  (hist (committed c3) = hist (committed c) \/ hist (committed c3) = hist (work c)).
Proof.
  unfold update_final_from_snapshot, commit.
  destruct f; cbn; [intros [= _ <-]; auto|].
  destruct fc; cbn; intros [= _ <-]; cbn; auto.
Qed.

(** X16.  The counters a cycle returns are those of the queue.  When
    [process_batch] returns [(total, ok, err)] on a connection with nothing
    uncommitted in the queue: [total] is the number of rows claimed,
    [ok + err = total], [ok] is the number of claimed rows that the cycle
    leaves, committed, with status [done], and [err] the number it leaves
    with status [error]. *)
Theorem process_batch_counts (cy : cycle) (tk : Token.token_state) (c : cnx)
    (total ok_cnt err_cnt : nat) :
  queue (work c) = queue (committed c) ->
  pb_result (process_batch cy tk c) = Ret (total, ok_cnt, err_cnt) ->
  exists c1 rows,
    fetch_batch c WORKER_BATCH (fetch_fails cy) = Ret (c1, rows) /\
    total = length rows /\ ok_cnt + err_cnt = total /\
    ok_cnt = length (filter (fun r =>
                 Status <$> queue (committed (pb_cnx (process_batch cy tk c))) !! IdQueue r
                 = Some "done") rows) /\
    err_cnt = length (filter (fun r =>
                 Status <$> queue (committed (pb_cnx (process_batch cy tk c))) !! IdQueue r
                 = Some "error") rows).
Proof.
  intros Hclean.
  destruct (process_batch_path cy tk c)
    as [e Htk|token token_exp e Htk Hf|token token_exp c1 Htk Hf
        |token token_exp c1 rows e Htk Hf Hne Hsub
        |token token_exp c1 rows futs e c2 Htk Hf Hne Hsub Hloop
        |token token_exp c1 rows futs ok err c2 log c3 Htk Hf Hne Hsub Hloop Hfin];
    cbn [pb_result pb_cnx]; try discriminate.
  - intros [= <- <- <-]. exists c1, []. repeat split; assumption.
  - intros [= <- <- <-]. exists c1, rows. split; [exact Hf|]. split; [reflexivity|].
    destruct (as_completed_ids _ _ _ _ Hsub) as (Hperm & Hids & Hlen).
    pose proof (submit_all_rows _ _ _ _ Hsub) as Hrows.
    destruct (settle_all_counts cy token_exp _ _ _ _ _ Hloop) as (Hok & Herr & Hc2).
    cbn in Hok, Herr. rewrite Hlen in Herr.
    assert (Hdc : done_count cy (as_completed cy futs) = done_count cy futs)
      by (unfold done_count; now rewrite Hperm).
    rewrite Hdc in Hok, Herr.
    destruct (fetch_batch_spec _ _ _ _ _ Hf)
      as (Hcm & _ & _ & _ & Hnd & Hdom & Hclaimed & _).
    destruct (update_final_from_snapshot_queue _ _ _ _ _ Hfin) as [Hw3 Hcm3].
    assert (Hst : forall x, x ∈ futs ->
              Status <$> queue (committed c3) !! IdQueue x.1
              = Some (final_status x.2 (item_fails cy (IdQueue x.1)))).
    { intros [r fut] Hin. cbn [fst snd].
      destruct (settle_all_status cy token_exp (as_completed cy futs) c1 c2 (0, 0)
                  (ok, err)) with (r := r) (fut := fut) as (q & Hqw & Hqc & Hs).
      - now rewrite Hids.
      - intros k Hk. rewrite Hids in Hk.
        apply list_elem_of_fmap in Hk as (r' & -> & Hr').
        destruct (Hclaimed r' Hr') as (q & Hq & _).
        rewrite Hdom, Hcm, <- Hclean, Hq. split; eauto.
      - exact Hloop.
      - now rewrite Hperm.
      - destruct Hcm3 as [-> | ->]; [rewrite Hqc|rewrite Hqw]; cbn; now rewrite Hs. }
    assert (Hlenf : length futs = length rows) by (rewrite <- Hrows; now rewrite length_fmap).
    pose proof (count_split (fun x => settles_done x.2 (item_fails cy (IdQueue x.1))) futs)
      as Hsplit. cbv beta in Hsplit. fold (done_count cy futs) in Hsplit.
    split; [lia|]. rewrite <- Hrows. split.
    + rewrite Hok. unfold done_count. apply count_fmap.
      intros x Hx. rewrite (Hst x Hx). unfold final_status.
      destruct (settles_done _ _); split; congruence.
    + assert (err = length (filter (fun x => settles_done x.2 (item_fails cy (IdQueue x.1))
                                             = false) futs)) as -> by lia.
      apply count_fmap.
      intros x Hx. rewrite (Hst x Hx). unfold final_status.
      destruct (settles_done _ _); split; congruence.
Qed.

(** X17.  The history is append-only, however a cycle ends (returning or
    raising): on a connection with no uncommitted history, the committed
    history after the cycle is the committed history before it followed by
    new rows, at most one per claimed row and so at most [WORKER_BATCH];
    every new row is for the invoice of a row that was [queued]; and no
    history row is left uncommitted. *)
Theorem process_batch_history (cy : cycle) (tk : Token.token_state) (c : cnx) :
  hist (work c) = hist (committed c) ->
  exists new,
    hist (committed (pb_cnx (process_batch cy tk c))) = (hist (committed c) ++ new)%list /\
    hist (work (pb_cnx (process_batch cy tk c)))
    = hist (committed (pb_cnx (process_batch cy tk c))) /\
    length new <= Z.to_nat WORKER_BATCH /\
    Forall (fun h => exists k q, queue (work c) !! k = Some q /\ Status q = "queued" /\
                                 h_IdFactura h = q_IdFactura q) new.
Proof.
  intros Hinv.
  assert (Hnone : exists new : list hrow,
            hist (committed c) = (hist (committed c) ++ new)%list /\
            hist (committed c) = hist (committed c) /\
            length new <= Z.to_nat WORKER_BATCH /\
            Forall (fun h => exists k q, queue (work c) !! k = Some q /\
                               Status q = "queued" /\ h_IdFactura h = q_IdFactura q) new).
  { exists []. rewrite app_nil_r. repeat split; [cbn; lia|constructor]. }
  assert (Hloop_ : forall token c1 rows futs token_exp res_ c2,
            fetch_batch c WORKER_BATCH (fetch_fails cy) = Ret (c1, rows) ->
            submit_all cy (bearer token) rows = Ret futs ->
            settle_all cy c1 token_exp (as_completed cy futs) (0, 0) = (res_, c2) ->
            hist (work c2) = hist (committed c2) /\
            exists new, hist (committed c2) = (hist (committed c) ++ new)%list /\
              length new <= Z.to_nat WORKER_BATCH /\
              Forall (fun h => exists k q, queue (work c) !! k = Some q /\
                                 Status q = "queued" /\ h_IdFactura h = q_IdFactura q) new).
  { intros token c1 rows futs token_exp res_ c2 Hf Hsub Hloop.
    destruct (fetch_batch_spec _ _ _ _ _ Hf) as (Hcm & Hh & _ & _ & _ & _ & Hcl & _).
    destruct (as_completed_ids _ _ _ _ Hsub) as (Hperm & _ & Hlen).
    pose proof (submit_all_rows _ _ _ _ Hsub) as Hrows.
    pose proof (fetch_batch_length _ _ _ _ _ Hf) as Hn.
    destruct (settle_all_hist cy token_exp _ c1 c2 (0, 0) res_
                ltac:(now rewrite Hh, Hcm) Hloop) as (Hinv2 & new & Hnew & Hlen2 & Hall).
    split; [exact Hinv2|]. exists new. rewrite Hnew, Hcm.
    split; [reflexivity|]. split; [lia|].
    eapply Forall_impl; [exact Hall|]. intros h ([r fut] & Hx & Hid). cbn in Hid.
    rewrite Hperm in Hx.
    assert (Hr : r ∈ rows).
    { rewrite <- Hrows. apply list_elem_of_fmap. exists (r, fut). auto. }
    destruct (Hcl r Hr) as (q & Hq & Hst & Hrow & _).
    exists (IdQueue r), q. split; [exact Hq|]. split; [exact Hst|].
    rewrite Hid, Hrow. reflexivity. }
  destruct (process_batch_path cy tk c)
    as [e Htk|token token_exp e Htk Hf|token token_exp c1 Htk Hf
        |token token_exp c1 rows e Htk Hf Hne Hsub
        |token token_exp c1 rows futs e c2 Htk Hf Hne Hsub Hloop
        |token token_exp c1 rows futs ok err c2 log c3 Htk Hf Hne Hsub Hloop Hfin];
    cbn [pb_cnx closed connect work committed].
  - exact Hnone.
  - exact Hnone.
  - destruct (fetch_batch_spec _ _ _ _ _ Hf) as (Hcm & Hh & _).
    rewrite Hcm, Hh, Hinv. exact Hnone.
  - destruct (fetch_batch_spec _ _ _ _ _ Hf) as (Hcm & _). rewrite Hcm. exact Hnone.
  - destruct (Hloop_ _ _ _ _ _ _ _ Hf Hsub Hloop) as (_ & new & Hnew & Hrest).
    exists new. split; [exact Hnew|]. split; [reflexivity|exact Hrest].
  - destruct (Hloop_ _ _ _ _ _ _ _ Hf Hsub Hloop) as (Hinv2 & new & Hnew & Hrest).
    destruct (update_final_from_snapshot_hist _ _ _ _ _ Hfin) as [Hw3 Hcm3].
    assert (Hc3 : hist (committed c3) = hist (committed c2))
      by (destruct Hcm3 as [-> | ->]; [reflexivity|exact Hinv2]).
    exists new. rewrite Hw3, Hc3, Hinv2. split; [exact Hnew|]. split; [reflexivity|exact Hrest].
Qed.

Lemma top_queued_none (n : Z) (q : gmap Z qrow) :
  (n = 0%Z \/ forall k r, q !! k = Some r -> Status r <> "queued") ->
  top_queued n q = [].
Proof.
  intros H. apply length_zero_iff_nil.
  destruct (top_queued_split n q) as (_ & _ & _ & ->).
  destruct H as [-> |H]; [reflexivity|].
  assert (queued q = []) as ->; [|apply Nat.min_0_r].
  unfold queued. destruct (filter _ _) as [|[k r] l] eqn:E; [reflexivity|].
  assert (Hin : (k, r) ∈ filter (fun kr : Z * qrow => Status kr.2 = "queued") (map_to_list q))
    by (rewrite E; left).
  apply list_elem_of_filter in Hin as [Hst Hin].
  apply elem_of_map_to_list in Hin. now elim (H k r).
Qed.

(** X18.  An idle cycle.  With a token at hand and the claim statement
    going through, when no row of the queue is [queued] (or the batch size
    is 0) [process_batch] returns [(0, 0, 0)] and has done nothing else: the
    connection, with all four tables and whatever was uncommitted, is as it
    was, no validation call is made and the final sync is not run. *)
Theorem process_batch_idle (cy : cycle) (tk : Token.token_state) (c : cnx)
    (token : json) (token_exp : Z) :
  Token.tk_result (the_token cy tk) = Ret (token, token_exp) ->
  fetch_fails cy = None -> (0 <= WORKER_BATCH)%Z ->
  (WORKER_BATCH = 0%Z \/
   forall k q, queue (work c) !! k = Some q -> Status q <> "queued") ->
  process_batch cy tk c
  = BatchOut (Ret (0, 0, 0)) c (Token.tk_state (the_token cy tk)) None.
Proof.
  intros Htk Hff Hn Hnone. unfold process_batch. fold (the_token cy tk).
  rewrite Htk. unfold fetch_batch. rewrite Hff. cbn.
  destruct (Z.ltb_spec WORKER_BATCH 0); [lia|].
  rewrite (top_queued_none _ _ Hnone). cbn.
  f_equal. destruct c as [cm [q h sn fn]]. reflexivity.
Qed.

Lemma submit_all_raises (cy : cycle) (h : Http.headers) (rows : list row)
    (r : row) (e : exn) :
  r ∈ rows -> Body.to_body_postman strftime_dmy strptime_ymd r = Raise e ->
  exists e', submit_all cy h rows = Raise e'.
Proof.
  unfold submit_all. intros Hin Hr.
  induction rows as [|r0 rows IH]; [inversion Hin|]. cbn.
  apply elem_of_cons in Hin as [<-|Hin].
  - rewrite Hr. cbn. eauto.
  - destruct (Body.to_body_postman strftime_dmy strptime_ymd r0); cbn; [|eauto].
    destruct (IH Hin) as [e' ->]. cbn. eauto.
Qed.

(** X19.  A claimed row whose request body cannot be built (an issue date
    that is a text not of the form YYYY-MM-DD, or an amount beyond the
    decimal context) is not handled as an item error: the exception leaves
    [process_batch] before any item is settled, no row is marked, the
    final sync is not run, and with the connection closed the tables are
    as last committed, the claim of the whole batch undone. *)
Theorem unbuildable_body_aborts_cycle (cy : cycle) (tk : Token.token_state) (c c1 : cnx)
    (token : json) (token_exp : Z) (rows : list row) (r : row) (e : exn) :
  Token.tk_result (the_token cy tk) = Ret (token, token_exp) ->
  fetch_batch c WORKER_BATCH (fetch_fails cy) = Ret (c1, rows) ->
  r ∈ rows -> Body.to_body_postman strftime_dmy strptime_ymd r = Raise e ->
  exists e', process_batch cy tk c
             = BatchOut (Raise e') (connect (committed c))
                 (Token.tk_state (the_token cy tk)) None.
Proof.
  intros Htk Hf Hin Hr.
  destruct (submit_all_raises cy (bearer token) rows r e Hin Hr) as [e' He'].
  exists e'. unfold process_batch. fold (the_token cy tk). rewrite Htk, Hf.
  destruct rows as [|r0 rows']; [inversion Hin|]. rewrite He'.
  destruct (fetch_batch_spec _ _ _ _ _ Hf) as (Hcm & _).
  unfold closed. now rewrite Hcm.
Qed.

(** X25.  A validation call that fails for good wipes the known status.
    When all attempts raised and [call_sunat] returned the payload
    [{"error": text}], the item is still recorded, with no database fault:
    a history row with a null status is appended, the queue row is marked
    [error], and the snapshot row of the invoice, when it held a status,
    is overwritten with null status, description and code, flagged as a
    change of state at the instant of the call (its first-query instant
    stays); all of it is committed. *)
Theorem failed_call_resets_status (c : cnx) (token_exp : Z) (r : row)
    (last_exc : option exn) (ahora : Z) (prev : srow) :
  snapshot (work c) !! IdFactura r = Some prev ->
  or_empty (Estado_Actual prev) <> "" ->
  exists c',
    settle c token_exp r (Ret (false, Http.error_payload last_exc)) ahora no_faults
    = Ret (c', false) /\
    committed c' = work c' /\
    (exists p, snapshot (work c') !! IdFactura r = Some p /\
       Estado_Actual p = None /\ Estado_Descripcion p = None /\
       s_Codigo_Respuesta p = None /\ Cambio_Estado p = Some 1%Z /\
       Fecha_Ultimo_Cambio p = Some ahora /\
       Fecha_Primera_Consulta p = Fecha_Primera_Consulta prev) /\
    (exists h, hist (work c') = (hist (work c) ++ [h])%list /\
       Estado_SUNAT h = None /\ h_IdFactura h = IdFactura r) /\
    (forall q, queue (work c) !! IdQueue r = Some q ->
       Status <$> queue (work c') !! IdQueue r = Some "error").
Proof.
  intros Hprev Hst.
  unfold settle, insert_hist, upsert_snapshot, mark_error, commit, Http.error_payload.
  cbn. unfold upsert. cbn. rewrite Hprev.
  assert (Hc : cambio prev None None = true).
  { unfold cambio. cbn. destruct (String.eqb_spec (or_empty (Estado_Actual prev)) "");
      [contradiction|reflexivity]. }
  rewrite Hc. cbn.
  eexists. split; [reflexivity|]. cbn. split; [reflexivity|].
  split; [|split].
  - rewrite lookup_insert_eq. eexists. split; [reflexivity|]. cbn. repeat split.
  - eexists. split; [reflexivity|]. cbn. split; reflexivity.
  - intros q Hq. rewrite lookup_alter_eq, Hq. reflexivity.
Qed.

(** *** [main]: the loop over cycles *)

(** What the first cycles of [while True] leave, once the connection is
    open and the [SELECT 1] check has passed: the exception that left the
    loop, if one did, the connection (closed by the [finally] when an
    exception left), the token globals, and the number of
    [time.sleep(5)] calls. *)
Record main_out := MainOut {
  m_raised : option exn;
  m_cnx : cnx;
  m_token : Token.token_state;
  m_sleeps : nat
}.

Fixpoint main_loop (cys : list cycle) (tk : Token.token_state) (c : cnx) (sleeps : nat)
  : main_out :=
  match cys with
  | [] => MainOut None c tk sleeps
  | cy :: rest =>
      let out := process_batch cy tk c in
      match pb_result out with
      | Raise e => MainOut (Some e) (pb_cnx out) (pb_token out) sleeps
      | Ret (total, _, _) =>
          main_loop rest (pb_token out) (pb_cnx out)
            (if Nat.eqb total 0 then S sleeps else sleeps)
      end
  end.

(** X20.  The worker never goes back to a row.  Through any number of
    cycles of [main], whatever the services answer and whichever
    statements fail, and whether the loop is still running or an exception
    has left it: a row that is not [queued] when a cycle starts ([done],
    [error], or any other status) is never written again, and no row is
    added to the queue; in particular an item that ended [error] is not
    retried.  And at every cycle boundary nothing is left uncommitted in
    the queue. *)
Theorem main_loop_settled_rows_stay (cys : list cycle) (tk : Token.token_state)
    (c : cnx) (sleeps : nat) :
  queue (work c) = queue (committed c) ->
  queue (work (m_cnx (main_loop cys tk c sleeps)))
  = queue (committed (m_cnx (main_loop cys tk c sleeps))) /\
  forall k, (forall q, queue (committed c) !! k = Some q -> Status q <> "queued") ->
    queue (committed (m_cnx (main_loop cys tk c sleeps))) !! k = queue (committed c) !! k.
Proof.
  revert tk c sleeps. induction cys as [|cy cys IH]; intros tk c sleeps Hclean.
  - cbn. auto.
  - cbn [main_loop].
    destruct (process_batch_keeps cy tk c Hclean) as [Hclean' Hkeep].
    destruct (pb_result (process_batch cy tk c)) as [[[total okc] errc]|e].
    + destruct (IH (pb_token (process_batch cy tk c)) (pb_cnx (process_batch cy tk c))
                  (if Nat.eqb total 0 then S sleeps else sleeps) Hclean') as [Hc Hk].
      split; [exact Hc|]. intros k Hq. rewrite Hk.
      * now apply Hkeep.
      * intros q. rewrite (Hkeep k Hq). apply Hq.
    + cbn. auto.
Qed.

(** *** Failures after the first commit, and the snapshot through a cycle *)

(** X27.  Isolation of a failure after the first commit of a batch.  Once
    a turn of the loop has gone through for an earlier item (its [try] or
    its handler has committed), a failure in the [try] of a later item
    undoes the writes of that item only: after the handler the history,
    snapshot and final tables are exactly as the item found them, the
    queue differs only in the item's own row, now [error] with the text of
    the exception, and every other row keeps what the earlier turns left,
    all committed. *)
Theorem later_failure_is_isolated (c0 c c' : cnx) (token_exp : Z)
    (r0 r : row) (fut0 fut : res (bool * json)) (ahora0 ahora : Z)
    (f0 f : item_faults) (cnt0 cnt cnt' : nat * nat) (e : exn) :
  process_item c0 token_exp r0 fut0 ahora0 f0 cnt0 = Ret (c, cnt) ->
  settle c token_exp r fut ahora f = Raise e ->
  process_item c token_exp r fut ahora f cnt = Ret (c', cnt') ->
  committed c' = work c' /\
  hist (work c') = hist (work c) /\ snapshot (work c') = snapshot (work c) /\
  final (work c') = final (work c) /\
  queue (work c')
  = alter (set_status "error" (Some (take_str 3900 (exn_str e)))) (IdQueue r)
      (queue (work c)) /\
  (forall k, k <> IdQueue r -> queue (work c') !! k = queue (work c) !! k).
Proof.
  intros H0 Hs. destruct (process_item_effect _ _ _ _ _ _ _ _ _ H0) as (Hc & _).
  unfold process_item. rewrite Hs.
  destruct (recover c (IdQueue r) e f) as [c1|e'] eqn:Hr; cbn; [|discriminate].
  intros [= <- <-]. destruct (recover_Ret _ _ _ _ _ Hr) as [Hc1 Hw].
  split; [exact Hc1|]. rewrite Hw, Hc. cbn.
  do 4 (split; [reflexivity|]).
  intros k Hk. now rewrite lookup_alter_ne.
Qed.

Lemma settle_snapshot (c c' : cnx) (token_exp : Z) (r : row) (fut : res (bool * json))
    (ahora : Z) (f : item_faults) (ok : bool) :
  settle c token_exp r fut ahora f = Ret (c', ok) ->
  exists txt desc cod m,
    snapshot (work c') = upsert (snapshot (work c)) r txt desc cod m ahora.
Proof.
  unfold settle, insert_hist, upsert_snapshot, mark_done, mark_error, commit.
  destruct fut as [[ok' js]|e]; cbn; [|discriminate].
  destruct (Estado.map_estado py_repr js) as [[etxt edesc] ecp].
  destruct (mensaje_of js) as [m|e]; cbn; [|discriminate].
  destruct (hist_fails f); cbn; [discriminate|].
  destruct (sql_text m) as [mt|e] eqn:Hm; cbn; [|discriminate].
  destruct (snapshot_fails f); cbn; [discriminate|]. rewrite Hm. cbn.
  destruct ok'; destruct (mark_fails f); cbn; try discriminate;
    destruct (commit_fails f); cbn; try discriminate;
    intros [= <- <-]; eexists _, _, _, _; reflexivity.
Qed.

(** A snapshot row and what a later state of the table holds for it: the
    row is still there, for the same invoice document and with the same
    first-query instant. *)
Definition kept (p p' : srow) : Prop :=
  Fecha_Primera_Consulta p' = Fecha_Primera_Consulta p /\
  s_RUC_Emisor p' = s_RUC_Emisor p /\ s_RUC_Receptor p' = s_RUC_Receptor p /\
  s_TipoDocumento p' = s_TipoDocumento p /\ s_Serie p' = s_Serie p /\
  s_Numero p' = s_Numero p /\ s_ImporteTotal p' = s_ImporteTotal p.

Definition snapshot_kept (s s' : gmap Z srow) : Prop :=
  forall k p, s !! k = Some p -> exists p', s' !! k = Some p' /\ kept p p'.

Lemma snapshot_kept_refl (s : gmap Z srow) : snapshot_kept s s.
Proof. intros k p Hp. exists p. split; [exact Hp|]. repeat split. Qed.

Lemma snapshot_kept_trans (s1 s2 s3 : gmap Z srow) :
  snapshot_kept s1 s2 -> snapshot_kept s2 s3 -> snapshot_kept s1 s3.
Proof.
  intros H12 H23 k p Hp. destruct (H12 k p Hp) as (p2 & Hp2 & Hk2).
  destruct (H23 k p2 Hp2) as (p3 & Hp3 & Hk3). exists p3. split; [exact Hp3|].
  unfold kept in *. intuition congruence.
Qed.

Lemma upsert_kept (snap : gmap Z srow) (r : row)
    (txt desc cod m : option string) (ahora : Z) :
  snapshot_kept snap (upsert snap r txt desc cod m ahora).
Proof.
  intros k p Hk. unfold upsert.
  destruct (decide (k = IdFactura r)) as [->|Hne].
  - rewrite Hk. destruct (cambio p txt desc); rewrite lookup_insert_eq;
      eexists; (split; [reflexivity|]); repeat split.
  - destruct (snap !! IdFactura r) as [prev|];
      [destruct (cambio prev txt desc)|];
      rewrite lookup_insert_ne by congruence; exists p; (split; [exact Hk|]);
      repeat split.
Qed.

Lemma settle_all_snapshot (cy : cycle) (token_exp : Z)
    (futs : list (row * res (bool * json))) :
  forall (c c' : cnx) (cnt : nat * nat) (res_ : res (nat * nat)),
    snapshot (work c) = snapshot (committed c) ->
    settle_all cy c token_exp futs cnt = (res_, c') ->
    snapshot (work c') = snapshot (committed c') /\
    snapshot_kept (snapshot (committed c)) (snapshot (committed c')).
Proof.
  induction futs as [|[r fut] futs IH]; intros c c' cnt res_ Hinv; cbn [settle_all].
  - intros [= _ <-]. split; [exact Hinv|apply snapshot_kept_refl].
  - destruct (process_item _ _ _ _ _ _ _) as [[c1 cnt1]|e] eqn:Hp;
      [|intros [= _ <-]; split; [exact Hinv|apply snapshot_kept_refl]].
    intros Hrest.
    assert (Hstep : committed c1 = work c1 /\
                    snapshot_kept (snapshot (committed c)) (snapshot (work c1))).
    { revert Hp. unfold process_item.
      destruct (settle c token_exp r fut _ _) as [[c2 ok]|e] eqn:Hs.
      - intros [= <- _].
        destruct (settle_Ret _ _ _ _ _ _ _ _ Hs) as (_ & _ & _ & _ & Hc & _).
        destruct (settle_snapshot _ _ _ _ _ _ _ _ Hs) as (t & d & cd & m & ->).
        split; [exact Hc|]. rewrite <- Hinv. apply upsert_kept.
      - destruct (recover c (IdQueue r) e _) as [c2|e'] eqn:Hr; cbn; [|discriminate].
        intros [= <- _]. destruct (recover_Ret _ _ _ _ _ Hr) as [Hc Hw].
        split; [exact Hc|]. rewrite Hw. apply snapshot_kept_refl. }
    destruct Hstep as [Hc1 Hk1].
    destruct (IH c1 c' cnt1 res_ ltac:(now rewrite Hc1) Hrest) as (Hinv' & Hk).
    split; [exact Hinv'|].
    eapply snapshot_kept_trans; [exact Hk1|]. now rewrite <- Hc1.
Qed.

Lemma update_final_from_snapshot_snapshot (c c3 : cnx) (f fc : fault)
    (r : res (nat * nat)) :
  update_final_from_snapshot c f fc = (r, c3) ->
  snapshot (work c3) = snapshot (work c) /\
  (snapshot (committed c3) = snapshot (committed c) \/
   snapshot (committed c3) = snapshot (work c)).
Proof.
  unfold update_final_from_snapshot, commit.
  destruct f; cbn; [intros [= _ <-]; auto|].
  destruct fc; cbn; intros [= _ <-]; cbn; auto.
Qed.

(** X28.  The snapshot table only grows through a cycle, however
    [process_batch] ends (returning or raising): on a connection with no
    uncommitted snapshot change, every snapshot row committed before the
    cycle is still there after it, with the same first-query instant and
    the same document columns (issuer, receiver, type, series, number,
    amount); and no snapshot change is left uncommitted. *)
Theorem process_batch_snapshot_kept (cy : cycle) (tk : Token.token_state) (c : cnx) :
  snapshot (work c) = snapshot (committed c) ->
  snapshot (work (pb_cnx (process_batch cy tk c)))
  = snapshot (committed (pb_cnx (process_batch cy tk c))) /\
  forall k p, snapshot (committed c) !! k = Some p ->
    exists p', snapshot (committed (pb_cnx (process_batch cy tk c))) !! k = Some p' /\
               kept p p'.
Proof.
  intros Hinv.
  assert (Hloop_ : forall c1 rows futs token_exp res_ c2,
            fetch_batch c WORKER_BATCH (fetch_fails cy) = Ret (c1, rows) ->
            settle_all cy c1 token_exp futs (0, 0) = (res_, c2) ->
            snapshot (work c2) = snapshot (committed c2) /\
            snapshot_kept (snapshot (committed c)) (snapshot (committed c2))).
  { intros c1 rows futs token_exp res_ c2 Hf Hloop.
    destruct (fetch_batch_spec _ _ _ _ _ Hf) as (Hcm & _ & Hs & _).
    destruct (settle_all_snapshot cy token_exp futs c1 c2 (0, 0) res_
                ltac:(now rewrite Hs, Hcm) Hloop) as (Hinv2 & Hk).
    split; [exact Hinv2|]. now rewrite <- Hcm. }
  destruct (process_batch_path cy tk c)
    as [e Htk|token token_exp e Htk Hf|token token_exp c1 Htk Hf
        |token token_exp c1 rows e Htk Hf Hne Hsub
        |token token_exp c1 rows futs e c2 Htk Hf Hne Hsub Hloop
        |token token_exp c1 rows futs ok err c2 log c3 Htk Hf Hne Hsub Hloop Hfin];
    cbn [pb_cnx closed connect work committed].
  - split; [reflexivity|apply snapshot_kept_refl].
  - split; [reflexivity|apply snapshot_kept_refl].
  - destruct (fetch_batch_spec _ _ _ _ _ Hf) as (Hcm & _ & Hs & _).
    rewrite Hcm, Hs. split; [exact Hinv|apply snapshot_kept_refl].
  - destruct (fetch_batch_spec _ _ _ _ _ Hf) as (Hcm & _). rewrite Hcm.
    split; [reflexivity|apply snapshot_kept_refl].
  - destruct (Hloop_ _ _ _ _ _ _ Hf Hloop) as (_ & Hk). split; [reflexivity|exact Hk].
  - destruct (Hloop_ _ _ _ _ _ _ Hf Hloop) as (Hinv2 & Hk).
    destruct (update_final_from_snapshot_snapshot _ _ _ _ _ Hfin) as [Hw3 Hcm3].
    assert (Hc3 : snapshot (committed c3) = snapshot (committed c2))
      by (destruct Hcm3 as [-> | ->]; [reflexivity|exact Hinv2]).
    rewrite Hw3, Hc3, Hinv2. split; [reflexivity|exact Hk].
Qed.

End Worker.

(** *** Concrete runs *)

Local Open Scope Z_scope.

(** Invoice 100 of the specification's scenario, and a second one. *)
Definition q100 : qrow :=
  QRow 100 "20123456789" "20100113610" "01" "F001" "123"
       (Some (FDate (Date 2024 1 15))) (Some (Dec false 1505 (-1)))
       "queued" 0 None 10.

Definition q101 : qrow :=
  QRow 101 "20123456789" "20100113610" "01" "F001" "124"
       (Some (FDate (Date 2024 1 16))) (Some (Dec false 2000 (-2)))
       "queued" 0 None 11.

Definition f100 : frow := FRow "F001-123" None None None None None None None None.

(** Two queued rows, nothing recorded yet, one final row. *)
Definition d0 : db :=
  Db (<[1 := q100]> (<[2 := q101]> ∅)) [] ∅ (<[100 := f100]> ∅).

Definition row1 : row := output_row (1, q100).

(** The service answers every call with HTTP 200 and estadoCp 3. *)
Definition authorized (_ : Z) (_ : Http.headers) (_ : Body.body) (_ : nat) : Http.reply :=
  Http.Answer (Http.Response 200 (Some (Estado.payload (JInt 3))) "").

Definition deadlock : exn :=
  Exn false "Transaction was deadlocked" "Error('Transaction was deadlocked')".

(** The history insert of queue row 1 fails. *)
Definition hist_fails_for_1 (k : Z) : item_faults :=
  if k =? 1 then ItemFaults (Some deadlock) None None None None None None
  else no_faults.

(** A cycle in which the call for queue row [k] completes at instant [k]. *)
Definition cycle_with (faults : Z -> item_faults) : cycle :=
  Cycle Token.second_grants (fun _ => Token.t0) authorized
        (fun k => k) (fun k => Token.t0 + k) None faults None None.

Definition run (has_description : bool) (cy : cycle) (c : cnx) : batch_out :=
  process_batch (fun _ => "[]") (fun _ => "{}") (fun _ => "15/01/2024")
    (fun _ => Ret (Date 2024 1 15)) (Http.decode_error true)
    (Some "cid") (Some "secret") 300 3 has_description
    cy (Token.initial_state Token.t0) c.

(** The end-to-end scenario of the specification: both items done, history
    and snapshot written with code 3 and the flag set, one final row
    updated. *)
Example end_to_end :
  let out := run true (cycle_with (fun _ => no_faults)) (connect d0) in
  pb_result out = Ret (2%nat, 2%nat, 0%nat) /\
  Status <$> queue (committed (pb_cnx out)) !! 1 = Some "done" /\
  Attempts <$> queue (committed (pb_cnx out)) !! 1 = Some 1 /\
  Attempts <$> queue (committed (pb_cnx out)) !! 2 = Some 1 /\
  (fun h => (Estado_SUNAT h, h_Codigo_Respuesta h)) <$> hist (committed (pb_cnx out))
  = [(Some "AUTORIZADO", Some "3"); (Some "AUTORIZADO", Some "3")] /\
  Cambio_Estado <$> snapshot (committed (pb_cnx out)) !! 100 = Some (Some 1) /\
  Estado_SUNAT_ULT <$> final (committed (pb_cnx out)) !! 100 = Some (Some "AUTORIZADO") /\
  pb_final_log out = Some (1%nat, 1%nat).
Proof. vm_compute. repeat split. Qed.

(** Invoice 100 with a snapshot row that says ACEPTADO, first queried at
    instant 5 and last changed at instant 7. *)
Definition s_aceptado : srow :=
  SRow "20123456789" "20100113610" "01" "F001" "123" (Some (Dec false 1505 (-1)))
       (Some "ACEPTADO") (Some "ACEPTADO (1)") (Some "1") None
       (Some 5) (Some 7) (Some 7) (Some 1).

Definition d_aceptado : db := Db ∅ [] (<[100 := s_aceptado]> ∅) ∅.

(** The two cases of the specification: ACEPTADO again, then ANULADO. *)
Lemma upsert_snapshot_change_witness :
  (exists d' now_,
     upsert_snapshot d_aceptado row1 (Some "ACEPTADO") (Some "ACEPTADO (1)") (Some "1")
       (JStr "ok") 9 None = Ret d' /\
     snapshot d' !! 100 = Some now_ /\
     Cambio_Estado now_ = Some 0 /\ Fecha_Ultimo_Cambio now_ = Some 7 /\
     Fecha_Ultima_Consulta now_ = Some 9) /\
  (exists d' now_,
     upsert_snapshot d_aceptado row1 (Some "ANULADO") (Some "ANULADO (2)") (Some "2")
       JNull 9 None = Ret d' /\
     snapshot d' !! 100 = Some now_ /\
     Cambio_Estado now_ = Some 1 /\ Fecha_Ultimo_Cambio now_ = Some 9 /\
     Estado_Actual now_ = Some "ANULADO").
Proof.
  split.
  - destruct (upsert_snapshot_change d_aceptado row1 s_aceptado
                (Some "ACEPTADO") (Some "ACEPTADO (1)") (Some "1") (Some "ok")
                (JStr "ok") 9 eq_refl eq_refl)
      as (d' & now_ & Hret & Hrow & _ & Hsame & _).
    destruct (Hsame (conj eq_refl eq_refl)) as (_ & Hflag & Hlast & Hchg & _).
    exists d', now_. auto.
  - destruct (upsert_snapshot_change d_aceptado row1 s_aceptado
                (Some "ANULADO") (Some "ANULADO (2)") (Some "2") None
                JNull 9 eq_refl eq_refl)
      as (d' & now_ & Hret & Hrow & Hdiff & _).
    destruct Hdiff as (_ & Hflag & _ & Hchg & Hest & _).
    { intros [H _]. discriminate H. }
    exists d', now_. auto.
Defined.

(** A first reconciliation of invoice 100 at instant 3, then three more of
    invoices 100 and 101, one of which fails. *)
Definition first_call : reconciliation :=
  Reconciliation row1 (Some "ACEPTADO") (Some "ACEPTADO (1)") (Some "1") JNull 3 None.

Definition later_calls : list reconciliation :=
  [ Reconciliation row1 (Some "ANULADO") (Some "ANULADO (2)") (Some "2") JNull 4 None;
    Reconciliation (output_row (2, q101)) None None None (JStr "x") 5 None;
    Reconciliation row1 None None None JNull 6 (Some deadlock);
    Reconciliation row1 (Some "ANULADO") (Some "ANULADO (2)") (Some "2") JNull 8 None ].

Lemma first_query_written_once_witness :
  exists p, snapshot (foldl reconcile (reconcile d0 first_call) later_calls) !! 100 = Some p /\
            Fecha_Primera_Consulta p = Some 3 /\ Fecha_Ultima_Consulta p = Some 8.
Proof.
  destruct (first_query_written_once d0 first_call None later_calls
              eq_refl eq_refl eq_refl) as (_ & p & Hp & Hfirst).
  exists p. split; [exact Hp|]. split; [exact Hfirst|].
  vm_compute in Hp. injection Hp as <-. reflexivity.
Defined.

(** The state the end-to-end cycle leaves: snapshot and final table in
    step, the final sync already run once. *)
Definition c_synced : cnx := pb_cnx (run true (cycle_with (fun _ => no_faults)) (connect d0)).

(** C1, against the specification's affected count.  On the synced state,
    with no snapshot change, a further call finds nothing to fix and
    changes nothing, and still counts one affected row; and where the
    cursor does not stand on the result set, the call that did change the
    final row of invoice 100 logs 0. *)
Lemma final_sync_count_not_zero :
  update_final_from_snapshot true c_synced None None = (Ret (0%nat, 1%nat), c_synced) /\
  pb_final_log (run false (cycle_with (fun _ => no_faults)) (connect d0))
  = Some (1%nat, 0%nat) /\
  final (committed (pb_cnx (run false (cycle_with (fun _ => no_faults)) (connect d0)))) !! 100
  <> Some f100.
Proof.
  split; [vm_compute; reflexivity|]. split; [vm_compute; reflexivity|].
  vm_compute. discriminate.
Qed.

(** C8, where the code breaks it.  Two rows are claimed; the call for
    queue row 1 completes first and its history insert fails.  The handler's
    rollback undoes the whole open transaction, which still holds the claim
    of the batch: once the handler has committed, row 2 is [queued] again
    with no attempt counted, and at the end of the cycle it is [done] with
    0 attempts where a cycle without the failure leaves 1. *)
Theorem first_failure_undoes_claim :
  (exists c1 rows fut c2 cnt,
     fetch_batch (connect d0) 300 None = Ret (c1, rows) /\
     (Status <$> queue (work c1) !! 2 = Some "processing" /\
      Attempts <$> queue (work c1) !! 2 = Some 1) /\
     process_item (fun _ => "[]") (fun _ => "{}") c1 (Token.t0 + 3600 * Token.second)
       row1 fut (Token.t0 + 1) (hist_fails_for_1 1) (0%nat, 0%nat) = Ret (c2, cnt) /\
     Status <$> queue (committed c2) !! 1 = Some "error" /\
     LastError <$> queue (committed c2) !! 1 = Some (Some "Transaction was deadlocked") /\
     Status <$> queue (committed c2) !! 2 = Some "queued" /\
     Attempts <$> queue (committed c2) !! 2 = Some 0) /\
  (let out := run true (cycle_with hist_fails_for_1) (connect d0) in
   pb_result out = Ret (2%nat, 1%nat, 1%nat) /\
   Status <$> queue (committed (pb_cnx out)) !! 2 = Some "done" /\
   Attempts <$> queue (committed (pb_cnx out)) !! 2 = Some 0) /\
  (let out := run true (cycle_with (fun _ => no_faults)) (connect d0) in
   Attempts <$> queue (committed (pb_cnx out)) !! 2 = Some 1).
Proof.
  split; [|split; vm_compute; repeat split].
  eexists _, _, (Ret (true, Estado.payload (JInt 3))), _, _.
  split; [vm_compute; reflexivity|].
  split; [vm_compute; split; reflexivity|].
  split; [vm_compute; reflexivity|].
  vm_compute. repeat split.
Qed.

(** C9, against the specification's final status: the validation call for
    queue row 1 succeeded (HTTP 200), and the row ends [error], because its
    history insert failed and the handler marked it. *)
Lemma ok_call_ends_error :
  Http.result (Http.call_sunat (Http.decode_error true) 3 (authorized 1)
                 Http.hdrs Http.body_150_50)
  = Ret (true, Estado.payload (JInt 3)) /\
  (let out := run true (cycle_with hist_fails_for_1) (connect d0) in
   pb_result out = Ret (2%nat, 1%nat, 1%nat) /\
   Status <$> queue (committed (pb_cnx out)) !! 1 = Some "error").
Proof. vm_compute. repeat split. Qed.

(** The cycle in which the history insert of row 1 fails: row 2 ends
    [done], row 1 [error]. *)
Lemma process_batch_terminal_witness :
  let out := run true (cycle_with hist_fails_for_1) (connect d0) in
  (exists q, queue (committed (pb_cnx out)) !! 2 = Some q /\ Status q = "done") /\
  (exists q, queue (committed (pb_cnx out)) !! 1 = Some q /\ Status q = "error").
Proof.
  cbv zeta.
  destruct (process_batch_terminal (fun _ => "[]") (fun _ => "{}") (fun _ => "15/01/2024")
              (fun _ => Ret (Date 2024 1 15)) (Http.decode_error true)
              (Some "cid") (Some "secret") 300 3 true
              (cycle_with hist_fails_for_1) (Token.initial_state Token.t0) (connect d0)
              (2%nat, 1%nat, 1%nat) eq_refl ltac:(vm_compute; reflexivity))
    as (token & token_exp & c1 & rows & futs & Htok & Hf & Hsub & Hrows & Hall).
  vm_compute in Htok. injection Htok as <- <-.
  vm_compute in Hf. injection Hf as <- <-.
  vm_compute in Hsub. injection Hsub as <-.
  split.
  - destruct (Hall _ _ ltac:(right; left)) as (_ & q & Hq & _ & Hst & _).
    exists q. split; [exact Hq|exact Hst].
  - destruct (Hall _ _ ltac:(left)) as (_ & q & Hq & _ & Hst & _).
    exists q. split; [exact Hq|exact Hst].
Defined.

(** *** The further properties on concrete runs *)

(** The connection after the claim of the first row, and after the claim of
    the whole queue. *)
Definition c_claimed_1 : cnx :=
  match fetch_batch (connect d0) 1 None with
  | Ret (c1, _) => c1
  | Raise _ => connect d0
  end.

Definition c_claimed : cnx :=
  match fetch_batch (connect d0) 300 None with
  | Ret (c1, _) => c1
  | Raise _ => connect d0
  end.

Definition row2 : row := output_row (2, q101).


Lemma fetch_batch_claims_witness :
  exists q q', queue d0 !! 1 = Some q /\ queue (work c_claimed_1) !! 1 = Some q' /\
    Status q' = "processing" /\ Attempts q' = Attempts q + 1.
Proof.
  assert (H : fetch_batch (connect d0) 1 None = Ret (c_claimed_1, [row1]))
    by (vm_compute; reflexivity).
  destruct (fetch_batch_claims _ _ _ _ _ H) as (_ & _ & _ & _ & _ & Hcl & _).
  destruct (Hcl row1 ltac:(left)) as (q & q' & Hq & _ & Hq' & Hst & Hat & _).
  exists q, q'. auto.
Defined.

(** A second claim of one row takes row 2. *)
Lemma fetch_batch_twice_disjoint_witness : IdQueue row1 <> IdQueue row2.
Proof.
  assert (H1 : fetch_batch (connect d0) 1 None = Ret (c_claimed_1, [row1]))
    by (vm_compute; reflexivity).
  assert (H2 : {c2 | fetch_batch c_claimed_1 1 None = Ret (c2, [row2])})
    by (eexists; vm_compute; reflexivity).
  destruct H2 as [c2 H2].
  apply (fetch_batch_twice_disjoint _ _ _ _ _ _ _ _ _ H1 H2); left.
Defined.

(** The history insert of row 1 fails after the claim of both rows: the
    handler leaves the tables of the last commit, row 2 [queued] again. *)
Lemma failure_rolls_back_to_last_commit_witness :
  exists c',
    process_item (fun _ => "[]") (fun _ => "{}") c_claimed (Token.t0 + 3600 * Token.second)
      row1 (Ret (true, Estado.payload (JInt 3))) (Token.t0 + 1) (hist_fails_for_1 1)
      (0%nat, 0%nat) = Ret (c', (0%nat, 1%nat)) /\
    hist (work c') = [] /\
    Status <$> queue (work c') !! 2 = Some "queued".
Proof.
  assert (Hs : settle (fun _ => "[]") (fun _ => "{}") c_claimed
                 (Token.t0 + 3600 * Token.second) row1
                 (Ret (true, Estado.payload (JInt 3))) (Token.t0 + 1) (hist_fails_for_1 1)
               = Raise deadlock) by (vm_compute; reflexivity).
  assert (Hp : {c' | process_item (fun _ => "[]") (fun _ => "{}") c_claimed
                       (Token.t0 + 3600 * Token.second) row1
                       (Ret (true, Estado.payload (JInt 3))) (Token.t0 + 1)
                       (hist_fails_for_1 1) (0%nat, 0%nat) = Ret (c', (0%nat, 1%nat))})
    by (eexists; vm_compute; reflexivity).
  destruct Hp as [c' Hp].
  destruct (failure_rolls_back_to_last_commit _ _ _ _ _ _ _ _ _ _ _ _ Hs Hp)
    as (_ & _ & Hh & _ & _ & Hq).
  exists c'. split; [exact Hp|]. split.
  - rewrite Hh. vm_compute. reflexivity.
  - rewrite Hq. vm_compute. reflexivity.
Defined.

(** The cycle in which the history insert of row 1 fails returns (2, 1, 1):
    two rows claimed. *)
Lemma process_batch_counts_witness :
  exists c1 rows,
    fetch_batch (connect d0) 300 None = Ret (c1, rows) /\ 2%nat = length rows.
Proof.
  destruct (process_batch_counts (fun _ => "[]") (fun _ => "{}") (fun _ => "15/01/2024")
              (fun _ => Ret (Date 2024 1 15)) (Http.decode_error true)
              (Some "cid") (Some "secret") 300 3 true
              (cycle_with hist_fails_for_1) (Token.initial_state Token.t0) (connect d0)
              2%nat 1%nat 1%nat eq_refl ltac:(vm_compute; reflexivity))
    as (c1 & rows & Hf & Ht & _).
  exists c1, rows. split; [exact Hf|exact Ht].
Defined.

Lemma process_batch_history_witness :
  exists new,
    hist (committed (pb_cnx (run true (cycle_with hist_fails_for_1) (connect d0))))
    = ([] ++ new)%list /\
    (length new <= Z.to_nat 300)%nat.
Proof.
  destruct (process_batch_history (fun _ => "[]") (fun _ => "{}") (fun _ => "15/01/2024")
              (fun _ => Ret (Date 2024 1 15)) (Http.decode_error true)
              (Some "cid") (Some "secret") 300 3 true
              (cycle_with hist_fails_for_1) (Token.initial_state Token.t0) (connect d0)
              eq_refl) as (new & Hn & _ & Hl & _).
  exists new. split; [exact Hn|exact Hl].
Defined.

(** With a batch size of 0 the cycle is idle, whatever is queued. *)
Lemma process_batch_idle_witness :
  pb_result (process_batch (fun _ => "[]") (fun _ => "{}") (fun _ => "15/01/2024")
               (fun _ => Ret (Date 2024 1 15)) (Http.decode_error true)
               (Some "cid") (Some "secret") 0 3 true
               (cycle_with (fun _ => no_faults)) (Token.initial_state Token.t0) (connect d0))
  = Ret (0%nat, 0%nat, 0%nat).
Proof.
  rewrite (process_batch_idle (fun _ => "[]") (fun _ => "{}") (fun _ => "15/01/2024")
             (fun _ => Ret (Date 2024 1 15)) (Http.decode_error true)
             (Some "cid") (Some "secret") 0 3 true
             (cycle_with (fun _ => no_faults)) (Token.initial_state Token.t0) (connect d0)
             (JStr "t1") (Token.t0 + 3600 * Token.second)).
  - reflexivity.
  - vm_compute. reflexivity.
  - reflexivity.
  - lia.
  - left. reflexivity.
Defined.

(** A queued invoice whose amount, 10^26, is beyond the decimal context. *)
Definition q_huge : qrow :=
  QRow 102 "20123456789" "20100113610" "01" "F001" "125"
       (Some (FDate (Date 2024 1 17))) (Some (Dec false 1 26))
       "queued" 0 None 12.

Definition d_huge : db := Db (<[1 := q100]> (<[3 := q_huge]> ∅)) [] ∅ ∅.

Lemma unbuildable_body_aborts_cycle_witness :
  exists e',
    run true (cycle_with (fun _ => no_faults)) (connect d_huge)
    = BatchOut (Raise e') (connect d_huge)
        (Token.tk_state (the_token (Http.decode_error true) (Some "cid") (Some "secret")
                           (cycle_with (fun _ => no_faults)) (Token.initial_state Token.t0)))
        None.
Proof.
  eapply (unbuildable_body_aborts_cycle (fun _ => "[]") (fun _ => "{}") (fun _ => "15/01/2024")
            (fun _ => Ret (Date 2024 1 15)) (Http.decode_error true)
            (Some "cid") (Some "secret") 300 3 true
            (cycle_with (fun _ => no_faults)) (Token.initial_state Token.t0)
            (connect d_huge) _ _ _ _ (output_row (3, q_huge)) Money.InvalidOperation).
  - vm_compute. reflexivity.
  - vm_compute. reflexivity.
  - right. left.
  - vm_compute. reflexivity.
Defined.

(** Row 1 ended [error] in an earlier cycle; row 2 is queued. *)
Definition d_mixed : db :=
  Db (<[1 := set_status "error" (Some "boom") q100]> (<[2 := q101]> ∅)) [] ∅ ∅.

Lemma main_loop_settled_rows_stay_witness :
  queue (committed (m_cnx
    (main_loop (fun _ => "[]") (fun _ => "{}") (fun _ => "15/01/2024")
       (fun _ => Ret (Date 2024 1 15)) (Http.decode_error true)
       (Some "cid") (Some "secret") 300 3 true
       [cycle_with (fun _ => no_faults); cycle_with hist_fails_for_1]
       (Token.initial_state Token.t0) (connect d_mixed) 0%nat))) !! 1
  = Some (set_status "error" (Some "boom") q100).
Proof.
  rewrite (proj2 (main_loop_settled_rows_stay (fun _ => "[]") (fun _ => "{}")
                    (fun _ => "15/01/2024") (fun _ => Ret (Date 2024 1 15))
                    (Http.decode_error true) (Some "cid") (Some "secret") 300 3 true
                    [cycle_with (fun _ => no_faults); cycle_with hist_fails_for_1]
                    (Token.initial_state Token.t0) (connect d_mixed) 0%nat eq_refl) 1).
  - reflexivity.
  - intros q Hq. vm_compute in Hq. injection Hq as <-. discriminate.
Defined.

(** The final row of invoice 100 has no SUNAT column set and the snapshot
    says ACEPTADO: after the sync nothing is left to fix. *)
Lemma to_fix_after_sync_witness :
  to_fix (update_final (<[100 := f100]> ∅) (<[100 := s_aceptado]> ∅))
    (<[100 := s_aceptado]> ∅) = 0%nat.
Proof.
  apply (proj1 (to_fix_after_sync (<[100 := f100]> ∅) (<[100 := s_aceptado]> ∅))).
  intros k d s Hd Hs.
  apply lookup_insert_Some in Hd as [[_ <-]|[_ Hd]];
    [|rewrite lookup_empty in Hd; discriminate].
  apply lookup_insert_Some in Hs as [[_ <-]|[_ Hs]];
    [|rewrite lookup_empty in Hs; discriminate].
  split; [cbn; eauto|left; reflexivity].
Defined.

(** Invoice 100 is stored as ACEPTADO; the call for it times out for good. *)
Lemma failed_call_resets_status_witness :
  exists c' p,
    settle (fun _ => "[]") (fun _ => "{}") (connect d_aceptado)
      (Token.t0 + 3600 * Token.second) row1
      (Ret (false, Http.error_payload (Some Http.timeout_error))) 9 no_faults
    = Ret (c', false) /\
    snapshot (work c') !! 100 = Some p /\
    Estado_Actual p = None /\ Cambio_Estado p = Some 1.
Proof.
  destruct (failed_call_resets_status (fun _ => "[]") (fun _ => "{}") (connect d_aceptado)
              (Token.t0 + 3600 * Token.second) row1 (Some Http.timeout_error) 9
              s_aceptado eq_refl)
    as (c' & Hs & _ & (p & Hp & He & _ & _ & Hc & _) & _).
  - discriminate.
  - exists c', p. auto.
Defined.

(** After the claim of both rows, the turn for row 2 goes through. *)
Definition c_after_2 : cnx :=
  match process_item (fun _ => "[]") (fun _ => "{}") c_claimed
          (Token.t0 + 3600 * Token.second) row2 (Ret (true, Estado.payload (JInt 3)))
          (Token.t0 + 2) no_faults (0%nat, 0%nat) with
  | Ret (c, _) => c
  | Raise _ => c_claimed
  end.

(** Then the history insert of row 1 fails: row 2 stays [done], claimed
    once. *)
Lemma later_failure_is_isolated_witness :
  exists c',
    process_item (fun _ => "[]") (fun _ => "{}") c_after_2 (Token.t0 + 3600 * Token.second)
      row1 (Ret (true, Estado.payload (JInt 3))) (Token.t0 + 1) (hist_fails_for_1 1)
      (1%nat, 0%nat) = Ret (c', (1%nat, 1%nat)) /\
    Status <$> queue (work c') !! 2 = Some "done" /\
    Attempts <$> queue (work c') !! 2 = Some 1.
Proof.
  assert (H0 : process_item (fun _ => "[]") (fun _ => "{}") c_claimed
                 (Token.t0 + 3600 * Token.second) row2
                 (Ret (true, Estado.payload (JInt 3))) (Token.t0 + 2) no_faults
                 (0%nat, 0%nat) = Ret (c_after_2, (1%nat, 0%nat)))
    by (vm_compute; reflexivity).
  assert (Hs : settle (fun _ => "[]") (fun _ => "{}") c_after_2
                 (Token.t0 + 3600 * Token.second) row1
                 (Ret (true, Estado.payload (JInt 3))) (Token.t0 + 1) (hist_fails_for_1 1)
               = Raise deadlock) by (vm_compute; reflexivity).
  assert (Hp : {c' | process_item (fun _ => "[]") (fun _ => "{}") c_after_2
                       (Token.t0 + 3600 * Token.second) row1
                       (Ret (true, Estado.payload (JInt 3))) (Token.t0 + 1)
                       (hist_fails_for_1 1) (1%nat, 0%nat) = Ret (c', (1%nat, 1%nat))})
    by (eexists; vm_compute; reflexivity).
  destruct Hp as [c' Hp].
  destruct (later_failure_is_isolated _ _ _ _ _ _ _ _ _ _ _ _ _ _ _ _ _ _ H0 Hs Hp)
    as (_ & _ & _ & _ & _ & Hq).
  exists c'. split; [exact Hp|].
  rewrite (Hq 2) by discriminate. split; vm_compute; reflexivity.
Defined.

(** Invoice 100 is queued again and has a snapshot row, first queried at
    instant 5: after the cycle the row is there with that instant. *)
Definition d_known : db := Db (queue d0) [] (snapshot d_aceptado) (final d0).

Lemma process_batch_snapshot_kept_witness :
  exists p',
    snapshot (committed (pb_cnx (run true (cycle_with (fun _ => no_faults))
                                   (connect d_known)))) !! 100 = Some p' /\
    Fecha_Primera_Consulta p' = Some 5.
Proof.
  destruct (proj2 (process_batch_snapshot_kept (fun _ => "[]") (fun _ => "{}")
                     (fun _ => "15/01/2024") (fun _ => Ret (Date 2024 1 15))
                     (Http.decode_error true) (Some "cid") (Some "secret") 300 3 true
                     (cycle_with (fun _ => no_faults)) (Token.initial_state Token.t0)
                     (connect d_known) eq_refl) 100 s_aceptado eq_refl)
    as (p' & Hp & Hk & _).
  exists p'. split; [exact Hp|exact Hk].
Defined.

(** Invoice 100, stored as ACEPTADO, reconciled with an answer of code 2. *)
Lemma snapshot_holds_last_mapping_witness :
  exists p,
    upsert (snapshot d_aceptado) row1 (Some "ANULADO") (Some "ANULADO (2)") (Some "2")
      None 9 !! 100 = Some p /\
    (Estado_Actual p, Estado_Descripcion p, s_Codigo_Respuesta p)
    = (Some "ANULADO", Some "ANULADO (2)", Some "2").
Proof.
  destruct (snapshot_holds_last_mapping (fun _ => "[]") (snapshot d_aceptado) row1
              (Estado.payload (JInt 2)) None 9) as (p & Hp & Hm & _).
  - intros prev H. vm_compute in H. injection H as <-. split; discriminate.
  - exists p. split; [exact Hp|exact Hm].
Defined.

End Store.
